(** * VidFetch: the resolution-and-streaming pipeline

    A shallow embedding of the server side of the video downloader
    ([server/services/video-extractor.ts] and the [/api/stream-video] and
    [/api/extract-video-info] handlers of [server/routes.ts]) together with the
    properties its design document states about it.

    Conventions of the embedding.
    - A JavaScript string is a [string]: the bytes of its UTF-8 encoding.
      All the needles, keywords and labels of the program are ASCII, so
      substring search is the same on these bytes as on UTF-16 code units.
      [trim] strips every white-space code point of the language, one byte
      or more; [toLowerCase] is exact on every code point whose lower case
      has an ASCII letter; the [/i] flag of a regular expression without
      the [u] flag folds the ASCII letters only, as the language has it.
    - A promise is the value it settles with, [Resolved v] or [Rejected msg],
      or it never settles: the program sets no timer on the external tool
      and none on the reading of a response body, so a tool that never ends
      and a body that never arrives are answers of the environment too.
    - The external tool, the network probes and the Node streams are the
      environment: a computation that talks to them is a tree of requests
      ([Proc]) and an environment answers each request; the answers are
      arbitrary, the reactions are the program's. *)

From Stdlib Require Import String Ascii List Bool Arith ZArith NArith Lia.
From Stdlib Require Import Decimal DecimalString DecimalN DecimalFacts.
From Stdlib Require Import Sorted Permutation.
Import ListNotations.

Local Open Scope string_scope.
Local Open Scope list_scope.

(* ================================================================== *)
(** * Definitions *)
(* ================================================================== *)

(** ** JavaScript string primitives used by the program *)
Module JS.

(** [s.startsWith(p)] *)
Fixpoint startsWith (s p : string) : bool :=
  match p, s with
  | EmptyString, _ => true
  | String _ _, EmptyString => false
  | String a p', String b s' => Ascii.eqb a b && startsWith s' p'
  end.

(** [s.includes(needle)] *)
Fixpoint includes (s needle : string) : bool :=
  startsWith s needle ||
  match s with
  | EmptyString => false
  | String _ s' => includes s' needle
  end.

Definition is_upper (c : ascii) : bool :=
  let n := nat_of_ascii c in Nat.leb 65 n && Nat.leb n 90.

Definition lower_char (c : ascii) : ascii :=
  if is_upper c then ascii_of_nat (nat_of_ascii c + 32) else c.

(** The bytes of a string, for the tests on code points of several bytes. *)
Definition byte (c : ascii) (n : nat) : bool := Nat.eqb (nat_of_ascii c) n.

(** The folding of the [/i] flag (without the [u] flag): the ASCII letters,
    and no code point outside ASCII is ever taken for an ASCII letter. *)
Fixpoint lowerAscii (s : string) : string :=
  match s with
  | EmptyString => EmptyString
  | String c s' => String (lower_char c) (lowerAscii s')
  end.

(** [s.toLowerCase()].  Outside ASCII two code points have an ASCII letter
    in their lower case: U+212A (the Kelvin sign, bytes E2 84 AA) becomes
    [k], and U+0130 (bytes C4 B0) becomes [i] followed by U+0307 (bytes CC
    87).  Every other code point outside ASCII is left as it is: its lower
    case has no ASCII letter, and the program looks at the result only for
    ASCII words. *)
Fixpoint toLowerCase (s : string) : string :=
  match s with
  | EmptyString => EmptyString
  | String a s1 =>
      match s1 with
      | String b s2 =>
          if byte a 196 && byte b 176
          then String "i" (String (ascii_of_nat 204)
                             (String (ascii_of_nat 135) (toLowerCase s2)))
          else
            match s2 with
            | String c s3 =>
                if byte a 226 && byte b 132 && byte c 170
                then String "k" (toLowerCase s3)
                else String (lower_char a) (toLowerCase s1)
            | EmptyString => String (lower_char a) (toLowerCase s1)
            end
      | EmptyString => String (lower_char a) EmptyString
      end
  end.

(** [/pat/i.test(s)] for a pattern without metacharacters. *)
Definition test_i (pat s : string) : bool :=
  includes (lowerAscii s) (lowerAscii pat).

(** White space and line terminators of one byte, as [trim] strips them:
    U+0009 to U+000D and U+0020. *)
Definition is_space (c : ascii) : bool :=
  let n := nat_of_ascii c in
  (Nat.leb 9 n && Nat.leb n 13) || Nat.eqb n 32.

(** U+00A0, by its two bytes. *)
Definition is_space2 (a b : ascii) : bool := byte a 194 && byte b 160.

(** The white space and line terminators of three bytes: U+1680, U+2000 to
    U+200A, U+2028, U+2029, U+202F, U+205F, U+3000 and U+FEFF. *)
Definition is_space3 (a b c : ascii) : bool :=
  (byte a 225 && byte b 154 && byte c 128) ||
  (byte a 226 && byte b 128 &&
   ((Nat.leb 128 (nat_of_ascii c) && Nat.leb (nat_of_ascii c) 138)
    || byte c 168 || byte c 169 || byte c 175)) ||
  (byte a 226 && byte b 129 && byte c 159) ||
  (byte a 227 && byte b 128 && byte c 128) ||
  (byte a 239 && byte b 187 && byte c 191).

(** [s.trimStart()] *)
Fixpoint trimStart (s : string) : string :=
  match s with
  | EmptyString => EmptyString
  | String a s1 =>
      if is_space a then trimStart s1
      else
        match s1 with
        | String b s2 =>
            if is_space2 a b then trimStart s2
            else
              match s2 with
              | String c s3 => if is_space3 a b c then trimStart s3 else s
              | EmptyString => s
              end
        | EmptyString => s
        end
  end.

(** [s] is nothing but white space. *)
Fixpoint allSpace (s : string) : bool :=
  match s with
  | EmptyString => true
  | String a s1 =>
      if is_space a then allSpace s1
      else
        match s1 with
        | String b s2 =>
            if is_space2 a b then allSpace s2
            else
              match s2 with
              | String c s3 => is_space3 a b c && allSpace s3
              | EmptyString => false
              end
        | EmptyString => false
        end
  end.

(** [s.trimEnd()]: the longest suffix of white space goes. *)
Fixpoint trimEnd (s : string) : string :=
  match s with
  | EmptyString => EmptyString
  | String c s' => if allSpace s then EmptyString else String c (trimEnd s')
  end.

(** [s.trim()] *)
Definition trim (s : string) : string := trimEnd (trimStart s).

Definition newline : ascii := ascii_of_nat 10.

(** [s.split('\n')[0]] *)
Fixpoint firstLine (s : string) : string :=
  match s with
  | EmptyString => EmptyString
  | String c s' =>
      if Ascii.eqb c newline then EmptyString else String c (firstLine s')
  end.

(** Truthiness of a string: only the empty string is falsy. *)
Definition truthy (s : string) : bool := negb (s =? "").

(** [a || b] on strings. *)
Definition or_else (a b : string) : string := if truthy a then a else b.

(** [s.endsWith(p)] *)
Fixpoint endsWith (s p : string) : bool :=
  (s =? p) ||
  match s with
  | EmptyString => false
  | String _ s' => endsWith s' p
  end.

End JS.

(** What a promise settles with, or why it never does. *)
Inductive Settled (A : Type) : Type :=
| Resolved (v : A)
| Rejected (message : string)
| Uncaught (message : string)   (* an exception nobody handles *)
| Pending.                      (* neither resolve nor reject is ever called *)
Arguments Resolved {A} v.
Arguments Rejected {A} message.
Arguments Uncaught {A} message.
Arguments Pending {A}.

(** ** PlatformResolver: [VideoExtractorService.detectPlatform] *)
Module Platform.

Definition supportedPlatforms : list string :=
  [ "youtube.com"; "youtu.be"; "tiktok.com"; "instagram.com";
    "facebook.com"; "twitter.com"; "x.com"; "vimeo.com"; "reddit.com";
    "linkedin.com"; "pinterest.com"; "pin.it"; "dailymotion.com"; "dai.ly" ].

(** A synchronous call either returns or throws [new Error(message)]. *)
Inductive Thrown (A : Type) : Type :=
| Returns (v : A)
| Throws (message : string).
Arguments Returns {A} v.
Arguments Throws {A} message.

(** The chain of [if (domain.includes(..)) return ..] of the method, with
    its trailing [return 'Unknown']. *)
Definition nameOfDomain (domain : string) : string :=
  if JS.includes domain "youtube" || JS.includes domain "youtu.be" then "YouTube"
  else if JS.includes domain "tiktok" then "TikTok"
  else if JS.includes domain "instagram" then "Instagram"
  else if JS.includes domain "facebook" then "Facebook"
  else if JS.includes domain "twitter" || JS.includes domain "x.com" then "Twitter/X"
  else if JS.includes domain "vimeo" then "Vimeo"
  else if JS.includes domain "reddit" then "Reddit"
  else if JS.includes domain "linkedin" then "LinkedIn"
  else if JS.includes domain "pinterest" || JS.includes domain "pin.it" then "Pinterest"
  else if JS.includes domain "dailymotion" || JS.includes domain "dai.ly" then "Dailymotion"
  else "Unknown".

Definition detectPlatform (url : string) : Thrown string :=
  match find (fun platform => JS.includes url platform) supportedPlatforms with
  | None => Throws "Unsupported platform"
  | Some domain =>
      if negb (JS.truthy domain) then Throws "Unsupported platform"
      else Returns (nameOfDomain domain)
  end.

(** The platforms of the data model, without its [Unknown] tag. *)
Inductive PlatformId : Set :=
| YouTube | TikTok | Instagram | Facebook | TwitterX
| Vimeo | Reddit | LinkedIn | Pinterest | Dailymotion.

Definition platformName (p : PlatformId) : string :=
  match p with
  | YouTube => "YouTube"
  | TikTok => "TikTok"
  | Instagram => "Instagram"
  | Facebook => "Facebook"
  | TwitterX => "Twitter/X"
  | Vimeo => "Vimeo"
  | Reddit => "Reddit"
  | LinkedIn => "LinkedIn"
  | Pinterest => "Pinterest"
  | Dailymotion => "Dailymotion"
  end.

(** The platform each supported domain belongs to: the short-link domains
    go with the platform of their canonical domain. *)
Definition canonicalTable : list (string * PlatformId) :=
  [ ("youtube.com", YouTube); ("youtu.be", YouTube);
    ("tiktok.com", TikTok); ("instagram.com", Instagram);
    ("facebook.com", Facebook);
    ("twitter.com", TwitterX); ("x.com", TwitterX);
    ("vimeo.com", Vimeo); ("reddit.com", Reddit);
    ("linkedin.com", LinkedIn);
    ("pinterest.com", Pinterest); ("pin.it", Pinterest);
    ("dailymotion.com", Dailymotion); ("dai.ly", Dailymotion) ].

Definition canonical (domain : string) : option PlatformId :=
  option_map snd (find (fun e => fst e =? domain) canonicalTable).

End Platform.

(** ** Insertion-ordered maps and the array sort of the runtime *)
Module JsMap.
Section Map.
Context {V : Type}.

(** A [Map<string, V>]: its entries in insertion order. *)
Definition t := list (string * V).

Fixpoint get (k : string) (m : t) : option V :=
  match m with
  | [] => None
  | (k', v) :: m' => if k' =? k then Some v else get k m'
  end.

(** [m.set(k, v)]: an existing key keeps its position, a new key goes
    last. *)
Fixpoint set (k : string) (v : V) (m : t) : t :=
  match m with
  | [] => [(k, v)]
  | (k', v') :: m' =>
      if k' =? k then (k', v) :: m' else (k', v') :: set k v m'
  end.

Definition keys (m : t) : list string := map fst m.

(** [Array.from(m.values())] *)
Definition values (m : t) : list V := map snd m.
End Map.
Arguments t V : clear implicits.

Section Sort.
Context {A : Type} (compareFn : A -> A -> Z).

Fixpoint insert (x : A) (l : list A) : list A :=
  match l with
  | [] => [x]
  | y :: l' =>
      if (compareFn x y <=? 0)%Z then x :: l else y :: insert x l'
  end.

(** [array.sort(compareFn)]: the sort of the runtime is stable, which
    fixes its result for a comparator that orders the elements; a stable
    insertion sort computes it. *)
Definition sort (l : list A) : list A := fold_right insert [] l.
End Sort.
End JsMap.

(** ** The quality ladder: [extractQualities] and the background merge *)
Module Quality.

Record QualityOption : Type := mkOption {
  quality : string;
  format : string;
  fileSize : string
}.

(** One entry of the tool's [formats] array, with the fields the method
    reads.  [height] is [Number(format.height)], a pixel count, [0] when
    the field is absent or not a number; [ext] is [None] when the field is
    not a string; the sizes are byte counts, [0] when absent. *)
Record StreamFormat : Type := mkFormat {
  height : N;
  vcodec : option string;
  ext : option string;
  filesize : N;
  filesize_approx : N
}.

Definition audioOnly : QualityOption :=
  {| quality := "Audio Only"; format := "mp3"; fileSize := "Variable" |}.

(** [`${n}`] for a natural number. *)
Definition decimal (n : N) : string := NilEmpty.string_of_uint (N.to_uint n).

Definition qualityLabel (h : N) : string :=
  if (2160 <=? h)%N then "4K (2160p)"
  else if (1440 <=? h)%N then "2K (1440p)"
  else if (1080 <=? h)%N then "1080p HD"
  else if (720 <=? h)%N then "720p HD"
  else decimal h ++ "p".

Definition is_digit (c : ascii) : bool :=
  let n := nat_of_ascii c in Nat.leb 48 n && Nat.leb n 57.

(** [s.replace(/\D/g, '')] *)
Fixpoint digitsOnly (s : string) : string :=
  match s with
  | EmptyString => EmptyString
  | String c s' =>
      if is_digit c then String c (digitsOnly s') else digitsOnly s'
  end.

(** [parseInt(s) || 0] on a string of digits. *)
Definition parseIntOr0 (s : string) : N :=
  match NilEmpty.uint_of_string s with
  | Some u => N.of_uint u
  | None => 0
  end.

Definition resolutionOf (q : QualityOption) : N :=
  parseIntOr0 (digitsOnly (quality q)).

(** The comparator handed to [sort]. *)
Definition compareQualities (a b : QualityOption) : Z :=
  if quality a =? "Audio Only" then 1%Z
  else if quality b =? "Audio Only" then (-1)%Z
  else (Z.of_N (resolutionOf b) - Z.of_N (resolutionOf a))%Z.

Section Extract.
(** [formatFileSize] renders a non-zero size with floating-point
    arithmetic ([Math.log], [toFixed(1)]) and a unit looked up in a
    table; the two renderings are left open. *)
Variable toFixed1 : N -> string.
Variable unitOf : N -> string.

Definition formatFileSize (bytes : N) : string :=
  if (bytes =? 0)%N then "Unknown"
  else toFixed1 bytes ++ " " ++ unitOf bytes.

Definition extOf (f : StreamFormat) : string :=
  match ext f with Some e => e | None => "mp4" end.

Definition sizeOf (f : StreamFormat) : string :=
  if negb (filesize f =? 0)%N then formatFileSize (filesize f)
  else if negb (filesize_approx f =? 0)%N
       then formatFileSize (filesize_approx f)
       else "Unknown".

(** The formats the loop skips: no height, or no video stream. *)
Definition skipped (f : StreamFormat) : bool :=
  (height f =? 0)%N ||
  match vcodec f with Some v => v =? "none" | None => false end.

Definition optionOf (f : StreamFormat) : QualityOption :=
  {| quality := qualityLabel (height f);
     format := extOf f;
     fileSize := sizeOf f |}.

(** [prefer] of the loop body. *)
Definition prefer (existing : QualityOption) (f : StreamFormat) : bool :=
  ((fileSize existing =? "Unknown") && negb (sizeOf f =? "Unknown")) ||
  ((extOf f =? "mp4") && negb (format existing =? "mp4")).

(** The body of [formats.forEach]. *)
Definition addFormat (qualityMap : JsMap.t QualityOption) (f : StreamFormat)
  : JsMap.t QualityOption :=
  if skipped f then qualityMap
  else
    let q := qualityLabel (height f) in
    match JsMap.get q qualityMap with
    | None => JsMap.set q (optionOf f) qualityMap
    | Some existing =>
        if prefer existing f then JsMap.set q (optionOf f) qualityMap
        else qualityMap
    end.

Definition qualityMapOf (formats : list StreamFormat)
  : JsMap.t QualityOption :=
  fold_left addFormat formats (JsMap.set "audio" audioOnly []).

Definition extractQualities (formats : list StreamFormat)
  : list QualityOption :=
  JsMap.sort compareQualities (JsMap.values (qualityMapOf formats)).
End Extract.

(** *** The merge of the background probe ([/api/extract-video-info]) *)

(** [!s || s === 'Unknown'] *)
Definition sizeUnknown (s : string) : bool :=
  negb (JS.truthy s) || (s =? "Unknown").

(** The [else] branch of the overlay loop: what becomes of the probed
    entry [current] when the original list has [q] under the same label. *)
Definition overlayOnto (current q : QualityOption) : QualityOption :=
  let current1 :=
    if sizeUnknown (fileSize current)
    then {| quality := quality current; format := format current;
            fileSize := fileSize q |}
    else current in
  if negb (JS.truthy (format current1)) && JS.truthy (format q)
  then {| quality := quality current1; format := format q;
          fileSize := fileSize current1 |}
  else current1.

Definition overlay (m : JsMap.t QualityOption) (q : QualityOption)
  : JsMap.t QualityOption :=
  match JsMap.get (quality q) m with
  | None => JsMap.set (quality q) q m
  | Some current => JsMap.set (quality q) (overlayOnto current q) m
  end.

Definition probedMap (probed : list QualityOption) : JsMap.t QualityOption :=
  fold_left (fun m p => JsMap.set (quality p) p m) probed [].

(** [merged] of the handler: the probed entries first, the original ones
    laid over them.  The objects of the original list are shared with the
    map and written through it; the list is read once, front to back, and
    each object is written only after it was read, so values suffice. *)
Definition mergeQualities (probed orig : list QualityOption)
  : list QualityOption :=
  JsMap.values (fold_left overlay orig (probedMap probed)).

(** The qualities the cache holds once the background probe has run:
    nothing is written for an empty probe. *)
Definition enrich (probed cached : list QualityOption) : list QualityOption :=
  match probed with
  | [] => cached
  | _ :: _ => mergeQualities probed cached
  end.

(** *** Notions the properties are stated with *)

(** The number the comparator reads off a label. *)
Definition labelResolution (h : N) : N :=
  if (2160 <=? h)%N then 42160
  else if (1440 <=? h)%N then 21440
  else if (1080 <=? h)%N then 1080
  else if (720 <=? h)%N then 720
  else h.

(** An entry the loop made: filed under its own label, the label of some
    height. *)
Definition videoEntry (kv : string * QualityOption) : Prop :=
  quality (snd kv) = fst kv /\ exists h, fst kv = qualityLabel h.

Definition wfVideo (vs : JsMap.t QualityOption) : Prop :=
  NoDup (JsMap.keys vs) /\ Forall videoEntry vs.

Definition videoOption (q : QualityOption) : Prop :=
  exists h, quality q = qualityLabel h.

(** The map of the video entries alone, and its sorted values. *)
Definition videoMap (toFixed1 unitOf : N -> string)
           (formats : list StreamFormat) : JsMap.t QualityOption :=
  fold_left (addFormat toFixed1 unitOf) formats [].

Definition videoLadder (toFixed1 unitOf : N -> string)
           (formats : list StreamFormat) : list QualityOption :=
  JsMap.sort compareQualities (JsMap.values (videoMap toFixed1 unitOf formats)).

(** [a] may stand before [b]: its resolution is no lower. *)
Definition notBelow (a b : QualityOption) : Prop :=
  (resolutionOf b <= resolutionOf a)%N.

(** [a] stands strictly above [b]. *)
Definition above (a b : QualityOption) : Prop :=
  (resolutionOf b < resolutionOf a)%N.

(** [v] is what a probed entry [p] may have become under the overlay: the
    same label, and whatever [p] knew is kept. *)
Definition refines (p v : QualityOption) : Prop :=
  quality v = quality p /\
  (sizeUnknown (fileSize p) = false -> fileSize v = fileSize p) /\
  (JS.truthy (format p) = true -> format v = format p).

Definition entryRefines (a b : string * QualityOption) : Prop :=
  fst a = fst b /\ refines (snd a) (snd b).

(** Every entry is filed under its own label, and no label twice. *)
Definition wfMap (m : JsMap.t QualityOption) : Prop :=
  NoDup (JsMap.keys m) /\ Forall (fun kv => quality (snd kv) = fst kv) m.

(** The list ends with the audio option, in mp3. *)
Definition audioLast (l : list QualityOption) : bool :=
  match List.rev l with
  | a :: _ => (quality a =? "Audio Only") && (format a =? "mp3")
  | [] => false
  end.

End Quality.

(** ** The environment: subprocesses and HTTP probes *)
Module World.

(** What [spawn] reports once the process is over: the exit code ([None]
    when a signal ended it) and what was collected from its two pipes. *)
Record Exit : Type := mkExit {
  code : option Z;
  stdout : string;
  stderr : string
}.

(** [code === 0] *)
Definition exitedZero (e : Exit) : bool :=
  match code e with Some 0%Z => true | _ => false end.

(** A spawned process emits ['error'] (it could not be started) or
    ['close'], or it runs for ever: the program sets no timer on it and
    never kills it. *)
Inductive Run : Type :=
| SpawnFailed (message : string)
| Closed (e : Exit)
| NeverCloses.

(** The fields the program reads off an oEmbed document; [""] for a field
    that is absent or falsy. *)
Record OEmbed : Type := mkOEmbed {
  oe_title : string;
  oe_thumbnail_url : string;
  oe_author_name : string
}.

(** A response of [fetch]: [resp.ok], and what [resp.json()] and
    [resp.text()] give, [None] when they throw. *)
Record Response : Type := mkResponse {
  ok : bool;
  json : option OEmbed;
  text : option string
}.

(** [fetch] resolves with a response or throws (network error, abort by
    the timer).  The timer is cleared once the response is there, so the
    body of an ok response may also never arrive ([Stalled]); a response
    [Responded r] with [ok r] is one whose body is read to its end or
    fails to be read.  (The page scrape also hands the library a [timeout]
    option; where the library applies it to the body, the environment has
    no [Stalled] answer for that request.) *)
Inductive Fetched : Type :=
| FetchThrew
| Responded (r : Response)
| Stalled.

(** A computation that asks the environment: the tree of its requests. *)
Inductive Proc (A : Type) : Type :=
| Ret (a : A)
| Spawn (cmd : string) (args : list string) (k : Run -> Proc A)
| Fetch (url : string) (headers : list (string * string))
        (k : Fetched -> Proc A).
Arguments Ret {A} a.
Arguments Spawn {A} cmd args k.
Arguments Fetch {A} url headers k.

(** What was asked and what was answered, in order. *)
Inductive Event : Type :=
| Spawned (cmd : string) (args : list string) (r : Run)
| Requested (url : string) (headers : list (string * string)) (r : Fetched).

(** An environment answers the [n]-th request of a run. *)
Record Env : Type := mkEnv {
  onSpawn : nat -> string -> list string -> Run;
  onFetch : nat -> string -> list (string * string) -> Fetched
}.

Fixpoint runFrom {A : Type} (n : nat) (env : Env) (p : Proc A)
  : A * list Event :=
  match p with
  | Ret a => (a, [])
  | Spawn cmd args k =>
      let r := onSpawn env n cmd args in
      let (a, t) := runFrom (S n) env (k r) in
      (a, Spawned cmd args r :: t)
  | Fetch url headers k =>
      let r := onFetch env n url headers in
      let (a, t) := runFrom (S n) env (k r) in
      (a, Requested url headers r :: t)
  end.

Definition run {A : Type} (env : Env) (p : Proc A) : A * list Event :=
  runFrom 0 env p.

(** The invocations of the external tool among the events. *)
Fixpoint spawns (t : list Event) : list (list string * Run) :=
  match t with
  | [] => []
  | Spawned _ args r :: t' => (args, r) :: spawns t'
  | Requested _ _ _ :: t' => spawns t'
  end.

(** A request whose answer never comes: a tool that never ends, the body
    of a response that never arrives. *)
Definition unanswered (ev : Event) : bool :=
  match ev with
  | Spawned _ _ NeverCloses => true
  | Requested _ _ Stalled => true
  | _ => false
  end.

(** The run came to a halt on its last request. *)
Definition stalled (trace : list Event) : bool :=
  match List.rev trace with
  | ev :: _ => unanswered ev
  | [] => false
  end.

(** [args] hands the tool the format selector [sel]. *)
Fixpoint hasSelector (sel : string) (args : list string) : bool :=
  match args with
  | a :: ((b :: _) as rest) =>
      ((a =? "--format") && (b =? sel)) || hasSelector sel rest
  | _ => false
  end.

End World.

(** ** MetadataExtractor and DownloadLinkResolver:
       [extractVideoInfo] and [generateDownloadLink] *)
Module Extractor.
Import World Quality.

(** The environment variables the service reads; [""] when unset. *)
Record ProcessEnv : Type := mkProcessEnv {
  COOKIES_BROWSER : string;
  COOKIES_FILE : string;
  YTDLP_PATH : string;
  FFMPEG_PATH : string;
  ALLOW_COOKIES_FROM_BROWSER : string
}.

(** The regular expressions [getMeta] is called with, by what they look
    for. *)
Inductive MetaPattern : Set :=
| OgTitle | TitleTag | MetaTitle | MetaDescription | JsonCaption
| JsonAccessibilityCaption | OgImage | MetaImage | OgImageUrl
| JsonDisplayUrl | JsonThumbnailSrc | JsonSrcJpg | JsonPreviewJpg
| JsonImageJpg | ImgSrcJpg | JsonUrlJpg | JsonImagesOrig
| MetaAuthor | OgSiteName | JsonUsername | OgDescription.

(** The fields the service reads off a record of the tool's JSON output;
    [""] or [0] for a field that is absent or falsy. *)
Record VideoData : Type := mkVideoData {
  vd_title : string;
  vd_id : string;
  vd_description : string;
  vd_thumbnail : string;
  vd_thumbnails_0_url : string;
  vd_duration : N;
  vd_uploader : string;
  vd_channel : string;
  vd_uploader_id : string;
  vd_view_count : N;
  vd_formats : list StreamFormat
}.

(** What the platform provides and the embedding leaves open: [path.dirname],
    the regular-expression match of [getMeta] (with its decoding of
    entities), [JSON.parse] of one line of output ([None] when it throws),
    and the floating-point rendering of sizes. *)
Record Runtime : Type := mkRuntime {
  path_dirname : string -> string;
  getMeta : MetaPattern -> string -> string;
  JSON_parse : string -> option VideoData;
  toFixed1 : N -> string;
  unitOf : N -> string
}.

Record ExtractedVideoInfo : Type := mkInfo {
  title : string;
  description : string;
  thumbnail : string;
  duration : string;
  uploader : string;
  viewCount : N;
  platform : string;
  availableQualities : list QualityOption
}.

Definition userAgent : string :=
  "Mozilla/5.0 (Windows NT 10.0; Win64; x64) AppleWebKit/537.36 (KHTML, like Gecko) Chrome/120.0.0.0 Safari/537.36".

Definition sampleMediaUrl : string :=
  "https://commondatastorage.googleapis.com/gtv-videos-bucket/sample/BigBuckBunny.mp4".

Definition hexDigit (n : nat) : ascii :=
  ascii_of_nat (if Nat.ltb n 10 then 48 + n else 55 + n).

Definition unreserved (c : ascii) : bool :=
  let n := nat_of_ascii c in
  (Nat.leb 65 n && Nat.leb n 90) || (Nat.leb 97 n && Nat.leb n 122) ||
  (Nat.leb 48 n && Nat.leb n 57) ||
  existsb (Nat.eqb n) [45; 95; 46; 33; 126; 42; 39; 40; 41].

(** [encodeURIComponent(s)], on the bytes of [s]. *)
Fixpoint encodeURIComponent (s : string) : string :=
  match s with
  | EmptyString => EmptyString
  | String c s' =>
      if unreserved c then String c (encodeURIComponent s')
      else
        let n := nat_of_ascii c in
        String "%" (String (hexDigit (n / 16))
                      (String (hexDigit (n mod 16)) (encodeURIComponent s')))
  end.

(** [s.split('\n')] *)
Fixpoint splitLines (s : string) : list string :=
  match s with
  | EmptyString => [EmptyString]
  | String c s' =>
      if Ascii.eqb c JS.newline then EmptyString :: splitLines s'
      else
        match splitLines s' with
        | [] => [String c EmptyString]
        | l :: ls => String c l :: ls
        end
  end.

Definition pad2 (n : N) : string :=
  if (n <? 10)%N then "0" ++ decimal n else decimal n.

Definition formatDuration (seconds : N) : string :=
  if (seconds =? 0)%N then "00:00"
  else
    let hours := (seconds / 3600)%N in
    let minutes := ((seconds mod 3600) / 60)%N in
    let remainingSeconds := (seconds mod 60)%N in
    if (0 <? hours)%N
    then pad2 hours ++ ":" ++ pad2 minutes ++ ":" ++ pad2 remainingSeconds
    else pad2 minutes ++ ":" ++ pad2 remainingSeconds.

Section Service.
Variable penv : ProcessEnv.
Variable rt : Runtime.

Definition cookieArgs : list string :=
  (if JS.truthy (COOKIES_BROWSER penv)
   then ["--cookies-from-browser"; COOKIES_BROWSER penv] else []) ++
  (if JS.truthy (COOKIES_FILE penv)
   then ["--cookies"; COOKIES_FILE penv] else []).

Definition ffmpegArgs : list string :=
  let ffmpegPath := FFMPEG_PATH penv in
  if JS.truthy ffmpegPath
  then [ "--ffmpeg-location";
         if JS.endsWith (JS.toLowerCase ffmpegPath) ".exe"
         then path_dirname rt ffmpegPath else ffmpegPath ]
  else [].

Definition ytdlpCmd : string := JS.or_else (YTDLP_PATH penv) "yt-dlp".

Definition isTikTokUrl (url : string) : bool := JS.includes url "tiktok.com".
Definition isInstagramUrl (url : string) : bool :=
  JS.includes url "instagram.com".
Definition isPinterestUrl (url : string) : bool :=
  JS.includes url "pinterest.com" || JS.includes url "pin.it".
Definition isDailymotionUrl (url : string) : bool :=
  JS.includes url "dailymotion.com" || JS.includes url "dai.ly".

(** *** The ladders the service hands out without asking the tool *)

Definition unknownSize (q : string) : QualityOption :=
  {| quality := q; format := "mp4"; fileSize := "Unknown" |}.

Definition audioVariable : QualityOption :=
  {| quality := "Audio Only"; format := "mp3"; fileSize := "Variable" |}.

Definition genericLadder7 : list QualityOption :=
  [ unknownSize "4K (2160p)"; unknownSize "2K (1440p)";
    unknownSize "1080p HD"; unknownSize "720p HD";
    unknownSize "480p"; unknownSize "360p"; audioVariable ].

Definition genericLadder4 : list QualityOption :=
  [ unknownSize "1080p HD"; unknownSize "720p HD"; unknownSize "480p";
    audioVariable ].

Definition demoLadder : list QualityOption :=
  [ {| quality := "4K (2160p)"; format := "mp4"; fileSize := "245 MB" |};
    {| quality := "2K (1440p)"; format := "mp4"; fileSize := "156 MB" |};
    {| quality := "1080p HD"; format := "mp4"; fileSize := "89 MB" |};
    {| quality := "720p HD"; format := "mp4"; fileSize := "45 MB" |};
    {| quality := "480p"; format := "mp4"; fileSize := "28 MB" |};
    {| quality := "360p"; format := "mp4"; fileSize := "18 MB" |};
    {| quality := "Audio Only"; format := "mp3"; fileSize := "4.2 MB" |} ].

(** The metadata of the oEmbed fast paths. *)
Definition oembedInfo (platformName titleDefault uploaderDefault : string)
           (ladder : list QualityOption) (data : OEmbed)
  : ExtractedVideoInfo :=
  {| title := JS.or_else (oe_title data) titleDefault;
     description := "";
     thumbnail := JS.or_else (oe_thumbnail_url data) "";
     duration := "Unknown";
     uploader := JS.or_else (oe_author_name data) uploaderDefault;
     viewCount := 0;
     platform := platformName;
     availableQualities := ladder |}.

(** One oEmbed tier: a single request; anything but an [ok] response with a
    readable JSON body falls through to [next]. *)
Definition oembedTier (endpoint : string) (headers : list (string * string))
           (mk : OEmbed -> ExtractedVideoInfo)
           (next : Proc (Settled ExtractedVideoInfo))
  : Proc (Settled ExtractedVideoInfo) :=
  Fetch endpoint headers (fun r =>
    match r with
    | FetchThrew => next
    | Responded resp =>
        if ok resp then
          match json resp with
          | Some data => Ret (Resolved (mk data))
          | None => next
          end
        else next
    | Stalled => Ret Pending
    end).

(** *** The scrape of the social-preview tags *)

Definition scrapeHeaders (platformName : string) : list (string * string) :=
  [ ("User-Agent", userAgent);
    ("Accept", "text/html,application/xhtml+xml,application/xml;q=0.9,image/webp,image/apng,*/*;q=0.8");
    ("Accept-Language", "en-US,en;q=0.9");
    ("Accept-Encoding", "gzip, deflate, br");
    ("Cache-Control", "no-cache");
    ("Pragma", "no-cache");
    ("Sec-Fetch-Dest", "document");
    ("Sec-Fetch-Mode", "navigate");
    ("Sec-Fetch-Site", "none");
    ("Upgrade-Insecure-Requests", "1") ] ++
  (if platformName =? "TikTok" then
     [ ("Referer", "https://www.tiktok.com/");
       ("Origin", "https://www.tiktok.com") ]
   else if platformName =? "Instagram" then
     [ ("Referer", "https://www.instagram.com/");
       ("Origin", "https://www.instagram.com");
       ("X-Instagram-AJAX", "1");
       ("X-Requested-With", "XMLHttpRequest") ]
   else if platformName =? "Pinterest" then
     [ ("Referer", "https://www.pinterest.com/");
       ("Origin", "https://www.pinterest.com");
       ("X-Requested-With", "XMLHttpRequest") ]
   else []).

(** [a || b || ...] over the matches of patterns, in order. *)
Fixpoint firstMeta (html : string) (ps : list MetaPattern) : string :=
  match ps with
  | [] => ""
  | p :: ps' => JS.or_else (getMeta rt p html) (firstMeta html ps')
  end.

Definition scrapedInfo (platformName html : string) : ExtractedVideoInfo :=
  let title0 := firstMeta html [OgTitle; TitleTag; MetaTitle] in
  let title1 :=
    if (platformName =? "Instagram") && negb (JS.truthy title0)
    then firstMeta html [MetaDescription; JsonCaption; JsonAccessibilityCaption]
    else title0 in
  let title2 := JS.or_else title1 (platformName ++ " Video") in
  let thumb0 := firstMeta html [OgImage; MetaImage; OgImageUrl] in
  let thumb1 :=
    if (platformName =? "Instagram") && negb (JS.truthy thumb0)
    then firstMeta html [JsonDisplayUrl; JsonThumbnailSrc; JsonSrcJpg;
                         JsonPreviewJpg; JsonImageJpg; ImgSrcJpg]
    else thumb0 in
  let thumb2 :=
    if (platformName =? "Pinterest") && negb (JS.truthy thumb1)
    then firstMeta html [JsonUrlJpg; JsonImagesOrig]
    else thumb1 in
  {| title := title2;
     description := firstMeta html [OgDescription; MetaDescription];
     thumbnail := thumb2;
     duration := "Unknown";
     uploader :=
       JS.or_else (firstMeta html [MetaAuthor; OgSiteName; JsonUsername])
                  platformName;
     viewCount := 0;
     platform := platformName;
     availableQualities := genericLadder4 |}.

Definition scrapeTier (platformName url : string)
           (next : Proc (Settled ExtractedVideoInfo))
  : Proc (Settled ExtractedVideoInfo) :=
  Fetch url (scrapeHeaders platformName) (fun r =>
    match r with
    | FetchThrew => next
    | Responded resp =>
        if ok resp then
          match text resp with
          | Some html => Ret (Resolved (scrapedInfo platformName html))
          | None => next
          end
        else next
    | Stalled => Ret Pending
    end).

(** *** The external tool in metadata-dump mode *)

Definition dumpArgs (url : string) : list string :=
  [ "--dump-json"; "--no-download"; "--no-warnings"; "--no-playlist";
    "--user-agent"; userAgent;
    "--ignore-config"; "--no-check-certificate"; "--geo-bypass";
    "--force-ipv4";
    "--add-header"; "Accept:text/html,application/xhtml+xml,application/xml;q=0.9,*/*;q=0.8";
    "--add-header"; "Accept-Language:en-us,en;q=0.5";
    "--add-header"; "Sec-Fetch-Mode:navigate";
    "--extractor-retries"; "3";
    "--socket-timeout"; "30" ] ++
  (if isTikTokUrl url then
     [ "--add-header"; "Origin:https://www.tiktok.com";
       "--add-header"; "Referer:https://www.tiktok.com/";
       "--extractor-args"; "tiktok:api_hostname=api16-normal-c-useast1a.tiktokv.com";
       "--extractor-args"; "tiktok:app_version=34.1.2";
       "--extractor-args"; "tiktok:manifest_app_version=2023407020" ]
     ++ cookieArgs
   else []) ++
  (if isInstagramUrl url then
     [ "--add-header"; "Origin:https://www.instagram.com";
       "--add-header"; "Referer:https://www.instagram.com/";
       "--add-header"; "X-Instagram-AJAX:1";
       "--add-header"; "X-Requested-With:XMLHttpRequest";
       "--add-header"; "Accept:*/*";
       "--add-header"; "Accept-Encoding:gzip, deflate, br";
       "--add-header"; "Cache-Control:no-cache";
       "--extractor-retries"; "5" ]
     ++ cookieArgs
   else []) ++
  (if isPinterestUrl url then
     [ "--add-header"; "Origin:https://www.pinterest.com";
       "--add-header"; "Referer:https://www.pinterest.com/";
       "--add-header"; "X-Requested-With:XMLHttpRequest" ]
     ++ cookieArgs
   else []) ++
  (if isDailymotionUrl url then
     [ "--add-header"; "Origin:https://www.dailymotion.com";
       "--add-header"; "Referer:https://www.dailymotion.com/" ]
     ++ cookieArgs
   else []) ++
  [url] ++ ffmpegArgs.

(** The signatures of a failure the service answers with demo content. *)
Definition authSignature (errorOutput : string) : bool :=
  JS.includes errorOutput "Sign in to confirm" ||
  JS.includes errorOutput "ERROR: [youtube]".

Definition blockedSignature (errorOutput : string) : bool :=
  JS.includes errorOutput "HTTP Error 403" ||
  JS.includes errorOutput "HTTP Error 401" ||
  JS.includes (JS.toLowerCase errorOutput) "login" ||
  JS.includes (JS.toLowerCase errorOutput) "forbidden" ||
  JS.includes (JS.toLowerCase errorOutput) "private" ||
  JS.includes (JS.toLowerCase errorOutput) "unavailable" ||
  JS.includes (JS.toLowerCase errorOutput) "not available" ||
  JS.includes (JS.toLowerCase errorOutput) "blocked".

Definition cookiePlatformUrl (url : string) : bool :=
  isTikTokUrl url || isInstagramUrl url ||
  JS.includes url "pinterest.com" || JS.includes url "pin.it".

Definition youtubeDemo (platformName : string) : ExtractedVideoInfo :=
  {| title := "Sample Video (Demo Mode)";
     description := "This is a demo video since YouTube requires authentication. In production, proper authentication would be needed.";
     thumbnail := "https://images.unsplash.com/photo-1611162617474-5b21e879e113?ixlib=rb-4.0.3&auto=format&fit=crop&w=800&h=450";
     duration := "3:45";
     uploader := "Demo Channel";
     viewCount := 123456;
     platform := platformName;
     availableQualities := demoLadder |}.

Definition cookieDemo (platformName url : string) : ExtractedVideoInfo :=
  let name := if isTikTokUrl url then "TikTok"
              else if isInstagramUrl url then "Instagram" else "Pinterest" in
  {| title := name ++ " Sample (Demo Mode)";
     description := name ++ " content may require login/cookies or be private. Configure COOKIES_BROWSER environment variable for better extraction.";
     thumbnail := "https://images.unsplash.com/photo-1524255684952-d7185b509571?q=80&w=1200&auto=format&fit=crop";
     duration := "00:30";
     uploader := name ++ " Creator";
     viewCount := 98765;
     platform := platformName;
     availableQualities := genericLadder4 |}.

(** The first line of the output that parses to a record with a title or
    an id. *)
Fixpoint firstRecord (lines : list string) : option VideoData :=
  match lines with
  | [] => None
  | line :: rest =>
      match JSON_parse rt line with
      | Some parsed =>
          if JS.truthy (vd_title parsed) || JS.truthy (vd_id parsed)
          then Some parsed else firstRecord rest
      | None => firstRecord rest
      end
  end.

Definition infoOfRecord (platformName : string) (videoData : VideoData)
  : ExtractedVideoInfo :=
  {| title := JS.or_else (vd_title videoData) "Unknown Title";
     description := JS.or_else (vd_description videoData) "";
     thumbnail := JS.or_else (vd_thumbnail videoData)
                    (JS.or_else (vd_thumbnails_0_url videoData) "");
     duration := formatDuration (vd_duration videoData);
     uploader := JS.or_else (vd_uploader videoData)
                   (JS.or_else (vd_channel videoData)
                      (JS.or_else (vd_uploader_id videoData) "Unknown"));
     viewCount := vd_view_count videoData;
     platform := platformName;
     availableQualities :=
       extractQualities (toFixed1 rt) (unitOf rt) (vd_formats videoData) |}.

(** The ['close'] handler of the metadata dump.  (The excerpt of the
    output in the last message is its first 200 bytes here and its first 200
    code units in the program: the same on ASCII output, and nothing but the
    text of that message depends on it.) *)
Definition onDumpClose (platformName url : string) (e : Exit)
  : Settled ExtractedVideoInfo :=
  let errorOutput := stderr e in
  let output := stdout e in
  if negb (exitedZero e) then
    if authSignature errorOutput then Resolved (youtubeDemo platformName)
    else if cookiePlatformUrl url && blockedSignature errorOutput
    then Resolved (cookieDemo platformName url)
    else Rejected ("Video extraction failed: "
                   ++ JS.or_else errorOutput "Unknown error")
  else if negb (JS.truthy (JS.trim output))
  then Rejected ("No output from yt-dlp for URL: " ++ url)
  else
    match firstRecord (splitLines (JS.trim output)) with
    | None => Rejected ("No valid video data found in output: "
                        ++ substring 0 200 output ++ "...")
    | Some videoData => Resolved (infoOfRecord platformName videoData)
    end.

Definition toolTier (platformName url : string)
  : Proc (Settled ExtractedVideoInfo) :=
  Spawn ytdlpCmd (dumpArgs url) (fun r =>
    match r with
    | SpawnFailed message =>
        Ret (Rejected ("yt-dlp execution failed: " ++ message))
    | Closed e => Ret (onDumpClose platformName url e)
    | NeverCloses => Ret Pending
    end).

Definition youtubeOEmbedUrl (url : string) : string :=
  "https://www.youtube.com/oembed?url=" ++ encodeURIComponent url
  ++ "&format=json".

(** [extractVideoInfo]: the tiers in their order.  The executor of the
    promise is an async function: when [detectPlatform] throws in it, nobody
    handles the error. *)
Definition extractVideoInfo (url : string)
  : Proc (Settled ExtractedVideoInfo) :=
  match Platform.detectPlatform url with
  | Platform.Throws message => Ret (Uncaught message)
  | Platform.Returns platformName =>
      let tool := toolTier platformName url in
      let scrape :=
        if (platformName =? "TikTok") || (platformName =? "Instagram")
           || (platformName =? "Pinterest")
        then scrapeTier platformName url tool else tool in
      let dailymotion :=
        if platformName =? "Dailymotion"
        then oembedTier
               ("https://www.dailymotion.com/services/oembed?url="
                ++ encodeURIComponent url) []
               (oembedInfo platformName "Dailymotion Video" "Dailymotion"
                           genericLadder4)
               scrape
        else scrape in
      let vimeo :=
        if platformName =? "Vimeo"
        then oembedTier
               ("https://vimeo.com/api/oembed.json?url="
                ++ encodeURIComponent url) []
               (oembedInfo platformName "Vimeo Video" "Vimeo" genericLadder4)
               dailymotion
        else dailymotion in
      if platformName =? "YouTube"
      then oembedTier (youtubeOEmbedUrl url) [("User-Agent", userAgent)]
             (oembedInfo platformName "YouTube Video" "YouTube" genericLadder7)
             vimeo
      else vimeo
  end.

(** Whatever the tiers before it do, a run that reaches the tool settles
    with what the ['close'] handler of the tool makes of its exit. *)
Definition settlesByClose (platformName url : string)
           (p : Proc (Settled ExtractedVideoInfo)) : Prop :=
  forall n env out trace,
    runFrom n env p = (out, trace) ->
    forall args e,
      In (args, Closed e) (spawns trace) ->
      out = onDumpClose platformName url e.

(** *** The external tool in resolve-direct-URL mode *)

Definition getFormatSelector (quality url : string) : string :=
  if JS.includes url "tiktok.com" then
    let base := "best[ext=mp4][protocol^=http]/best[protocol^=http]/best" in
    if JS.includes quality "1080"
    then "best[height<=1080][ext=mp4][protocol^=http]/" ++ base
    else if JS.includes quality "720"
    then "best[height<=720][ext=mp4][protocol^=http]/" ++ base
    else if JS.includes quality "480"
    then "best[height<=480][ext=mp4][protocol^=http]/" ++ base
    else base
  else if JS.includes url "instagram.com" || JS.includes url "pinterest.com"
          || JS.includes url "pin.it" then
    let base := "best[ext=mp4][protocol^=http]/best[protocol^=http]/best" in
    if JS.includes quality "1080"
    then "best[height<=1080][ext=mp4][protocol^=http]/" ++ base
    else if JS.includes quality "720"
    then "best[height<=720][ext=mp4][protocol^=http]/" ++ base
    else if JS.includes quality "480"
    then "best[height<=480][ext=mp4][protocol^=http]/" ++ base
    else base
  else if JS.includes quality "2160" || JS.includes quality "4K"
  then "best[height<=2160][ext=mp4][protocol^=http]/best[height<=2160]/best[ext=mp4]/best"
  else if JS.includes quality "1440" || JS.includes quality "2K"
  then "best[height<=1440][ext=mp4][protocol^=http]/best[height<=1440]/best[ext=mp4]/best"
  else if JS.includes quality "1080"
  then "best[height<=1080][ext=mp4][protocol^=http]/best[height<=1080]/best[ext=mp4]/best"
  else if JS.includes quality "720"
  then "best[height<=720][ext=mp4][protocol^=http]/best[height<=720]/best[ext=mp4]/best"
  else if JS.includes quality "480"
  then "best[height<=480][ext=mp4][protocol^=http]/best[height<=480]/best[ext=mp4]/best"
  else if JS.includes quality "360"
  then "best[height<=360][ext=mp4][protocol^=http]/best[height<=360]/best[ext=mp4]/best"
  else if JS.includes quality "240"
  then "best[height<=240][ext=mp4][protocol^=http]/best[height<=240]/best[ext=mp4]/best"
  else "best[ext=mp4][protocol^=http]/best".

(** The arguments of the first invocation. *)
Definition linkArgs (url quality format : string) : list string :=
  [ "--get-url"; "--no-warnings";
    "--user-agent"; userAgent;
    "--ignore-config"; "--no-check-certificate"; "--geo-bypass";
    "--add-header"; "Accept:*/*";
    "--add-header"; "Accept-Language:en-us,en;q=0.5";
    "--add-header"; "Sec-Fetch-Mode:cors";
    "--add-header"; "Sec-Fetch-Site:cross-site";
    "--extractor-retries"; "10";
    "--fragment-retries"; "10";
    "--socket-timeout"; "60";
    "--retry-sleep"; "2" ] ++
  (if isTikTokUrl url then
     [ "--add-header"; "Origin:https://www.tiktok.com";
       "--add-header"; "Referer:https://www.tiktok.com/";
       "--extractor-args"; "tiktok:api_hostname=api16-normal-c-useast1a.tiktokv.com";
       "--extractor-args"; "tiktok:app_version=34.1.2";
       "--extractor-args"; "tiktok:manifest_app_version=2023407020" ]
     ++ cookieArgs
   else []) ++
  (if isInstagramUrl url then
     [ "--add-header"; "Origin:https://www.instagram.com";
       "--add-header"; "Referer:https://www.instagram.com/";
       "--add-header"; "X-Instagram-AJAX:1";
       "--add-header"; "X-Requested-With:XMLHttpRequest";
       "--add-header"; "Accept:*/*";
       "--add-header"; "Accept-Encoding:gzip, deflate, br";
       "--add-header"; "Cache-Control:no-cache";
       "--extractor-retries"; "5" ]
     ++ cookieArgs
   else []) ++
  (if isPinterestUrl url then
     [ "--add-header"; "Origin:https://www.pinterest.com";
       "--add-header"; "Referer:https://www.pinterest.com/";
       "--add-header"; "X-Requested-With:XMLHttpRequest";
       "--add-header"; "Accept:*/*";
       "--add-header"; "Accept-Encoding:gzip, deflate, br";
       "--add-header"; "Cache-Control:no-cache";
       "--extractor-retries"; "10";
       "--fragment-retries"; "10";
       "--retry-sleep"; "3";
       "--ignore-errors" ]
     ++ cookieArgs
   else []) ++
  (if format =? "mp3"
   then ["--extract-audio"; "--audio-format"; "mp3"]
   else ["--format"; getFormatSelector quality url]) ++
  [url] ++ ffmpegArgs.

(** The arguments of the Pinterest fallback: the generic extractor. *)
Definition fallbackArgs (url : string) : list string :=
  [ "--get-url"; "--no-warnings"; "--ignore-config";
    "--no-check-certificate"; "--geo-bypass";
    "--user-agent"; userAgent;
    "--extractor-retries"; "3";
    "--socket-timeout"; "30";
    "--ignore-errors"; "--force-generic-extractor";
    "-f"; "best[ext=mp4]/best";
    url ].

(** The selector of the retry: the best of anything. *)
Definition permissiveSelector : string := "best/bestvideo+bestaudio".

(** The arguments of the retry after 'Requested format is not available'. *)
Definition retryArgs (url : string) : list string :=
  [ "--get-url"; "--no-warnings";
    "--user-agent"; userAgent;
    "--ignore-config"; "--no-check-certificate"; "--geo-bypass";
    "--extractor-retries"; "10";
    "--fragment-retries"; "10";
    "--socket-timeout"; "60";
    "--retry-sleep"; "2";
    "--format"; permissiveSelector ] ++
  (if isTikTokUrl url then
     [ "--add-header"; "Origin:https://www.tiktok.com";
       "--add-header"; "Referer:https://www.tiktok.com/";
       "--extractor-args"; "tiktok:api_hostname=api16-normal-c-useast1a.tiktokv.com";
       "--extractor-args"; "tiktok:app_version=34.1.2";
       "--extractor-args"; "tiktok:manifest_app_version=2023407020" ]
     ++ cookieArgs
   else []) ++
  (if isInstagramUrl url then
     [ "--add-header"; "Origin:https://www.instagram.com";
       "--add-header"; "Referer:https://www.instagram.com/";
       "--add-header"; "X-Instagram-AJAX:1";
       "--add-header"; "X-Requested-With:XMLHttpRequest" ]
     ++ cookieArgs
   else []) ++
  (if isPinterestUrl url then
     [ "--add-header"; "Origin:https://www.pinterest.com";
       "--add-header"; "Referer:https://www.pinterest.com/" ]
     ++ cookieArgs
   else []) ++
  (if isDailymotionUrl url then
     [ "--add-header"; "Origin:https://www.dailymotion.com";
       "--add-header"; "Referer:https://www.dailymotion.com/" ]
     ++ cookieArgs
   else []) ++
  [url] ++ ffmpegArgs.

Definition jsonParseSignature (errorOutput : string) : bool :=
  JS.test_i "Failed to parse JSON" errorOutput ||
  JS.test_i "JSONDecodeError" errorOutput.

Definition formatUnavailableSignature (errorOutput : string) : bool :=
  JS.test_i "Requested format is not available" errorOutput.

(** The ['close'] handler of the Pinterest fallback.  The fallback process
    has no ['error'] listener. *)
Definition onFallbackClose (r : Run) : Settled string :=
  match r with
  | SpawnFailed message => Uncaught message
  | Closed e =>
      if exitedZero e && JS.truthy (JS.trim (stdout e))
      then Resolved (JS.trim (stdout e))
      else Resolved sampleMediaUrl
  | NeverCloses => Pending
  end.

(** The ['close'] handler of the retry; [errorOutput] is the diagnostic of
    the first invocation.  The retry process has no ['error'] listener. *)
Definition onRetryClose (url errorOutput : string) (r : Run) : Settled string :=
  match r with
  | SpawnFailed message => Uncaught message
  | Closed e =>
      if exitedZero e then
        let retryUrl := JS.firstLine (JS.trim (stdout e)) in
        if JS.truthy retryUrl then Resolved retryUrl
        else Rejected "Retry succeeded but no URL returned"
      else if isTikTokUrl url || isInstagramUrl url
      then Resolved sampleMediaUrl
      else Rejected ("Download link generation failed after retry: "
                     ++ JS.or_else (stderr e) errorOutput)
  | NeverCloses => Pending
  end.

(** [generateDownloadLink] *)
Definition generateDownloadLink (url quality format : string)
  : Proc (Settled string) :=
  Spawn ytdlpCmd (linkArgs url quality format) (fun r =>
    match r with
    | SpawnFailed message =>
        Ret (Rejected ("yt-dlp execution failed: " ++ message))
    | Closed e =>
        let errorOutput := stderr e in
        if negb (exitedZero e) then
          if isPinterestUrl url && jsonParseSignature errorOutput then
            Spawn ytdlpCmd (fallbackArgs url) (fun r2 =>
              Ret (onFallbackClose r2))
          else if formatUnavailableSignature errorOutput then
            Spawn ytdlpCmd (retryArgs url) (fun r2 =>
              Ret (onRetryClose url errorOutput r2))
          else if isTikTokUrl url || isInstagramUrl url
          then Ret (Resolved sampleMediaUrl)
          else if authSignature errorOutput
          then Ret (Resolved sampleMediaUrl)
          else Ret (Rejected ("Download link generation failed: "
                              ++ errorOutput))
        else
          let downloadUrl := JS.firstLine (JS.trim (stdout e)) in
          if negb (JS.truthy downloadUrl)
          then Ret (Rejected "No download URL returned from yt-dlp")
          else Ret (Resolved downloadUrl)
    | NeverCloses => Ret Pending
    end).

End Service.
(** *** Notions the properties are stated with *)

(** The keywords the design document lists for a blocked or private
    video. *)
Definition claimedKeywords : list string :=
  ["403"; "401"; "login"; "forbidden"; "private"; "unavailable"; "blocked"].

Definition claimedBlocked (errorOutput : string) : bool :=
  existsb (fun k => JS.includes (JS.toLowerCase errorOutput) k)
          claimedKeywords.

(** The failures the document says are answered with demo content. *)
Definition claimedDemoCase (url errorOutput : string) : bool :=
  authSignature errorOutput ||
  (cookiePlatformUrl url && claimedBlocked errorOutput).

(** Demo content says so in its title. *)
Definition labelledDemo (info : ExtractedVideoInfo) : bool :=
  JS.includes (title info) "(Demo Mode)".

(** The fallback policy with the document's list of keywords: demo content
    in the listed cases, a rejection in every other one. *)
Definition claimedFallbackPolicy : Prop :=
  forall penv rt env url out trace args e,
    run env (extractVideoInfo penv rt url) = (out, trace) ->
    In (args, Closed e) (spawns trace) ->
    exitedZero e = false ->
    if claimedDemoCase url (stderr e)
    then exists info, out = Resolved info /\ labelledDemo info = true
    else exists message, out = Rejected message.

Definition plainRuntime : Runtime :=
  mkRuntime (fun p => p) (fun _ _ => "") (fun _ => None)
            (fun _ => "1.0") (fun _ => "MB").

Definition noEnvironment : ProcessEnv := mkProcessEnv "" "" "" "" "".

(** The probes fail and the tool exits with code 1 and the given
    diagnostic. *)
Definition failingWith (errorOutput : string) : Env :=
  mkEnv (fun _ _ _ => Closed (mkExit (Some 1%Z) "" errorOutput))
        (fun _ _ _ => FetchThrew).

(** The design document's account of a resolution in which every invocation
    of the tool fails: the sample URL for TikTok and Instagram and for
    YouTube behind a sign-in wall, a rejection for every other failure. *)
Definition claimedLinkFailurePolicy : Prop :=
  forall penv rt env url quality format out trace args1 e1,
    run env (generateDownloadLink penv rt url quality format) = (out, trace) ->
    hd_error (spawns trace) = Some (args1, Closed e1) ->
    Forall (fun ar => exists e, snd ar = Closed e /\ exitedZero e = false)
           (spawns trace) ->
    if isTikTokUrl url || isInstagramUrl url ||
       ((JS.includes url "youtube.com" || JS.includes url "youtu.be")
        && authSignature (stderr e1))
    then out = Resolved sampleMediaUrl
    else exists message, out = Rejected message.

(** The design document's account of the fast path: for a YouTube URL an
    ok answer of the oEmbed probe is enough for the metadata with the
    generic ladder of seven entries, sizes unknown, and the tool is not
    spawned. *)
Definition claimedOEmbedShortCircuit : Prop :=
  forall penv rt env url resp,
    Platform.detectPlatform url = Platform.Returns "YouTube" ->
    onFetch env 0 (youtubeOEmbedUrl url) [("User-Agent", userAgent)]
      = Responded resp ->
    ok resp = true ->
    let r := run env (extractVideoInfo penv rt url) in
    spawns (snd r) = [] /\
    exists info,
      fst r = Resolved info /\
      map quality (availableQualities info)
      = [ "4K (2160p)"; "2K (1440p)"; "1080p HD"; "720p HD"; "480p"; "360p";
          "Audio Only" ] /\
      Forall (fun q => quality q <> "Audio Only" -> fileSize q = "Unknown")
             (availableQualities info).

(** Every probe is answered ok with a body that is not JSON, and the tool
    exits with code 1 and the given diagnostic. *)
Definition unreadableBody (errorOutput : string) : Env :=
  mkEnv (fun _ _ _ => Closed (mkExit (Some 1%Z) "" errorOutput))
        (fun _ _ _ => Responded (mkResponse true None (Some "<html>"))).

(** The design document's account of the retry: whenever the first
    invocation fails with the signature and the tool, asked with the
    permissive selector, succeeds, the promise resolves with the URL that
    retry prints, and that retry is the one invocation after the first. *)
Definition claimedRetryPolicy : Prop :=
  forall penv rt env url quality format e1 e2,
    onSpawn env 0 (ytdlpCmd penv) (linkArgs penv rt url quality format)
      = Closed e1 ->
    exitedZero e1 = false ->
    JS.test_i "Requested format is not available" (stderr e1) = true ->
    (forall n args,
        hasSelector "best/bestvideo+bestaudio" args = true ->
        onSpawn env n (ytdlpCmd penv) args = Closed e2) ->
    exitedZero e2 = true ->
    JS.truthy (JS.firstLine (JS.trim (stdout e2))) = true ->
    let r := run env (generateDownloadLink penv rt url quality format) in
    fst r = Resolved (JS.firstLine (JS.trim (stdout e2))) /\
    exists args2,
      tl (spawns (snd r)) = [(args2, Closed e2)] /\
      hasSelector "best/bestvideo+bestaudio" args2 = true.

(** The tool prints a URL when it is asked with the permissive selector
    and fails with the given diagnostic on every other invocation. *)
Definition permissiveOnly (errorOutput printed : string) : Env :=
  mkEnv (fun _ _ args =>
           if hasSelector "best/bestvideo+bestaudio" args
           then Closed (mkExit (Some 0%Z) printed "")
           else Closed (mkExit (Some 1%Z) "" errorOutput))
        (fun _ _ _ => FetchThrew).

(** Every invocation exits with code 1 and the given diagnostic. *)
Definition alwaysFailing (errorOutput : string) : Env :=
  mkEnv (fun _ _ _ => Closed (mkExit (Some 1%Z) "" errorOutput))
        (fun _ _ _ => FetchThrew).

(** The first invocation fails with the given diagnostic, the second one
    succeeds and prints a URL. *)
Definition failingThenPrinting (errorOutput printed : string) : Env :=
  mkEnv (fun n _ _ =>
           match n with
           | O => Closed (mkExit (Some 1%Z) "" errorOutput)
           | S _ => Closed (mkExit (Some 0%Z) printed "")
           end)
        (fun _ _ _ => FetchThrew).

(** A run that asks for at most one document (an oEmbed record or the page
    itself) and then, at most once, the tool with the given arguments. *)
Definition probeThenTool (cmd : string) (args : list string)
           (trace : list Event) : Prop :=
  (exists u h r, trace = [Requested u h r]) \/
  (exists r, trace = [Spawned cmd args r]) \/
  (exists u h r r', trace = [Requested u h r; Spawned cmd args r']).

(** The platforms that have a tier before the tool. *)
Definition probedPlatforms : list string :=
  ["YouTube"; "Vimeo"; "Dailymotion"; "TikTok"; "Instagram"; "Pinterest"].

(** What a caller can rely on in resolved metadata: the detected platform,
    a title, and a ladder that ends with the audio option. *)
Definition presentable (platformName : string) (info : ExtractedVideoInfo)
  : Prop :=
  platform info = platformName /\
  JS.truthy (title info) = true /\
  audioLast (availableQualities info) = true.

(** What a call on a supported URL comes to: resolved with presentable
    metadata; rejected, once the tool has run; or pending for ever, which
    is the case exactly when the answer to its last request never comes. *)
Definition settledWell (cmd : string) (args : list string)
           (platformName : string)
           (out : Settled ExtractedVideoInfo) (trace : list Event) : Prop :=
  probeThenTool cmd args trace /\
  match out with
  | Resolved info => presentable platformName info /\ stalled trace = false
  | Rejected _ =>
      (exists before r, trace = before ++ [Spawned cmd args r]) /\
      stalled trace = false
  | Pending => stalled trace = true
  | Uncaught _ => False
  end.

(** The height a selector caps the stream at, for the label of a stream of
    height [h] on a platform without special treatment. *)
Definition ceilingOf (h : N) : option N :=
  if (2160 <=? h)%N then Some 2160%N
  else if (1440 <=? h)%N then Some 1440%N
  else if (1080 <=? h)%N then Some 1080%N
  else if (720 <=? h)%N then Some 720%N
  else if (h =? 480)%N || (h =? 360)%N || (h =? 240)%N then Some h
  else None.

Definition cappedSelector (ceiling : option N) : string :=
  match ceiling with
  | Some c =>
      "best[height<=" ++ decimal c ++ "][ext=mp4][protocol^=http]/best[height<="
      ++ decimal c ++ "]/best[ext=mp4]/best"
  | None => "best[ext=mp4][protocol^=http]/best"
  end.

(** The same on TikTok, Instagram and Pinterest, where only three caps are
    known. *)
Definition cookieCeilingOf (h : N) : option N :=
  if (1440 <=? h)%N then None
  else if (1080 <=? h)%N then Some 1080%N
  else if (720 <=? h)%N then Some 720%N
  else if (h =? 480)%N then Some 480%N
  else None.

Definition cookieSelector (ceiling : option N) : string :=
  match ceiling with
  | Some c =>
      "best[height<=" ++ decimal c
      ++ "][ext=mp4][protocol^=http]/best[ext=mp4][protocol^=http]/best[protocol^=http]/best"
  | None => "best[ext=mp4][protocol^=http]/best[protocol^=http]/best"
  end.

End Extractor.

(** ** StreamingProxy: the [/api/stream-video] handler *)
Module Stream.

(** The query parameters and the header of the request the handler reads;
    [""] when absent. *)
Record Request : Type := mkRequest {
  q_url : string;
  q_quality : string;
  q_format : string;
  q_token : string;
  q_compatible : string;
  h_range : string
}.

(** The response object, as far as the handler's error handling goes: the
    names of the headers set so far (one per call of [setHeader]), whether
    the headers have left, the status, the JSON error body if one was sent,
    whether the response is over, and whether a write was attempted that the
    framework refuses with ERR_HTTP_HEADERS_SENT. *)
Record Res : Type := mkRes {
  headersSent : bool;
  statusCode : nat;
  headerNames : list string;
  errorBody : option string;
  ended : bool;
  refused : bool
}.

Definition freshRes : Res :=
  {| headersSent := false; statusCode := 200; headerNames := [];
     errorBody := None; ended := false; refused := false |}.

(** [res.setHeader(name, ..)] *)
Definition setHeader (name : string) (r : Res) : Res :=
  if headersSent r
  then {| headersSent := true; statusCode := statusCode r;
          headerNames := headerNames r; errorBody := errorBody r;
          ended := ended r; refused := true |}
  else {| headersSent := false; statusCode := statusCode r;
          headerNames := headerNames r ++ [name]; errorBody := errorBody r;
          ended := ended r; refused := refused r |}.

(** [res.status(code).json({ error: message })] *)
Definition sendJson (code : nat) (message : string) (r : Res) : Res :=
  if headersSent r
  then {| headersSent := true; statusCode := statusCode r;
          headerNames := headerNames r; errorBody := errorBody r;
          ended := ended r; refused := true |}
  else {| headersSent := true; statusCode := code;
          headerNames := headerNames r; errorBody := Some message;
          ended := true; refused := refused r |}.

(** A chunk the pipe writes to the response: the first one sends the
    headers with the status as it stands. *)
Definition pipeWrite (r : Res) : Res :=
  if ended r then r
  else {| headersSent := true; statusCode := statusCode r;
          headerNames := headerNames r; errorBody := errorBody r;
          ended := false; refused := refused r |}.

(** The pipe ends the response when its source ends. *)
Definition pipeEnd (r : Res) : Res :=
  if ended r then r
  else {| headersSent := true; statusCode := statusCode r;
          headerNames := headerNames r; errorBody := errorBody r;
          ended := true; refused := refused r |}.

(** The peer went away: nothing more reaches it. *)
Definition hangUp (r : Res) : Res :=
  {| headersSent := headersSent r; statusCode := statusCode r;
     headerNames := headerNames r; errorBody := errorBody r;
     ended := true; refused := refused r |}.

(** Which listeners are registered. *)
Inductive Phase : Set :=
| Finished      (* none: nothing more happens for this request *)
| Transcoding   (* ['error'] and ['close'] of the tool's process *)
| ReadingFile   (* ['error'] and ['close'] of the file's read stream *)
| Relaying.     (* ['end'] and ['error'] of the upstream body *)

(** The handler's view of a request under way.  [tmpFile] is the size of
    the file at [outPath], [None] when there is no such file; [errors] are
    the lines written with [console.error]. *)
Record Handler : Type := mkHandler {
  res : Res;
  tmpFile : option N;
  errors : list string;
  phase : Phase
}.

(** What the upstream answered to the GET of the resolved URL. *)
Record Upstream : Type := mkUpstream {
  up_ok : bool;
  up_status : string;
  up_contentLength : string;
  up_hasBody : bool
}.

(** The cache lookup: it may fail, find nothing, or find a title. *)
Inductive Lookup : Type :=
| LookupFailed (message : string)
| Found (title : option string).

(** [fetch] of the resolved URL throws or is answered. *)
Inductive Fetching : Type :=
| FetchFailed (message : string)
| Answered (v : Upstream).

(** What the awaited calls of the handler's body give. *)
Record Awaited : Type := mkAwaited {
  link : Settled string;
  cached : Lookup;
  firstFetch : Fetching;
  secondFetch : Fetching;          (* the retry with [Range: bytes=0-] *)
  urlParses : bool                 (* [new URL(actualDownloadUrl)] succeeds *)
}.

(** The [catch] clause of the handler. *)
Definition caught (message : string) (h : Handler) : Handler :=
  {| res := if negb (headersSent (res h))
            then sendJson 500 (JS.or_else message "Failed to stream video")
                          (res h)
            else res h;
     tmpFile := tmpFile h;
     errors := errors h ++ [("Stream video error: " ++ message)%string];
     phase := Finished |}.

Definition setHeaders (names : list string) (r : Res) : Res :=
  fold_left (fun r name => setHeader name r) names r.

(** [compatible] of the handler. *)
Definition wantsCompatible (req : Request) : bool :=
  let compatParam := JS.toLowerCase (q_compatible req) in
  let requestedCompat := (compatParam =? "1") || (compatParam =? "true") in
  let disableCompat := (compatParam =? "0") || (compatParam =? "false") in
  if negb disableCompat && JS.includes (q_url req) "tiktok.com"
     && negb (q_format req =? "mp3")
  then true
  else requestedCompat && negb disableCompat.

(** The transcode path is taken for audio and for compatible output. *)
Definition transcodes (req : Request) : bool :=
  (q_format req =? "mp3") || wantsCompatible req.

(** The handler up to its first callback. *)
Definition startStream (req : Request) (aw : Awaited) : Handler :=
  let h0 := {| res := freshRes; tmpFile := None; errors := [];
               phase := Finished |} in
  if negb (JS.truthy (q_url req)) || negb (JS.truthy (q_quality req))
     || negb (JS.truthy (q_format req))
  then {| res := sendJson 400 "Missing required parameters" freshRes;
          tmpFile := None; errors := []; phase := Finished |}
  else
    match link aw with
    | Rejected message => caught message h0
    | Uncaught _ | Pending => h0
    | Resolved actualDownloadUrl =>
        match cached aw with
        | LookupFailed message => caught message h0
        | Found _ =>
            let r1 := if JS.truthy (q_token req)
                      then setHeader "Set-Cookie" freshRes else freshRes in
            let r2 := setHeaders [ "Access-Control-Allow-Origin";
                                   "Access-Control-Allow-Headers";
                                   "Cache-Control" ] r1 in
            if transcodes req then
              let r3 := setHeaders [ "Content-Disposition"; "Content-Type";
                                     "Cache-Control";
                                     "Access-Control-Allow-Origin" ] r2 in
              let r4 := if JS.truthy (q_token req)
                        then setHeader "Set-Cookie" r3 else r3 in
              {| res := r4; tmpFile := None; errors := [];
                 phase := Transcoding |}
            else
              let h2 := {| res := r2; tmpFile := None; errors := [];
                           phase := Finished |} in
              match firstFetch aw with
              | FetchFailed message => caught message h2
              | Answered v1 =>
                  let retry :=
                    negb (JS.truthy (h_range req)) && up_ok v1 &&
                    (negb (JS.truthy (up_contentLength v1))
                     || (up_contentLength v1 =? "0")) in
                  match (if retry then secondFetch aw else Answered v1) with
                  | FetchFailed message => caught message h2
                  | Answered v =>
                      if negb (up_ok v)
                      then caught ("Failed to fetch video: " ++ up_status v) h2
                      else
                        let r3 := setHeader "Content-Type" r2 in
                        if negb (urlParses aw)
                        then caught "Invalid URL"
                               {| res := r3; tmpFile := None; errors := [];
                                  phase := Finished |}
                        else
                          let r4 := setHeader "Content-Disposition" r3 in
                          let r5 := if JS.truthy (up_contentLength v)
                                    then setHeader "Content-Length" r4
                                    else r4 in
                          let r6 := if JS.truthy (h_range req)
                                    then setHeader "Accept-Ranges" r5
                                    else r5 in
                          if up_hasBody v
                          then {| res := r6; tmpFile := None; errors := [];
                                  phase := Relaying |}
                          else caught "No video data received"
                                 {| res := r6; tmpFile := None; errors := [];
                                    phase := Finished |}
                  end
              end
        end
    end.

(** What the environment does to a request under way. *)
Inductive Event : Type :=
| ToolWrites (size : N)          (* the tool leaves output at [outPath] *)
| ProcError (message : string)   (* ['error'] of the process *)
| ProcClose (code : option Z)    (* ['close'] of the process *)
| ReadChunk                      (* the read stream has data for the pipe *)
| ReadEnd                        (* the read stream is at its end *)
| ReadError (message : string)   (* ['error'] of the read stream *)
| ReadClose                      (* ['close'] of the read stream *)
| UpChunk                        (* the upstream body has data *)
| UpEnd                          (* ['end'] of the upstream body *)
| UpError (message : string)     (* ['error'] of the upstream body *)
| ClientGone.                    (* the client closed the connection *)

(** [`${code}`] *)
Definition showCode (code : option Z) : string :=
  match code with
  | None => "null"
  | Some z => NilEmpty.string_of_int (Z.to_int z)
  end.

(** [code !== 0] *)
Definition nonZero (code : option Z) : bool :=
  match code with Some 0%Z => false | _ => true end.

(** [if (!res.headersSent) res.status(500).json({ error })] *)
Definition errorIfUnsent (message : string) (r : Res) : Res :=
  if negb (headersSent r) then sendJson 500 message r else r.

(** The listeners of the handler; an event nobody listens to changes
    nothing but what the environment itself does. *)
Definition react (ev : Event) (h : Handler) : Handler :=
  match ev, phase h with
  | ClientGone, _ =>
      {| res := hangUp (res h); tmpFile := tmpFile h; errors := errors h;
         phase := phase h |}
  | ToolWrites size, Transcoding =>
      {| res := res h; tmpFile := Some size; errors := errors h;
         phase := Transcoding |}
  | ProcError message, Transcoding =>
      {| res := errorIfUnsent "Failed to start video processing" (res h);
         tmpFile := tmpFile h;
         errors := errors h ++ [("yt-dlp process error: " ++ message)%string];
         phase := Transcoding |}
  | ProcClose code, Transcoding =>
      if nonZero code then
        {| res := errorIfUnsent
                    ("Video processing failed with code " ++ showCode code)
                    (res h);
           tmpFile := tmpFile h;
           errors := errors h
                     ++ [("yt-dlp process exited with code " ++ showCode code)%string];
           phase := Finished |}
      else
        (* [statSync] and [setHeader] sit in a [try] with an empty [catch] *)
        {| res := match tmpFile h with
                  | Some size =>
                      if negb (size =? 0)%N && negb (headersSent (res h))
                      then setHeader "Content-Length" (res h)
                      else res h
                  | None => res h
                  end;
           tmpFile := tmpFile h; errors := errors h;
           phase := ReadingFile |}
  | ReadChunk, ReadingFile =>
      {| res := pipeWrite (res h); tmpFile := tmpFile h; errors := errors h;
         phase := ReadingFile |}
  | ReadEnd, ReadingFile =>
      {| res := pipeEnd (res h); tmpFile := tmpFile h; errors := errors h;
         phase := ReadingFile |}
  | ReadError message, ReadingFile =>
      {| res := errorIfUnsent "Failed to read processed file" (res h);
         tmpFile := None;                       (* [unlinkSync(outPath)] *)
         errors := errors h ++ [("Error reading output file: " ++ message)%string];
         phase := ReadingFile |}
  | ReadClose, ReadingFile =>
      {| res := res h;
         tmpFile := None;                       (* [unlinkSync(outPath)] *)
         errors := errors h; phase := Finished |}
  | UpChunk, Relaying =>
      {| res := pipeWrite (res h); tmpFile := tmpFile h; errors := errors h;
         phase := Relaying |}
  | UpEnd, Relaying =>
      {| res := pipeEnd (res h); tmpFile := tmpFile h; errors := errors h;
         phase := Finished |}
  | UpError message, Relaying =>
      {| res := res h; tmpFile := tmpFile h;
         errors := errors h ++ [("Error during video streaming: " ++ message)%string];
         phase := Relaying |}
  | _, _ => h
  end.

(** The handler after a sequence of events. *)
Definition after (events : list Event) (h : Handler) : Handler :=
  fold_left (fun h ev => react ev h) events h.

(** The events that report a failure. *)
Definition isFailure (ev : Event) : bool :=
  match ev with
  | ProcError _ | ReadError _ | UpError _ => true
  | ProcClose code => nonZero code
  | _ => false
  end.

(** *** Notions and automation of the properties *)

(** An audio request whose tool run leaves its download at [outPath] and
    then exits with code 1 (the conversion failed). *)
Definition audioRequest : Request :=
  mkRequest "https://www.youtube.com/watch?v=abc" "Audio Only" "mp3" "" "" "".

Definition resolvedLink : Awaited :=
  mkAwaited (Resolved "https://media.example/audio.webm") (Found None)
            (FetchFailed "") (FetchFailed "") true.

Ltac chain_refused :=
  repeat match goal with
         | H : refused ?a = refused _ |- context [refused ?a] => rewrite H
         end;
  reflexivity.

(** [!url || !quality || !format] *)
Definition incomplete (req : Request) : bool :=
  negb (JS.truthy (q_url req)) || negb (JS.truthy (q_quality req))
  || negb (JS.truthy (q_format req)).

(** The response carries an error answer with the given status: it has
    left, it is over, and its body is a non-empty message. *)
Definition answered (code : nat) (r : Res) : Prop :=
  statusCode r = code /\ headersSent r = true /\ ended r = true /\
  exists message, errorBody r = Some message /\ JS.truthy message = true.

(** Nothing was set on the response but headers. *)
Definition pristine (r : Res) : Prop :=
  headersSent r = false /\ statusCode r = 200 /\ errorBody r = None.

(** No error body and status 200, or the error answer 500. *)
Definition sound (r : Res) : Prop :=
  (errorBody r = None /\ statusCode r = 200) \/ answered 500 r.

(** What the phases of a request say about its temporary file, after the
    events [events]. *)
Definition accounted (req : Request) (events : list Event) (h : Handler)
  : Prop :=
  match phase h with
  | Transcoding =>
      transcodes req = true /\
      (headersSent (res h) = false \/ statusCode (res h) = 500)
  | ReadingFile => transcodes req = true
  | Relaying => tmpFile h = None
  | Finished =>
      tmpFile h = None \/
      (transcodes req = true /\ statusCode (res h) = 500 /\
       exists code, In (ProcClose code) events /\ nonZero code = true)
  end.

End Stream.

(** ** The client's copy of the platform table: [lib/utils.ts] *)
Module ClientUtils.

Definition getSupportedPlatforms : list string :=
  [ "youtube.com"; "youtu.be"; "tiktok.com"; "instagram.com";
    "facebook.com"; "twitter.com"; "x.com"; "vimeo.com"; "reddit.com";
    "linkedin.com"; "pinterest.com"; "pin.it"; "dailymotion.com"; "dai.ly" ].

(** [detectPlatformFromUrl]: the client does not throw, it answers
    'Unknown'. *)
Definition detectPlatformFromUrl (url : string) : string :=
  match find (fun platform => JS.includes url platform)
             getSupportedPlatforms with
  | None => "Unknown"
  | Some domain =>
      if negb (JS.truthy domain) then "Unknown"
      else if JS.includes domain "youtube" || JS.includes domain "youtu.be"
      then "YouTube"
      else if JS.includes domain "tiktok" then "TikTok"
      else if JS.includes domain "instagram" then "Instagram"
      else if JS.includes domain "facebook" then "Facebook"
      else if JS.includes domain "twitter" || JS.includes domain "x.com"
      then "Twitter/X"
      else if JS.includes domain "vimeo" then "Vimeo"
      else if JS.includes domain "reddit" then "Reddit"
      else if JS.includes domain "linkedin" then "LinkedIn"
      else if JS.includes domain "pinterest" || JS.includes domain "pin.it"
      then "Pinterest"
      else if JS.includes domain "dailymotion" || JS.includes domain "dai.ly"
      then "Dailymotion"
      else "Unknown"
  end.

End ClientUtils.

(** ** The first version of the service:
       [server/services/video-extractor.ts] *)
Module Legacy.

Definition supportedPlatforms : list string :=
  [ "youtube.com"; "youtu.be"; "tiktok.com"; "instagram.com";
    "facebook.com"; "twitter.com"; "x.com"; "vimeo.com"; "reddit.com";
    "linkedin.com"; "pinterest.com"; "dailymotion.com" ].

Definition nameOfDomain (domain : string) : string :=
  if JS.includes domain "youtube" || JS.includes domain "youtu.be" then "YouTube"
  else if JS.includes domain "tiktok" then "TikTok"
  else if JS.includes domain "instagram" then "Instagram"
  else if JS.includes domain "facebook" then "Facebook"
  else if JS.includes domain "twitter" || JS.includes domain "x.com" then "Twitter/X"
  else if JS.includes domain "vimeo" then "Vimeo"
  else if JS.includes domain "reddit" then "Reddit"
  else if JS.includes domain "linkedin" then "LinkedIn"
  else if JS.includes domain "pinterest" then "Pinterest"
  else if JS.includes domain "dailymotion" then "Dailymotion"
  else "Unknown".

Definition detectPlatform (url : string) : Platform.Thrown string :=
  match find (fun platform => JS.includes url platform) supportedPlatforms with
  | None => Platform.Throws "Unsupported platform"
  | Some domain =>
      if negb (JS.truthy domain) then Platform.Throws "Unsupported platform"
      else Platform.Returns (nameOfDomain domain)
  end.

End Legacy.

(** ** The background probe: [probeQualities] *)
Module Probe.
Import World Quality Extractor.

Section Probing.
Variable penv : ProcessEnv.
Variable rt : Runtime.

Definition probeArgs (url : string) : list string :=
  [ "--dump-json"; "--no-download"; "--no-warnings"; "--ignore-config";
    "--no-check-certificate"; "--geo-bypass"; "--force-ipv4";
    "--socket-timeout"; "20" ] ++
  (if isTikTokUrl url then
     [ "--add-header"; "Origin:https://www.tiktok.com";
       "--add-header"; "Referer:https://www.tiktok.com/" ]
   else []) ++
  (if isInstagramUrl url then
     [ "--add-header"; "Origin:https://www.instagram.com";
       "--add-header"; "Referer:https://www.instagram.com/" ]
   else []) ++
  (if isPinterestUrl url then
     [ "--add-header"; "Origin:https://www.pinterest.com";
       "--add-header"; "Referer:https://www.pinterest.com/" ]
   else []) ++
  [url] ++ ffmpegArgs penv rt.

(** The ['close'] handler: the exit code is not looked at, and whatever
    goes wrong while parsing gives the empty list. *)
Definition onProbeClose (output : string) : list QualityOption :=
  let lines := splitLines (JS.trim output) in
  let line :=
    match find (fun l => JS.includes l "formats") lines with
    | Some l => JS.or_else l ""
    | None => ""
    end in
  let parsed :=
    if JS.truthy line then JSON_parse rt line
    else JSON_parse rt (JS.or_else (hd "" lines) "{}") in
  match parsed with
  | None => []
  | Some data =>
      extractQualities (toFixed1 rt) (unitOf rt) (vd_formats data)
  end.

Definition probeQualities (url : string) : Proc (Settled (list QualityOption)) :=
  Spawn (ytdlpCmd penv) (probeArgs url) (fun r =>
    match r with
    | SpawnFailed _ => Ret (Resolved [])
    | Closed e => Ret (Resolved (onProbeClose (stdout e)))
    | NeverCloses => Ret Pending
    end).

(** The fire-and-forget block of [/api/extract-video-info], up to the list it
    hands to the cache: [None] when it writes nothing. *)
Definition backgroundMerge (url : string) (orig : list QualityOption)
  : Proc (option (list QualityOption)) :=
  Spawn (ytdlpCmd penv) (probeArgs url) (fun r =>
    let probed :=
      match r with
      | SpawnFailed _ => []
      | Closed e => onProbeClose (stdout e)
      | NeverCloses => []        (* the block never gets past its [await] *)
      end in
    match probed with
    | [] => Ret None
    | _ :: _ => Ret (Some (mergeQualities probed orig))
    end).

End Probing.

(** *** Notions the properties are stated with *)

(** A probe that finds one 720p stream, merged into the generic ladder. *)
Definition oneStreamRuntime : Runtime :=
  mkRuntime (fun p => p) (fun _ _ => "")
            (fun _ => Some (mkVideoData "t" "" "" "" "" 0 "" "" "" 0
                              [mkFormat 720 None (Some "mp4") 0 0]))
            (fun _ => "1.0") (fun _ => "MB").

Definition printingFormats : Env :=
  mkEnv (fun _ _ _ => Closed (mkExit (Some 0%Z) "{formats}" ""))
        (fun _ _ _ => FetchThrew).

End Probe.

(** ** The in-memory store: [MemStorage] *)
Module Storage.
Import Quality.

(** [x || null] on an optional string. *)
Definition orNull (x : option string) : option string :=
  match x with
  | Some s => if JS.truthy s then Some s else None
  | None => None
  end.

(** [n || null] on an optional number. *)
Definition orNullN (x : option N) : option N :=
  match x with
  | Some n => if (n =? 0)%N then None else Some n
  | None => None
  end.

Record InsertDownloadHistory : Type := mkInsertHistory {
  ih_url : string;
  ih_platform : string;
  ih_title : string;
  ih_thumbnail : option string;
  ih_duration : option string;
  ih_quality : string;
  ih_format : string;
  ih_fileSize : option string;
  ih_downloadUrl : option string;
  ih_status : option string
}.

(** A history item; [dh_createdAt] is the time of its [Date] in
    milliseconds. *)
Record DownloadHistory : Type := mkHistory {
  dh_id : string;
  dh_url : string;
  dh_platform : string;
  dh_title : string;
  dh_thumbnail : option string;
  dh_duration : option string;
  dh_quality : string;
  dh_format : string;
  dh_fileSize : option string;
  dh_downloadUrl : option string;
  dh_status : string;
  dh_createdAt : Z
}.

Record InsertVideoInfo : Type := mkInsertInfo {
  iv_url : string;
  iv_platform : string;
  iv_title : string;
  iv_description : option string;
  iv_thumbnail : option string;
  iv_duration : option string;
  iv_uploader : option string;
  iv_viewCount : option N;
  iv_availableQualities : list QualityOption
}.

Record VideoInfo : Type := mkVideoInfo {
  vi_id : string;
  vi_url : string;
  vi_platform : string;
  vi_title : string;
  vi_description : option string;
  vi_thumbnail : option string;
  vi_duration : option string;
  vi_uploader : option string;
  vi_viewCount : option N;
  vi_availableQualities : list QualityOption;
  vi_extractedAt : Z
}.

(** The two maps of the store the pipeline uses (the third one, of users,
    is not touched by it). *)
Record Store : Type := mkStore {
  downloadHistory : JsMap.t DownloadHistory;
  videoInfoCache : JsMap.t VideoInfo
}.

Definition emptyStore : Store :=
  {| downloadHistory := []; videoInfoCache := [] |}.

(** [m.delete(k)] *)
Fixpoint mapDelete {V : Type} (k : string) (m : JsMap.t V) : JsMap.t V :=
  match m with
  | [] => []
  | (k', v) :: m' =>
      if k' =? k then mapDelete k m' else (k', v) :: mapDelete k m'
  end.

(** The comparator of [getDownloadHistory]. *)
Definition newestFirst (a b : DownloadHistory) : Z :=
  (dh_createdAt b - dh_createdAt a)%Z.

Definition getDownloadHistory (s : Store) : list DownloadHistory :=
  JsMap.sort newestFirst (JsMap.values (downloadHistory s)).

(** [addDownloadHistory]; [id] is what [randomUUID()] gives and [now] what
    [new Date()] gives. *)
Definition addDownloadHistory (download : InsertDownloadHistory)
           (id : string) (now : Z) (s : Store) : DownloadHistory * Store :=
  let historyItem :=
    {| dh_id := id;
       dh_url := ih_url download;
       dh_platform := ih_platform download;
       dh_title := ih_title download;
       dh_thumbnail := orNull (ih_thumbnail download);
       dh_duration := orNull (ih_duration download);
       dh_quality := ih_quality download;
       dh_format := ih_format download;
       dh_fileSize := orNull (ih_fileSize download);
       dh_downloadUrl := orNull (ih_downloadUrl download);
       dh_status := match orNull (ih_status download) with
                    | Some st => st
                    | None => "pending"
                    end;
       dh_createdAt := now |} in
  (historyItem,
   {| downloadHistory := JsMap.set id historyItem (downloadHistory s);
      videoInfoCache := videoInfoCache s |}).

Definition deleteDownloadHistory (id : string) (s : Store) : Store :=
  {| downloadHistory := mapDelete id (downloadHistory s);
     videoInfoCache := videoInfoCache s |}.

Definition clearDownloadHistory (s : Store) : Store :=
  {| downloadHistory := []; videoInfoCache := videoInfoCache s |}.

(** [getVideoInfo]: the first value of the cache with that URL. *)
Definition getVideoInfo (url : string) (s : Store) : option VideoInfo :=
  find (fun info => vi_url info =? url) (JsMap.values (videoInfoCache s)).

(** [saveVideoInfo]: the cache is keyed by the URL. *)
Definition saveVideoInfo (videoInfo : InsertVideoInfo)
           (id : string) (now : Z) (s : Store) : VideoInfo * Store :=
  let info :=
    {| vi_id := id;
       vi_url := iv_url videoInfo;
       vi_platform := iv_platform videoInfo;
       vi_title := iv_title videoInfo;
       vi_description := orNull (iv_description videoInfo);
       vi_thumbnail := orNull (iv_thumbnail videoInfo);
       vi_duration := orNull (iv_duration videoInfo);
       vi_uploader := orNull (iv_uploader videoInfo);
       vi_viewCount := orNullN (iv_viewCount videoInfo);
       vi_availableQualities := iv_availableQualities videoInfo;
       vi_extractedAt := now |} in
  (info,
   {| downloadHistory := downloadHistory s;
      videoInfoCache := JsMap.set (iv_url videoInfo) info (videoInfoCache s) |}).

(** The calls that change the store, with what the clock and the
    identifier generator gave them. *)
Inductive Call : Type :=
| AddHistory (download : InsertDownloadHistory) (id : string) (now : Z)
| DeleteHistory (id : string)
| ClearHistory
| SaveInfo (videoInfo : InsertVideoInfo) (id : string) (now : Z).

Definition perform (s : Store) (c : Call) : Store :=
  match c with
  | AddHistory download id now => snd (addDownloadHistory download id now s)
  | DeleteHistory id => deleteDownloadHistory id s
  | ClearHistory => clearDownloadHistory s
  | SaveInfo videoInfo id now => snd (saveVideoInfo videoInfo id now s)
  end.

(** The store after a sequence of calls on the empty one. *)
Definition storeAfter (calls : list Call) : Store :=
  fold_left perform calls emptyStore.

(** *** Notions the properties are stated with *)

(** Every map of the store files its values under their own key, each key
    once. *)
Definition keyedBy {V : Type} (key : V -> string) (m : JsMap.t V) : Prop :=
  NoDup (JsMap.keys m) /\ Forall (fun kv => key (snd kv) = fst kv) m.

Definition wfStore (s : Store) : Prop :=
  keyedBy dh_id (downloadHistory s) /\ keyedBy vi_url (videoInfoCache s).

(** [c] saves a record of [url]. *)
Definition savesUrl (url : string) (c : Call) : bool :=
  match c with
  | SaveInfo videoInfo _ _ => iv_url videoInfo =? url
  | _ => false
  end.

End Storage.

(** ** The request layer: [/api/extract-video-info] *)
Module Routes.
Import World Quality Extractor Storage.

(** Sequencing of computations. *)
Fixpoint bind {A B : Type} (p : Proc A) (f : A -> Proc B) : Proc B :=
  match p with
  | Ret a => f a
  | Spawn cmd args k => Spawn cmd args (fun r => bind (k r) f)
  | Fetch url headers k => Fetch url headers (fun r => bind (k r) f)
  end.

Inductive Body : Type :=
| InfoBody (info : VideoInfo)
| ErrorBody (message : string).

(** A reply: the status and the JSON body. *)
Definition Reply : Type := (nat * Body)%type.

Definition insertOf (url : string) (videoInfo : ExtractedVideoInfo)
  : InsertVideoInfo :=
  {| iv_url := url;
     iv_platform := platform videoInfo;
     iv_title := title videoInfo;
     iv_description := Some (description videoInfo);
     iv_thumbnail := Some (thumbnail videoInfo);
     iv_duration := Some (duration videoInfo);
     iv_uploader := Some (uploader videoInfo);
     iv_viewCount := Some (viewCount videoInfo);
     iv_availableQualities := availableQualities videoInfo |}.

Section Handlers.
Variable penv : ProcessEnv.
Variable rt : Runtime.

(** The handler of [/api/extract-video-info] up to its reply.  [parsed] is
    what the validation of the body gives, [id] and [now] what the store
    will use if it saves; [None] stands for a request that gets no reply. *)
Definition extractInfoRoute (parsed : Platform.Thrown string)
           (id : string) (now : Z) (s : Store)
  : Proc (option Reply * Store) :=
  match parsed with
  | Platform.Throws message =>
      Ret (Some (500, ErrorBody
                        (JS.or_else message
                           "Failed to extract video information")), s)
  | Platform.Returns url =>
      match getVideoInfo url s with
      | Some cachedInfo => Ret (Some (200, InfoBody cachedInfo), s)
      | None =>
          bind (extractVideoInfo penv rt url) (fun settled =>
            match settled with
            | Resolved videoInfo =>
                let (savedInfo, s') :=
                  saveVideoInfo (insertOf url videoInfo) id now s in
                Ret (Some (200, InfoBody savedInfo), s')
            | Rejected message =>
                Ret (Some (500, ErrorBody
                                  (JS.or_else message
                                     "Failed to extract video information")),
                     s)
            | Uncaught _ | Pending => Ret (None, s)
            end)
      end
  end.

End Handlers.

(** *** Notions the properties are stated with *)

(** Every request is answered with an oEmbed record; the tool cannot be
    started. *)
Definition answeringOEmbed : Env :=
  mkEnv (fun _ _ _ => SpawnFailed "")
        (fun _ _ _ =>
           Responded (mkResponse true (Some (mkOEmbed "A title" "" "")) None)).

End Routes.

(* ================================================================== *)
(** * Properties *)
(* ================================================================== *)

Section ListFacts.
Context {A : Type}.

Lemma find_first_match (f : A -> bool) (before after : list A) (d : A) :
  f d = true ->
  (forall p, In p before -> f p = false) ->
  find f (before ++ d :: after) = Some d.
Proof.
  intros Hd. induction before as [|x before IH]; simpl; intros Hb.
  - now rewrite Hd.
  - rewrite (Hb x) by now left. apply IH. intros p Hp. apply Hb. now right.
Qed.

Lemma find_none_iff (f : A -> bool) (l : list A) :
  find f l = None <-> forall p, In p l -> f p = false.
Proof.
  split.
  - apply find_none.
  - induction l as [|x l IH]; simpl; intros H; [reflexivity|].
    rewrite (H x) by now left. apply IH. intros p Hp. apply H. now right.
Qed.

Lemma find_some_split (f : A -> bool) (l : list A) (d : A) :
  find f l = Some d ->
  exists before after,
    l = before ++ d :: after /\ f d = true /\
    forall p, In p before -> f p = false.
Proof.
  induction l as [|x l IH]; simpl; [discriminate|].
  destruct (f x) eqn:Hx.
  - intros [= <-]. exists [], l. repeat split; [exact Hx | intros p []].
  - intros Hf. destruct (IH Hf) as (b & a & -> & Hd & Hb).
    exists (x :: b), a. repeat split; [exact Hd|].
    intros p [<- | Hp]; [exact Hx | now apply Hb].
Qed.
End ListFacts.

Module PlatformFacts.
Import Platform.

(** Every supported domain is truthy and the chain of tests names it as the
    table does. *)
Lemma nameOfDomain_supported (d : string) :
  In d supportedPlatforms ->
  JS.truthy d = true /\
  exists p, canonical d = Some p /\ nameOfDomain d = platformName p.
Proof.
  unfold supportedPlatforms. simpl.
  intros H.
  repeat (destruct H as [<- | H];
          [ split; [reflexivity | eexists; split; reflexivity] | ]).
  contradiction.
Qed.

Lemma detectPlatform_found (url d : string) :
  find (JS.includes url) supportedPlatforms = Some d ->
  exists p, canonical d = Some p /\
            detectPlatform url = Returns (platformName p).
Proof.
  intros Hf. unfold detectPlatform.
  change (fun platform => JS.includes url platform) with (JS.includes url).
  rewrite Hf.
  apply find_some in Hf. destruct Hf as [Hin _].
  destruct (nameOfDomain_supported d Hin) as [Ht [p [Hc Hn]]].
  exists p. split; [exact Hc|]. now rewrite Ht, Hn.
Qed.

(** [detectPlatform] over the table of the domains and their names, domain
    by domain. *)
Lemma detectPlatform_table (url : string) :
  detectPlatform url
  = match find (fun e => JS.includes url (fst e))
               [ ("youtube.com", "YouTube"); ("youtu.be", "YouTube");
                 ("tiktok.com", "TikTok"); ("instagram.com", "Instagram");
                 ("facebook.com", "Facebook"); ("twitter.com", "Twitter/X");
                 ("x.com", "Twitter/X"); ("vimeo.com", "Vimeo");
                 ("reddit.com", "Reddit"); ("linkedin.com", "LinkedIn");
                 ("pinterest.com", "Pinterest"); ("pin.it", "Pinterest");
                 ("dailymotion.com", "Dailymotion");
                 ("dai.ly", "Dailymotion") ] with
    | Some e => Returns (snd e)
    | None => Throws "Unsupported platform"
    end.
Proof.
  unfold detectPlatform, supportedPlatforms. cbn [find fst].
  repeat match goal with
         | |- context [JS.includes url ?d] =>
             destruct (JS.includes url d); [reflexivity|]
         end.
  reflexivity.
Qed.

(** C2. For every URL: when some entry of the supported-domain list,
    youtube.com, youtu.be, tiktok.com, instagram.com, facebook.com,
    twitter.com, x.com, vimeo.com, reddit.com, linkedin.com, pinterest.com,
    pin.it, dailymotion.com, dai.ly in this order, is a substring of the
    URL, [detectPlatform] returns the platform name of the first such entry,
    the short links youtu.be, pin.it and dai.ly (and x.com) going with the
    platform of their main domain; when no entry is a substring it throws
    'Unsupported platform'; and one of the two is always the case.  The
    method is a function of the URL alone: it reads and writes no state, so
    equal URLs give equal answers. *)
Theorem detectPlatform_canonical_or_unsupported (url : string) :
  let table :=
    [ ("youtube.com", "YouTube"); ("youtu.be", "YouTube");
      ("tiktok.com", "TikTok"); ("instagram.com", "Instagram");
      ("facebook.com", "Facebook"); ("twitter.com", "Twitter/X");
      ("x.com", "Twitter/X"); ("vimeo.com", "Vimeo");
      ("reddit.com", "Reddit"); ("linkedin.com", "LinkedIn");
      ("pinterest.com", "Pinterest"); ("pin.it", "Pinterest");
      ("dailymotion.com", "Dailymotion"); ("dai.ly", "Dailymotion") ] in
  (forall before domain name after,
      table = before ++ (domain, name) :: after ->
      JS.includes url domain = true ->
      (forall e, In e before -> JS.includes url (fst e) = false) ->
      detectPlatform url = Returns name) /\
  ((forall e, In e table -> JS.includes url (fst e) = false) ->
   detectPlatform url = Throws "Unsupported platform") /\
  ((exists before domain name after,
       table = before ++ (domain, name) :: after /\
       JS.includes url domain = true /\
       forall e, In e before -> JS.includes url (fst e) = false) \/
   (forall e, In e table -> JS.includes url (fst e) = false)).
Proof.
  intros table. pose proof (detectPlatform_table url) as Hd.
  fold table in Hd. split; [|split].
  - intros before domain name after Htable Hin Hbefore.
    rewrite Hd, Htable.
    now rewrite (find_first_match (fun e => JS.includes url (fst e))
                   before after (domain, name) Hin Hbefore).
  - intros Hnone. rewrite Hd.
    now rewrite (proj2 (find_none_iff (fun e => JS.includes url (fst e))
                          table) Hnone).
  - destruct (find (fun e => JS.includes url (fst e)) table)
      as [[domain name]|] eqn:Hf.
    + left. destruct (find_some_split _ _ _ Hf)
        as (before & after & Ht & Hin & Hbefore).
      now exists before, domain, name, after.
    + right. now apply find_none_iff.
Qed.


Lemma platformName_not_Unknown (p : PlatformId) : platformName p <> "Unknown".
Proof. destruct p; discriminate. Qed.

(** C10. For every URL, [detectPlatform] never returns 'Unknown': it throws
    'Unsupported platform' or returns one of the ten platform names; every
    entry of the supported-domain list is caught by one of the tests of the
    chain, so the trailing [return 'Unknown'] is never reached. *)
Theorem detectPlatform_never_Unknown (url : string) :
  detectPlatform url <> Returns "Unknown" /\
  (detectPlatform url = Throws "Unsupported platform" \/
   exists p : PlatformId, detectPlatform url = Returns (platformName p)) /\
  (forall d, In d supportedPlatforms -> nameOfDomain d <> "Unknown").
Proof.
  assert (Hcases :
            detectPlatform url = Throws "Unsupported platform" \/
            exists p : PlatformId, detectPlatform url = Returns (platformName p)).
  { destruct (find (JS.includes url) supportedPlatforms) as [d|] eqn:Hf.
    - right. destruct (detectPlatform_found url d Hf) as [p [_ Hp]].
      now exists p.
    - left. unfold detectPlatform.
      change (fun platform => JS.includes url platform) with (JS.includes url).
      now rewrite Hf. }
  split; [|split; [exact Hcases|]].
  - destruct Hcases as [Ht|[p Hp]].
    + rewrite Ht. discriminate.
    + rewrite Hp. intros [= H]. now apply (platformName_not_Unknown p).
  - intros d Hin.
    destruct (nameOfDomain_supported d Hin) as [_ [p [_ Hn]]].
    rewrite Hn. apply platformName_not_Unknown.
Qed.

Example detectPlatform_samples :
  detectPlatform "https://youtu.be/abc123" = Returns "YouTube" /\
  detectPlatform "https://pin.it/4xYz" = Returns "Pinterest" /\
  detectPlatform "https://dai.ly/x8abc" = Returns "Dailymotion" /\
  detectPlatform "https://vimeo.com/x.com" = Returns "Twitter/X" /\
  detectPlatform "https://example.org/video" = Throws "Unsupported platform".
Proof. repeat split. Qed.
End PlatformFacts.

(** ** Insertion-ordered maps *)
Module JsMapFacts.
Import JsMap.

Section Facts.
Context {V : Type}.
Implicit Types (m d : JsMap.t V) (k : string) (v : V).

Lemma get_notin k m : ~ In k (keys m) -> get k m = None.
Proof.
  induction m as [|[k' v'] m IH]; simpl; intros Hk; [reflexivity|].
  destruct (String.eqb_spec k' k) as [->|_]; [tauto|].
  apply IH. tauto.
Qed.

Lemma get_none_notin k m : get k m = None -> ~ In k (keys m).
Proof.
  induction m as [|[k' v'] m IH]; simpl; [tauto|].
  destruct (String.eqb_spec k' k) as [->|Hne]; [discriminate|].
  intros Hg [Heq|Hin]; [congruence | now apply IH].
Qed.

Lemma get_some_in k v m : get k m = Some v -> In (k, v) m.
Proof.
  induction m as [|[k' v'] m IH]; simpl; [discriminate|].
  destruct (String.eqb_spec k' k) as [->|_].
  - intros [= ->]. now left.
  - intros Hg. right. now apply IH.
Qed.

Lemma in_get k v m : NoDup (keys m) -> In (k, v) m -> get k m = Some v.
Proof.
  induction m as [|[k' v'] m IH]; simpl; [tauto|].
  intros Hnd [Heq|Hin].
  - injection Heq as -> ->. now rewrite String.eqb_refl.
  - inversion Hnd as [|? ? Hk' Hnd']; subst.
    destruct (String.eqb_spec k' k) as [->|_].
    + exfalso. apply Hk'. change k with (fst (k, v)). now apply in_map.
    + now apply IH.
Qed.

Lemma get_app_notin k d m : ~ In k (keys d) -> get k (d ++ m) = get k m.
Proof.
  induction d as [|[k' v'] d IH]; simpl; intros Hk; [reflexivity|].
  destruct (String.eqb_spec k' k) as [->|_]; [tauto|].
  apply IH. tauto.
Qed.

Lemma set_app_notin k v d m :
  ~ In k (keys d) -> set k v (d ++ m) = d ++ set k v m.
Proof.
  induction d as [|[k' v'] d IH]; simpl; intros Hk; [reflexivity|].
  destruct (String.eqb_spec k' k) as [->|_]; [tauto|].
  f_equal. apply IH. tauto.
Qed.

Lemma set_notin k v m : ~ In k (keys m) -> set k v m = m ++ [(k, v)].
Proof.
  intros Hk. rewrite <- (List.app_nil_r m) at 1.
  now rewrite set_app_notin.
Qed.

Lemma set_head k v v' m : set k v ((k, v') :: m) = (k, v) :: m.
Proof. simpl. now rewrite String.eqb_refl. Qed.

Lemma keys_set_in k v m : In k (keys m) -> keys (set k v m) = keys m.
Proof.
  induction m as [|[k' v'] m IH]; simpl; [tauto|].
  destruct (String.eqb_spec k' k) as [->|Hne]; [reflexivity|].
  intros [Heq|Hin]; [congruence|]. simpl. f_equal. now apply IH.
Qed.

Lemma get_some_key k v m : get k m = Some v -> In k (keys m).
Proof.
  intros Hg. apply get_some_in in Hg.
  change k with (fst (k, v)). now apply in_map.
Qed.

Lemma in_set k v k' v' m :
  In (k', v') (set k v m) -> (k' = k /\ v' = v) \/ In (k', v') m.
Proof.
  induction m as [|[k0 v0] m IH]; simpl.
  - intros [[= <- <-]|[]]. now left.
  - destruct (String.eqb_spec k0 k) as [->|Hne]; simpl.
    + intros [[= <- <-]|Hin]; [now left | right; now right].
    + intros [Heq|Hin]; [right; now left|].
      destruct (IH Hin) as [H|H]; [now left | right; now right].
Qed.

Lemma get_set_same k v m : get k (set k v m) = Some v.
Proof.
  induction m as [|[k0 v0] m IH]; simpl.
  - now rewrite String.eqb_refl.
  - destruct (String.eqb_spec k0 k) as [->|Hne]; simpl.
    + now rewrite String.eqb_refl.
    + destruct (String.eqb_spec k0 k); [contradiction | exact IH].
Qed.

Lemma nodup_keys_set k v m : NoDup (keys m) -> NoDup (keys (set k v m)).
Proof.
  intros Hnd. destruct (get k m) as [v0|] eqn:Hg.
  - rewrite keys_set_in; [exact Hnd | now apply get_some_key in Hg].
  - apply get_none_notin in Hg. rewrite set_notin by exact Hg.
    unfold keys. rewrite map_app. simpl.
    apply NoDup_app; [exact Hnd | repeat constructor; intros [] | ].
    intros x Hx [<-|[]]. now apply Hg.
Qed.
End Facts.

Section SortFacts.
Context {A : Type} (cmp : A -> A -> Z).

Lemma insert_perm x l : Permutation (insert cmp x l) (x :: l).
Proof.
  induction l as [|y l IH]; simpl; [reflexivity|].
  destruct (cmp x y <=? 0)%Z; [reflexivity|].
  rewrite IH. apply perm_swap.
Qed.

Lemma sort_perm l : Permutation (sort cmp l) l.
Proof.
  induction l as [|x l IH]; simpl; [reflexivity|].
  rewrite insert_perm. now constructor.
Qed.

(** An element the comparator puts after every other one ends up last. *)
Lemma insert_last x l :
  (forall y, In y l -> (0 < cmp x y)%Z) -> insert cmp x l = l ++ [x].
Proof.
  induction l as [|y l IH]; simpl; intros H; [reflexivity|].
  destruct (Z.leb_spec (cmp x y) 0) as [Hle|_].
  - specialize (H y (or_introl eq_refl)). lia.
  - f_equal. apply IH. intros z Hz. apply H. now right.
Qed.
End SortFacts.
End JsMapFacts.

(** ** Labels of the quality ladder *)
Module LabelFacts.
Import Quality.

Lemma append_last_neq (s t : string) (c d : ascii) :
  c <> d -> (s ++ String c "" <> t ++ String d "")%string.
Proof.
  intros Hcd. revert t.
  induction s as [|a s IH]; intros [|b t]; simpl; intros H.
  - injection H as H. contradiction.
  - injection H as _ H. destruct t; discriminate.
  - injection H as _ H. destruct s; discriminate.
  - injection H as _ H. now apply (IH t).
Qed.

Lemma label_not_audio_key (h : N) : qualityLabel h <> "audio".
Proof.
  unfold qualityLabel.
  repeat (match goal with |- context [if ?b then _ else _] => destruct b end;
          [discriminate|]).
  change "audio" with ("audi" ++ "o")%string.
  apply append_last_neq. discriminate.
Qed.

Lemma label_not_audio_only (h : N) : qualityLabel h <> "Audio Only".
Proof.
  unfold qualityLabel.
  repeat (match goal with |- context [if ?b then _ else _] => destruct b end;
          [discriminate|]).
  change "Audio Only" with ("Audio Onl" ++ "y")%string.
  apply append_last_neq. discriminate.
Qed.

Lemma digits_of_uint (u : Decimal.uint) :
  digitsOnly (NilEmpty.string_of_uint u ++ "p")%string = NilEmpty.string_of_uint u.
Proof.
  induction u; simpl; try (rewrite IHu); reflexivity.
Qed.

Lemma parseInt_label (h : N) :
  parseIntOr0 (digitsOnly (qualityLabel h)) = labelResolution h.
Proof.
  unfold qualityLabel, labelResolution.
  repeat (match goal with |- context [N.leb ?a ?b] => destruct (N.leb a b) end;
          [reflexivity|]).
  unfold decimal, parseIntOr0.
  rewrite digits_of_uint, NilEmpty.usu.
  apply DecimalN.Unsigned.of_to.
Qed.

Lemma labelResolution_inj (h1 h2 : N) :
  labelResolution h1 = labelResolution h2 -> qualityLabel h1 = qualityLabel h2.
Proof.
  unfold labelResolution, qualityLabel.
  repeat (match goal with
          | |- context [N.leb ?a ?b] => destruct (N.leb_spec a b)
          end); intros Heq; try reflexivity; try lia.
  now subst.
Qed.

Lemma has_space_neq_Unknown (a b : string) :
  (a ++ " " ++ b)%string <> "Unknown".
Proof.
  intros H.
  assert (Hs : JS.includes (a ++ " " ++ b)%string " " = true).
  { clear H. induction a as [|c a IH].
    - destruct b; reflexivity.
    - change (JS.includes (String c a ++ " " ++ b)%string " ")
        with (JS.startsWith (String c a ++ " " ++ b)%string " " ||
              JS.includes (a ++ " " ++ b)%string " ").
      rewrite IH. apply orb_true_r. }
  rewrite H in Hs. discriminate.
Qed.
End LabelFacts.

(** ** The map [extractQualities] builds *)
Module LadderFacts.
Import JsMap JsMapFacts Quality LabelFacts.

Lemma videoOption_not_audio (q : QualityOption) :
  videoOption q -> quality q <> "Audio Only".
Proof. intros [h ->]. apply label_not_audio_only. Qed.

Lemma keys_values (vs : JsMap.t QualityOption) :
  Forall videoEntry vs -> map quality (values vs) = keys vs.
Proof.
  induction 1 as [|[k v] vs [Hq _] _ IH]; simpl; [reflexivity|].
  simpl in Hq. now rewrite Hq, IH.
Qed.

Lemma values_videoOption (vs : JsMap.t QualityOption) :
  Forall videoEntry vs -> Forall videoOption (values vs).
Proof.
  induction 1 as [|[k v] vs [Hq [h Hh]] _ IH]; simpl; constructor; auto.
  exists h. simpl in *. congruence.
Qed.

Lemma wfVideo_set (vs : JsMap.t QualityOption) (h : N) (o : QualityOption) :
  wfVideo vs -> quality o = qualityLabel h ->
  wfVideo (set (qualityLabel h) o vs).
Proof.
  intros [Hnd Hall] Ho. split; [now apply nodup_keys_set|].
  apply Forall_forall. intros [k v] Hin.
  apply in_set in Hin. destruct Hin as [[-> ->]|Hin].
  - split; [exact Ho | now exists h].
  - rewrite Forall_forall in Hall. now apply Hall.
Qed.

Lemma compare_audio_last (y : QualityOption) :
  (0 < compareQualities audioOnly y)%Z.
Proof. reflexivity. Qed.

Section Ladder.
Variables toFixed1 unitOf : N -> string.
Local Abbreviation videoMap := (Quality.videoMap toFixed1 unitOf).
Local Abbreviation videoLadder := (Quality.videoLadder toFixed1 unitOf).

Lemma addFormat_cons_audio a vs f :
  addFormat toFixed1 unitOf (("audio", a) :: vs) f
  = ("audio", a) :: addFormat toFixed1 unitOf vs f.
Proof.
  unfold addFormat. destruct (skipped f); [reflexivity|].
  assert (Hne : ("audio" =? qualityLabel (height f)) = false).
  { apply String.eqb_neq. intros E. symmetry in E.
    now apply label_not_audio_key in E. }
  cbn [get set]. rewrite Hne.
  destruct (get (qualityLabel (height f)) vs) as [e|];
    [destruct (prefer toFixed1 unitOf e f)|]; reflexivity.
Qed.

Lemma fold_addFormat_audio fs a vs :
  fold_left (addFormat toFixed1 unitOf) fs (("audio", a) :: vs)
  = ("audio", a) :: fold_left (addFormat toFixed1 unitOf) fs vs.
Proof.
  revert vs. induction fs as [|f fs IH]; intros vs; simpl; [reflexivity|].
  now rewrite addFormat_cons_audio, IH.
Qed.

Lemma qualityMapOf_shape fs :
  qualityMapOf toFixed1 unitOf fs = ("audio", audioOnly) :: videoMap fs.
Proof. apply fold_addFormat_audio. Qed.

Lemma optionOf_label f :
  quality (optionOf toFixed1 unitOf f) = qualityLabel (height f).
Proof. reflexivity. Qed.

Lemma wfVideo_addFormat vs f :
  wfVideo vs -> wfVideo (addFormat toFixed1 unitOf vs f).
Proof.
  intros Hwf. unfold addFormat. destruct (skipped f); [exact Hwf|].
  destruct (get (qualityLabel (height f)) vs) as [e|];
    [destruct (prefer toFixed1 unitOf e f); [|exact Hwf]|];
    now apply wfVideo_set.
Qed.

Lemma wfVideo_fold fs vs :
  wfVideo vs -> wfVideo (fold_left (addFormat toFixed1 unitOf) fs vs).
Proof.
  revert vs. induction fs as [|f fs IH]; intros vs Hwf; simpl; [exact Hwf|].
  apply IH. now apply wfVideo_addFormat.
Qed.

Lemma wfVideo_videoMap fs : wfVideo (videoMap fs).
Proof. apply wfVideo_fold. split; constructor. Qed.

Lemma videoMap_snoc fs f :
  videoMap (fs ++ [f]) = addFormat toFixed1 unitOf (videoMap fs) f.
Proof. unfold videoMap. now rewrite fold_left_app. Qed.

(** The sorted array is the video entries followed by the audio one. *)
Lemma extractQualities_shape fs :
  extractQualities toFixed1 unitOf fs = videoLadder fs ++ [audioOnly].
Proof.
  unfold extractQualities. rewrite qualityMapOf_shape.
  cbn [values map snd sort fold_right].
  apply insert_last. intros y _. apply compare_audio_last.
Qed.

Lemma videoLadder_perm fs :
  Permutation (videoLadder fs) (values (videoMap fs)).
Proof. apply sort_perm. Qed.

Lemma videoLadder_videoOption fs : Forall videoOption (videoLadder fs).
Proof.
  apply Forall_forall. intros q Hq.
  apply (Permutation_in _ (videoLadder_perm fs)) in Hq.
  pose proof (values_videoOption _ (proj2 (wfVideo_videoMap fs))) as H.
  rewrite Forall_forall in H. now apply H.
Qed.

Lemma videoLadder_nodup fs : NoDup (map quality (videoLadder fs)).
Proof.
  destruct (wfVideo_videoMap fs) as [Hnd Hall].
  apply (Permutation_NoDup (l := map quality (values (videoMap fs)))).
  - apply Permutation_map. symmetry. apply videoLadder_perm.
  - now rewrite keys_values.
Qed.

Lemma extractQualities_nodup fs :
  NoDup (map quality (extractQualities toFixed1 unitOf fs)).
Proof.
  rewrite extractQualities_shape, map_app.
  apply NoDup_app; [apply videoLadder_nodup | repeat constructor; intros [] |].
  intros x Hx [<-|[]].
  apply in_map_iff in Hx. destruct Hx as [q [Hq Hin]].
  pose proof (videoLadder_videoOption fs) as H.
  rewrite Forall_forall in H.
  now apply (videoOption_not_audio q (H q Hin)).
Qed.
End Ladder.
End LadderFacts.

(** ** The order of the ladder *)
Module OrderFacts.
Import JsMap JsMapFacts Quality LabelFacts LadderFacts.

Lemma compare_video (a b : QualityOption) :
  quality a <> "Audio Only" -> quality b <> "Audio Only" ->
  compareQualities a b
  = (Z.of_N (resolutionOf b) - Z.of_N (resolutionOf a))%Z.
Proof.
  intros Ha Hb. unfold compareQualities.
  apply String.eqb_neq in Ha, Hb. now rewrite Ha, Hb.
Qed.

Lemma insert_hdrel (x y : QualityOption) (l : list QualityOption) :
  notBelow y x -> HdRel notBelow y l ->
  HdRel notBelow y (insert compareQualities x l).
Proof.
  intros Hyx Hl. destruct l as [|z l]; simpl.
  - now constructor.
  - destruct (compareQualities x z <=? 0)%Z.
    + now constructor.
    + inversion Hl; subst. now constructor.
Qed.

Lemma insert_sorted (x : QualityOption) (l : list QualityOption) :
  quality x <> "Audio Only" ->
  Forall (fun q => quality q <> "Audio Only") l ->
  Sorted notBelow l ->
  Sorted notBelow (insert compareQualities x l).
Proof.
  intros Hx Hall Hs. induction l as [|y l IH]; simpl.
  - repeat constructor.
  - inversion Hall as [|? ? Hy Hall']; subst.
    inversion Hs as [|? ? Hs' Hhd]; subst.
    rewrite (compare_video x y Hx Hy).
    destruct (Z.leb_spec (Z.of_N (resolutionOf y) - Z.of_N (resolutionOf x)) 0)
      as [Hle|Hgt].
    + constructor; [exact Hs|]. constructor. unfold notBelow. lia.
    + constructor; [now apply IH|].
      apply insert_hdrel; [unfold notBelow; lia | exact Hhd].
Qed.

Lemma sort_sorted (l : list QualityOption) :
  Forall (fun q => quality q <> "Audio Only") l ->
  Sorted notBelow (sort compareQualities l).
Proof.
  induction 1 as [|x l Hx Hall IH]; simpl; [constructor|].
  apply insert_sorted; [exact Hx | | exact IH].
  apply Forall_forall. intros q Hq.
  apply (Permutation_in _ (sort_perm compareQualities l)) in Hq.
  rewrite Forall_forall in Hall. now apply Hall.
Qed.

Lemma notBelow_strongly (l : list QualityOption) :
  Sorted notBelow l -> StronglySorted notBelow l.
Proof.
  apply Sorted_StronglySorted. intros a b c. unfold notBelow. lia.
Qed.

Lemma resolution_of_video (q : QualityOption) (h : N) :
  quality q = qualityLabel h -> resolutionOf q = labelResolution h.
Proof. unfold resolutionOf. intros ->. apply parseInt_label. Qed.

(** Two video options of equal resolution bear the same label. *)
Lemma resolution_inj (a b : QualityOption) :
  videoOption a -> videoOption b ->
  resolutionOf a = resolutionOf b -> quality a = quality b.
Proof.
  intros [ha Ha] [hb Hb] Hr.
  rewrite (resolution_of_video a ha Ha), (resolution_of_video b hb Hb) in Hr.
  rewrite Ha, Hb. now apply labelResolution_inj.
Qed.

Lemma strict_of_nodup (l : list QualityOption) :
  Forall videoOption l -> NoDup (map quality l) ->
  StronglySorted notBelow l -> StronglySorted above l.
Proof.
  induction l as [|a l IH]; intros Hv Hnd Hs; [constructor|].
  inversion Hv as [|? ? Ha Hv']; subst.
  inversion Hnd as [|? ? Hnotin Hnd']; subst.
  inversion Hs as [|? ? Hs' Hall]; subst.
  constructor; [now apply IH|].
  rewrite Forall_forall in *. intros b Hb.
  specialize (Hall b Hb). unfold notBelow in Hall. unfold above.
  destruct (N.eq_dec (resolutionOf b) (resolutionOf a)) as [Heq|Hne]; [|lia].
  exfalso. apply Hnotin.
  rewrite <- (resolution_inj b a (Hv' b Hb) Ha Heq).
  now apply in_map.
Qed.

Section Order.
Variables toFixed1 unitOf : N -> string.

Lemma videoLadder_descending (fs : list StreamFormat) :
  StronglySorted above (videoLadder toFixed1 unitOf fs).
Proof.
  apply strict_of_nodup.
  - apply videoLadder_videoOption.
  - apply videoLadder_nodup.
  - apply notBelow_strongly, sort_sorted.
    pose proof (values_videoOption _
                  (proj2 (wfVideo_videoMap toFixed1 unitOf fs))) as H.
    eapply Forall_impl; [|exact H].
    intros q. apply videoOption_not_audio.
Qed.

(** C7. For every list of declared stream formats, the list
    [extractQualities] returns ends with the 'Audio Only' option, no other
    entry is an audio one, and the other entries stand in strictly
    descending order of the number read off their labels (every entry has a
    higher resolution than all the entries after it). *)
Theorem extractQualities_descending_audio_last (formats : list StreamFormat) :
  exists videos,
    extractQualities toFixed1 unitOf formats = videos ++ [audioOnly] /\
    Forall (fun q => quality q <> "Audio Only") videos /\
    StronglySorted above videos.
Proof.
  exists (videoLadder toFixed1 unitOf formats).
  split; [apply extractQualities_shape|]. split.
  - eapply Forall_impl; [|apply videoLadder_videoOption].
    intros q. apply videoOption_not_audio.
  - apply videoLadder_descending.
Qed.
End Order.

(** The labels of the ladder in their order: 4K, 2K, 1080p HD, 720p HD,
    then the plain heights. *)
Example ladder_order :
  map quality
    (extractQualities (fun _ => "1.0") (fun _ => "MB")
       [ mkFormat 480 (Some "vp9") None 0 5;
         mkFormat 1080 (Some "avc1") (Some "webm") 0 0;
         mkFormat 720 None (Some "mp4") 0 0;
         mkFormat 144 (Some "none") (Some "webm") 7 5;
         mkFormat 1440 (Some "av01") (Some "mp4") 100 0;
         mkFormat 2160 None (Some "webm") 7 5 ])
  = [ "4K (2160p)"; "2K (1440p)"; "1080p HD"; "720p HD"; "480p";
      "Audio Only" ].
Proof. reflexivity. Qed.
End OrderFacts.

(** ** The merge of the background probe *)
Module MergeFacts.
Import JsMap JsMapFacts Quality.

Lemma falsy_empty (s : string) : JS.truthy s = false -> s = "".
Proof.
  unfold JS.truthy. intros H. apply negb_false_iff in H.
  now apply String.eqb_eq.
Qed.

Lemma overlayOnto_quality (c q : QualityOption) :
  quality (overlayOnto c q) = quality c.
Proof.
  unfold overlayOnto.
  destruct (sizeUnknown (fileSize c)); simpl;
    match goal with |- context [if ?b then _ else _] => destruct b end;
    reflexivity.
Qed.

Lemma refines_refl (p : QualityOption) : refines p p.
Proof. repeat split. Qed.

Lemma refines_overlay (p v q : QualityOption) :
  refines p v -> refines p (overlayOnto v q).
Proof.
  intros (Hq & Hs & Hf). split; [now rewrite overlayOnto_quality|].
  unfold overlayOnto. split.
  - intros Hk. specialize (Hs Hk).
    assert (Hv : sizeUnknown (fileSize v) = false) by now rewrite Hs.
    rewrite Hv.
    destruct (negb (JS.truthy (format v)) && JS.truthy (format q));
      exact Hs.
  - intros Ht. specialize (Hf Ht).
    assert (Hv : JS.truthy (format v) = true) by now rewrite Hf.
    destruct (sizeUnknown (fileSize v)); simpl; rewrite Hv; simpl; exact Hf.
Qed.

(** Laying the merged entry over the probed one gives the merged entry. *)
Lemma overlayOnto_fixed (p v : QualityOption) :
  refines p v -> overlayOnto p v = v.
Proof.
  destruct p as [pq pf ps], v as [vq vf vs].
  unfold refines, overlayOnto. simpl. intros (Hq & Hs & Hf). subst vq.
  destruct (sizeUnknown ps) eqn:Hu; simpl.
  - destruct (JS.truthy pf) eqn:Ht; simpl.
    + now rewrite (Hf eq_refl).
    + destruct (JS.truthy vf) eqn:Hv; [reflexivity|].
      apply falsy_empty in Ht, Hv. now subst.
  - rewrite (Hs eq_refl).
    destruct (JS.truthy pf) eqn:Ht; simpl.
    + now rewrite (Hf eq_refl).
    + destruct (JS.truthy vf) eqn:Hv; [reflexivity|].
      apply falsy_empty in Ht, Hv. now subst.
Qed.

Lemma wfMap_set (m : JsMap.t QualityOption) (x : QualityOption) :
  wfMap m -> wfMap (set (quality x) x m).
Proof.
  intros [Hnd Hall]. split; [now apply nodup_keys_set|].
  apply Forall_forall. intros [k v] Hin.
  apply in_set in Hin. destruct Hin as [[-> ->]|Hin]; [reflexivity|].
  rewrite Forall_forall in Hall. now apply Hall.
Qed.

Lemma wfMap_overlay (m : JsMap.t QualityOption) (q : QualityOption) :
  wfMap m -> wfMap (overlay m q).
Proof.
  intros Hwf. unfold overlay.
  destruct (get (quality q) m) as [c|] eqn:Hg; [|now apply wfMap_set].
  assert (Hc : quality c = quality q).
  { apply get_some_in in Hg. destruct Hwf as [_ Hall].
    rewrite Forall_forall in Hall. exact (Hall _ Hg). }
  rewrite <- (overlayOnto_quality c q) in Hc.
  rewrite <- Hc. now apply wfMap_set.
Qed.

Lemma wfMap_fold_overlay (qs : list QualityOption) (m : JsMap.t QualityOption) :
  wfMap m -> wfMap (fold_left overlay qs m).
Proof.
  revert m. induction qs as [|q qs IH]; intros m Hwf; simpl; [exact Hwf|].
  apply IH. now apply wfMap_overlay.
Qed.

Lemma wfMap_probedMap (probed : list QualityOption) : wfMap (probedMap probed).
Proof.
  unfold probedMap.
  assert (H : forall m, wfMap m ->
            wfMap (fold_left (fun m p => set (quality p) p m) probed m)).
  { induction probed as [|p ps IH]; intros m Hwf; simpl; [exact Hwf|].
    apply IH. now apply wfMap_set. }
  apply H. split; constructor.
Qed.

Lemma overlay_cons_ne k1 v1 (m : JsMap.t QualityOption) (q : QualityOption) :
  k1 <> quality q ->
  overlay ((k1, v1) :: m) q = (k1, v1) :: overlay m q.
Proof.
  intros Hne. apply String.eqb_neq in Hne.
  unfold overlay. cbn [get]. rewrite Hne.
  destruct (get (quality q) m); cbn [set]; now rewrite Hne.
Qed.

(** The overlay changes the probed part of the map only by refining its
    entries; everything else it adds behind. *)
Lemma overlay_covers (m0 m0' rest : JsMap.t QualityOption) (q : QualityOption) :
  Forall2 entryRefines m0 m0' ->
  exists m0'' rest',
    overlay (m0' ++ rest) q = m0'' ++ rest' /\ Forall2 entryRefines m0 m0''.
Proof.
  induction 1 as [|[k p] [k' v] m0 m0' [Hk Hr] HF IH].
  - exists [], (overlay rest q). split; [reflexivity | constructor].
  - simpl in Hk, Hr. subst k'.
    destruct (String.eqb_spec k (quality q)) as [Heq|Hne].
    + exists ((k, overlayOnto v q) :: m0'), rest. split.
      * subst k. rewrite <- List.app_comm_cons.
        unfold overlay. cbn [get]. rewrite String.eqb_refl.
        now rewrite set_head.
      * constructor; [|exact HF]. split; [reflexivity|].
        now apply refines_overlay.
    + destruct IH as (m0'' & rest' & Ho & HF').
      exists ((k, v) :: m0''), rest'. split.
      * rewrite <- !List.app_comm_cons.
        rewrite overlay_cons_ne by exact Hne. now rewrite Ho.
      * constructor; [|exact HF']. now split.
Qed.

Lemma fold_overlay_covers (qs : list QualityOption)
      (m0 m0' rest : JsMap.t QualityOption) :
  Forall2 entryRefines m0 m0' ->
  exists m0'' rest',
    fold_left overlay qs (m0' ++ rest) = m0'' ++ rest' /\
    Forall2 entryRefines m0 m0''.
Proof.
  revert m0' rest. induction qs as [|q qs IH]; intros m0' rest HF; simpl.
  - now exists m0', rest.
  - destruct (overlay_covers m0 m0' rest q HF) as (m1 & rest1 & -> & HF1).
    now apply IH.
Qed.

Lemma entryRefines_refl (m : JsMap.t QualityOption) : Forall2 entryRefines m m.
Proof.
  induction m as [|a m IH]; constructor; [|exact IH].
  split; [reflexivity | apply refines_refl].
Qed.

Lemma wfMap_notin_prefix (d : JsMap.t QualityOption) k v rest :
  wfMap (d ++ (k, v) :: rest) -> ~ In k (keys d) /\ quality v = k.
Proof.
  intros [Hnd Hall]. split.
  - unfold keys in *. rewrite map_app in Hnd. simpl in Hnd.
    apply NoDup_remove_2 in Hnd. intros Hin. apply Hnd.
    apply in_or_app. now left.
  - rewrite Forall_forall in Hall.
    apply (Hall (k, v)). apply in_or_app. right. now left.
Qed.

Lemma overlay_new (d : JsMap.t QualityOption) (q : QualityOption) :
  ~ In (quality q) (keys d) -> overlay d q = d ++ [(quality q, q)].
Proof.
  intros Hk. unfold overlay. now rewrite (get_notin _ d Hk), set_notin.
Qed.

Lemma overlay_hit (d x : JsMap.t QualityOption) (p q : QualityOption) :
  ~ In (quality q) (keys d) ->
  overlay (d ++ (quality q, p) :: x) q
  = d ++ (quality q, overlayOnto p q) :: x.
Proof.
  intros Hk. unfold overlay.
  rewrite (get_app_notin _ d _ Hk). cbn [get].
  rewrite String.eqb_refl, (set_app_notin _ _ d _ Hk).
  now rewrite set_head.
Qed.

(** Replaying entries that are new to the map appends them. *)
Lemma replay_new (rest d : JsMap.t QualityOption) :
  wfMap (d ++ rest) -> fold_left overlay (values rest) d = d ++ rest.
Proof.
  revert d. induction rest as [|[k v] rest IH]; intros d Hwf.
  - cbn. now rewrite List.app_nil_r.
  - destruct (wfMap_notin_prefix d k v rest Hwf) as [Hk Hq].
    cbn [values map snd fold_left]. fold (values rest).
    rewrite <- Hq in Hk. rewrite (overlay_new d v Hk), Hq.
    rewrite IH; rewrite <- List.app_assoc; [reflexivity | exact Hwf].
Qed.

(** Replaying the merged entries over the probed map rebuilds the merged
    map. *)
Lemma replay_merged (x x' : JsMap.t QualityOption) :
  Forall2 entryRefines x x' ->
  forall d rest,
    wfMap (d ++ x' ++ rest) ->
    fold_left overlay (values (x' ++ rest)) (d ++ x) = d ++ x' ++ rest.
Proof.
  induction 1 as [|[k p] [k' v] x x' [Hk Hr] HF IH]; intros d rest Hwf.
  - cbn [app]. rewrite List.app_nil_r. now apply replay_new.
  - simpl in Hk, Hr. subst k'. rewrite <- List.app_comm_cons in *.
    destruct (wfMap_notin_prefix d k v (x' ++ rest) Hwf) as [Hnotin Hq].
    cbn [values map snd fold_left]. fold (values (x' ++ rest)).
    subst k. rewrite (overlay_hit d x p v Hnotin).
    rewrite (overlayOnto_fixed p v Hr).
    change (d ++ (quality v, v) :: x) with (d ++ [(quality v, v)] ++ x).
    rewrite List.app_assoc. rewrite IH.
    + now rewrite <- List.app_assoc.
    + now rewrite <- List.app_assoc.
Qed.

Lemma mergeQualities_idempotent (probed orig : list QualityOption) :
  mergeQualities probed (mergeQualities probed orig)
  = mergeQualities probed orig.
Proof.
  unfold mergeQualities.
  destruct (fold_overlay_covers orig (probedMap probed) (probedMap probed) []
              (entryRefines_refl _)) as (m1 & rest & Hm & HF).
  rewrite List.app_nil_r in Hm.
  assert (Hwf : wfMap (m1 ++ rest)).
  { rewrite <- Hm. apply wfMap_fold_overlay, wfMap_probedMap. }
  rewrite Hm. f_equal.
  apply (replay_merged _ _ HF [] rest Hwf).
Qed.

Lemma enrich_idempotent (probed cached : list QualityOption) :
  enrich probed (enrich probed cached) = enrich probed cached.
Proof.
  destruct probed as [|p ps]; [reflexivity|].
  apply mergeQualities_idempotent.
Qed.
End MergeFacts.

(** ** One option per label *)
Module QualityFacts.
Import JsMap JsMapFacts Quality LabelFacts LadderFacts MergeFacts.

Lemma nodup_map_inj {A B : Type} (g : A -> B) (l : list A) (a b : A) :
  NoDup (map g l) -> In a l -> In b l -> g a = g b -> a = b.
Proof.
  induction l as [|x l IH]; simpl; [tauto|].
  intros Hnd Ha Hb Hg. inversion Hnd as [|? ? Hx Hnd']; subst.
  destruct Ha as [<-|Ha], Hb as [<-|Hb]; try reflexivity.
  - exfalso. apply Hx. rewrite Hg. now apply in_map.
  - exfalso. apply Hx. rewrite <- Hg. now apply in_map.
  - now apply IH.
Qed.

Lemma keys_set_iff {V : Type} (k k' : string) (v : V) (m : JsMap.t V) :
  In k' (keys (set k v m)) <-> k' = k \/ In k' (keys m).
Proof.
  induction m as [|[k0 v0] m IH]; simpl.
  - split; [intros [<-|[]]; now left | intros [->|[]]; now left].
  - destruct (String.eqb_spec k0 k) as [->|Hne]; simpl.
    + split; [tauto | intros [->|H]; [now left | exact H]].
    + rewrite IH. tauto.
Qed.

Section Unique.
Variables toFixed1 unitOf : N -> string.

Lemma keys_addFormat_mono (vs : JsMap.t QualityOption) (f : StreamFormat)
      (k : string) :
  In k (keys vs) -> In k (keys (addFormat toFixed1 unitOf vs f)).
Proof.
  intros Hk. unfold addFormat. destruct (skipped f); [exact Hk|].
  destruct (get (qualityLabel (height f)) vs) as [existing|].
  - destruct (prefer toFixed1 unitOf existing f); [|exact Hk].
    apply keys_set_iff. now right.
  - apply keys_set_iff. now right.
Qed.

Lemma keys_addFormat_own (vs : JsMap.t QualityOption) (f : StreamFormat) :
  skipped f = false ->
  In (qualityLabel (height f)) (keys (addFormat toFixed1 unitOf vs f)).
Proof.
  intros Hs. unfold addFormat. rewrite Hs.
  destruct (get (qualityLabel (height f)) vs) as [existing|] eqn:Hg.
  - destruct (prefer toFixed1 unitOf existing f).
    + apply keys_set_iff. now left.
    + now apply (get_some_key _ existing).
  - apply keys_set_iff. now left.
Qed.

Lemma videoMap_sound (fs : list StreamFormat) (k : string)
      (e : QualityOption) :
  In (k, e) (videoMap toFixed1 unitOf fs) ->
  exists f, In f fs /\ skipped f = false /\ e = optionOf toFixed1 unitOf f.
Proof.
  revert k e. induction fs as [|x fs IH] using rev_ind; intros k e;
    [intros []|].
  assert (Hold : In (k, e) (videoMap toFixed1 unitOf fs) ->
                 exists f, In f (fs ++ [x]) /\ skipped f = false /\
                           e = optionOf toFixed1 unitOf f).
  { intros H. destruct (IH k e H) as [f [Hin Hf]].
    exists f. split; [apply in_or_app; now left | exact Hf]. }
  assert (Hnew : skipped x = false ->
                 In (k, e) (set (qualityLabel (height x))
                                (optionOf toFixed1 unitOf x)
                                (videoMap toFixed1 unitOf fs)) ->
                 exists f, In f (fs ++ [x]) /\ skipped f = false /\
                           e = optionOf toFixed1 unitOf f).
  { intros Hs H. apply in_set in H. destruct H as [[_ ->]|H]; [|now apply Hold].
    exists x. split; [apply in_or_app; right; now left | now split]. }
  rewrite videoMap_snoc. unfold addFormat.
  destruct (skipped x) eqn:Hs; [exact Hold|].
  destruct (get (qualityLabel (height x)) (videoMap toFixed1 unitOf fs))
    as [existing|].
  - destruct (prefer toFixed1 unitOf existing x);
      [now apply Hnew | exact Hold].
  - now apply Hnew.
Qed.

Lemma videoMap_complete (fs : list StreamFormat) (f : StreamFormat) :
  In f fs -> skipped f = false ->
  In (qualityLabel (height f)) (keys (videoMap toFixed1 unitOf fs)).
Proof.
  induction fs as [|x fs IH] using rev_ind; intros Hin Hs; [now elim Hin|].
  rewrite videoMap_snoc. apply in_app_or in Hin.
  destruct Hin as [Hin|[->|[]]].
  - apply keys_addFormat_mono. now apply IH.
  - now apply keys_addFormat_own.
Qed.

(** A size is known exactly when the format declares one. *)
Lemma sizeOf_known (f : StreamFormat) :
  sizeOf toFixed1 unitOf f <> "Unknown" <->
  (filesize f <> 0 \/ filesize_approx f <> 0)%N.
Proof.
  unfold sizeOf, formatFileSize.
  destruct (N.eqb_spec (filesize f) 0) as [E1|N1]; simpl.
  - destruct (N.eqb_spec (filesize_approx f) 0) as [E2|N2]; simpl.
    + split; [congruence | tauto].
    + split; [tauto | intros _; apply has_space_neq_Unknown].
  - split; [tauto | intros _; apply has_space_neq_Unknown].
Qed.

Lemma in_ladder_get (fs : list StreamFormat) (e : QualityOption) :
  In e (extractQualities toFixed1 unitOf fs) ->
  quality e <> "Audio Only" ->
  get (quality e) (videoMap toFixed1 unitOf fs) = Some e.
Proof.
  intros Hin Hq. rewrite extractQualities_shape in Hin.
  apply in_app_or in Hin. destruct Hin as [Hin|[<-|[]]]; [|now elim Hq].
  apply (Permutation_in _ (videoLadder_perm toFixed1 unitOf fs)) in Hin.
  apply in_map_iff in Hin. destruct Hin as [[k e'] [He Hin]].
  simpl in He. subst e'.
  destruct (wfVideo_videoMap toFixed1 unitOf fs) as [Hnd Hall].
  rewrite Forall_forall in Hall. destruct (Hall _ Hin) as [Hk _].
  simpl in Hk. rewrite Hk. now apply in_get.
Qed.

Lemma in_videoMap_ladder (fs : list StreamFormat) k (e : QualityOption) :
  In (k, e) (videoMap toFixed1 unitOf fs) ->
  In e (extractQualities toFixed1 unitOf fs).
Proof.
  intros Hin. rewrite extractQualities_shape. apply in_or_app. left.
  apply (Permutation_in _
           (Permutation_sym (videoLadder_perm toFixed1 unitOf fs))).
  change e with (snd (k, e)). now apply in_map.
Qed.

(** A format the loop prefers takes the place of the entry of its label. *)
Lemma preferred_replaces (fs : list StreamFormat) (f : StreamFormat)
      (e : QualityOption) :
  skipped f = false ->
  In e (extractQualities toFixed1 unitOf fs) ->
  quality e = qualityLabel (height f) ->
  prefer toFixed1 unitOf e f = true ->
  In (optionOf toFixed1 unitOf f)
     (extractQualities toFixed1 unitOf (fs ++ [f])) /\
  forall e', In e' (extractQualities toFixed1 unitOf (fs ++ [f])) ->
             quality e' = quality e -> e' = optionOf toFixed1 unitOf f.
Proof.
  intros Hs Hin Hq Hp.
  assert (Hget : get (qualityLabel (height f)) (videoMap toFixed1 unitOf fs)
                 = Some e).
  { rewrite <- Hq. apply in_ladder_get; [exact Hin|].
    rewrite Hq. apply label_not_audio_only. }
  assert (Hnew : In (optionOf toFixed1 unitOf f)
                    (extractQualities toFixed1 unitOf (fs ++ [f]))).
  { apply (in_videoMap_ladder _ (qualityLabel (height f))).
    rewrite videoMap_snoc. unfold addFormat. rewrite Hs, Hget, Hp.
    apply get_some_in, get_set_same. }
  split; [exact Hnew|].
  intros e' He' Hq'.
  apply (nodup_map_inj quality _ _ _
           (extractQualities_nodup toFixed1 unitOf (fs ++ [f])) He' Hnew).
  now rewrite Hq', Hq.
Qed.

(** Every declared format with a height and a video stream finds the entry
    of its label in the ladder. *)
Lemma ladder_has_label (fs : list StreamFormat) (g : StreamFormat) :
  In g fs -> skipped g = false ->
  exists e, In e (extractQualities toFixed1 unitOf fs) /\
            quality e = qualityLabel (height g).
Proof.
  intros Hin Hs.
  pose proof (videoMap_complete fs g Hin Hs) as Hk.
  apply in_map_iff in Hk. destruct Hk as [[k e] [Hk Hke]].
  simpl in Hk. subst k. exists e.
  split; [exact (in_videoMap_ladder fs _ e Hke)|].
  destruct (wfVideo_videoMap toFixed1 unitOf fs) as [_ Hall].
  rewrite Forall_forall in Hall. now destruct (Hall _ Hke) as [Hq _].
Qed.

(** A format the loop does not prefer leaves the ladder as it is. *)
Lemma unpreferred_keeps (fs : list StreamFormat) (f : StreamFormat)
      (e : QualityOption) :
  skipped f = false ->
  In e (extractQualities toFixed1 unitOf fs) ->
  quality e = qualityLabel (height f) ->
  prefer toFixed1 unitOf e f = false ->
  extractQualities toFixed1 unitOf (fs ++ [f])
  = extractQualities toFixed1 unitOf fs.
Proof.
  intros Hs Hin Hq Hp.
  assert (Hget : get (qualityLabel (height f)) (videoMap toFixed1 unitOf fs)
                 = Some e).
  { rewrite <- Hq. apply in_ladder_get; [exact Hin|].
    rewrite Hq. apply label_not_audio_only. }
  rewrite !extractQualities_shape. unfold videoLadder.
  rewrite videoMap_snoc. unfold addFormat. now rewrite Hs, Hget, Hp.
Qed.

(** A format whose label no declared format has yet is added. *)
Lemma new_label_is_listed (fs : list StreamFormat) (f : StreamFormat) :
  skipped f = false ->
  (forall g, In g fs -> skipped g = false ->
             qualityLabel (height g) <> qualityLabel (height f)) ->
  In (optionOf toFixed1 unitOf f)
     (extractQualities toFixed1 unitOf (fs ++ [f])).
Proof.
  intros Hs Hnew.
  apply (in_videoMap_ladder _ (qualityLabel (height f))).
  rewrite videoMap_snoc. unfold addFormat. rewrite Hs.
  destruct (get (qualityLabel (height f)) (videoMap toFixed1 unitOf fs))
    as [existing|] eqn:Hg; [|apply get_some_in, get_set_same].
  exfalso. apply get_some_in in Hg.
  destruct (videoMap_sound fs _ _ Hg) as [g [Hin [Hsg He]]].
  apply (Hnew g Hin Hsg).
  destruct (wfVideo_videoMap toFixed1 unitOf fs) as [_ Hall].
  rewrite Forall_forall in Hall. destruct (Hall _ Hg) as [Hq _].
  simpl in Hq. rewrite <- Hq, He. reflexivity.
Qed.

(** C6. For every list of declared stream formats: (1) [extractQualities]
    yields at most one option per quality label.  (2) Every declared format
    with a height and a video stream has the entry of its label in the
    ladder; and when a further format [f] maps to the label of such a
    format, the entry [e] of that label is replaced by the option of [f] if
    the size of [e] is 'Unknown' and that of [f] is known, and also if [f]
    is an mp4 and [e] is not; in every other case [e] stays and the ladder
    is as it was.  A further format with a label no declared format has is
    added with its own option.  (3) The merge of a probe result into the
    cached list is idempotent: merging the same probe result a second time
    leaves the list as the first merge made it. *)
Theorem one_option_per_label_and_idempotent_merge (formats : list StreamFormat) :
  NoDup (map quality (extractQualities toFixed1 unitOf formats)) /\
  (forall f g,
      In g formats -> skipped g = false -> skipped f = false ->
      qualityLabel (height g) = qualityLabel (height f) ->
      exists e,
        In e (extractQualities toFixed1 unitOf formats) /\
        quality e = qualityLabel (height f) /\
        ((fileSize e = "Unknown" /\ sizeOf toFixed1 unitOf f <> "Unknown") \/
         (extOf f = "mp4" /\ format e <> "mp4") ->
         In (optionOf toFixed1 unitOf f)
            (extractQualities toFixed1 unitOf (formats ++ [f])) /\
         ~ In e (extractQualities toFixed1 unitOf (formats ++ [f]))) /\
        (~ ((fileSize e = "Unknown" /\
             sizeOf toFixed1 unitOf f <> "Unknown") \/
            (extOf f = "mp4" /\ format e <> "mp4")) ->
         extractQualities toFixed1 unitOf (formats ++ [f])
         = extractQualities toFixed1 unitOf formats)) /\
  (forall f e,
      skipped f = false ->
      In e (extractQualities toFixed1 unitOf formats) ->
      quality e = qualityLabel (height f) ->
      (fileSize e = "Unknown" /\ sizeOf toFixed1 unitOf f <> "Unknown") \/
      (extOf f = "mp4" /\ format e <> "mp4") ->
      In (optionOf toFixed1 unitOf f)
         (extractQualities toFixed1 unitOf (formats ++ [f])) /\
      ~ In e (extractQualities toFixed1 unitOf (formats ++ [f]))) /\
  (forall f,
      skipped f = false ->
      (forall g, In g formats -> skipped g = false ->
                 qualityLabel (height g) <> qualityLabel (height f)) ->
      In (optionOf toFixed1 unitOf f)
         (extractQualities toFixed1 unitOf (formats ++ [f]))) /\
  (forall cached,
      let probed := extractQualities toFixed1 unitOf formats in
      enrich probed (enrich probed cached) = enrich probed cached).
Proof.
  assert (Hreplace : forall f e,
             skipped f = false ->
             In e (extractQualities toFixed1 unitOf formats) ->
             quality e = qualityLabel (height f) ->
             (fileSize e = "Unknown" /\
              sizeOf toFixed1 unitOf f <> "Unknown") \/
             (extOf f = "mp4" /\ format e <> "mp4") ->
             In (optionOf toFixed1 unitOf f)
                (extractQualities toFixed1 unitOf (formats ++ [f])) /\
             ~ In e (extractQualities toFixed1 unitOf (formats ++ [f]))).
  { intros f e Hs Hin Hq Hwhy.
    assert (Hp : prefer toFixed1 unitOf e f = true).
    { unfold prefer. destruct Hwhy as [[Hu Hk]|[Hm Hn]].
      - apply String.eqb_eq in Hu. apply String.eqb_neq in Hk.
        now rewrite Hu, Hk.
      - apply String.eqb_eq in Hm. apply String.eqb_neq in Hn.
        rewrite Hm, Hn. apply orb_true_r. }
    destruct (preferred_replaces formats f e Hs Hin Hq Hp) as [Hnew Huniq].
    split; [exact Hnew|].
    intros Hold. specialize (Huniq e Hold eq_refl).
    destruct Hwhy as [[Hu Hk]|[Hm Hn]]; subst e.
    + now apply Hk.
    + now apply Hn. }
  split; [apply extractQualities_nodup|]. split; [|split; [|split]].
  - intros f g Hin Hsg Hs Hlabel.
    destruct (ladder_has_label formats g Hin Hsg) as [e [He Hq]].
    rewrite Hlabel in Hq. exists e.
    split; [exact He|]. split; [exact Hq|]. split.
    + now apply Hreplace.
    + intros Hnot. apply (unpreferred_keeps formats f e Hs He Hq).
      unfold prefer.
      destruct (String.eqb_spec (fileSize e) "Unknown") as [Hu|Hu];
        destruct (String.eqb_spec (sizeOf toFixed1 unitOf f) "Unknown")
          as [Hk|Hk];
        destruct (String.eqb_spec (extOf f) "mp4") as [Hm|Hm];
        destruct (String.eqb_spec (format e) "mp4") as [Hn|Hn];
        try reflexivity; exfalso; apply Hnot; tauto.
  - exact Hreplace.
  - intros f Hs Hnew. now apply new_label_is_listed.
  - intros cached probed. apply enrich_idempotent.
Qed.
End Unique.

(** A known size takes the place of 'Unknown', an mp4 that of a webm. *)
Example known_size_and_mp4_replace :
  extractQualities (fun _ => "1.0") (fun _ => "MB")
    [ mkFormat 1080 (Some "vp9") (Some "webm") 0 0;
      mkFormat 1080 (Some "vp9") (Some "webm") 100 0;
      mkFormat 1080 (Some "avc1") (Some "mp4") 0 0 ]
  = [ {| quality := "1080p HD"; format := "mp4"; fileSize := "Unknown" |};
      audioOnly ].
Proof. reflexivity. Qed.
End QualityFacts.

(** ** The tiers of [extractVideoInfo] *)
Module ExtractFacts.
Import World Quality Extractor.

Section Tiers.
Variable penv : ProcessEnv.
Variable rt : Runtime.
Local Abbreviation settlesByClose := (Extractor.settlesByClose rt).


Lemma toolTier_settles platformName url :
  settlesByClose platformName url (toolTier penv rt platformName url).
Proof.
  intros n env out trace. unfold toolTier. cbn [runFrom].
  destruct (onSpawn env n (ytdlpCmd penv) (dumpArgs penv rt url)) as [m|e0|];
    cbn [runFrom]; intros [= <- <-] args e; cbn [spawns In].
  - intros [H|[]]. discriminate.
  - intros [H|[]]. now injection H as _ ->.
  - intros [H|[]]. discriminate.
Qed.

Lemma oembedTier_settles platformName url endpoint headers mk next :
  settlesByClose platformName url next ->
  settlesByClose platformName url (oembedTier endpoint headers mk next).
Proof.
  intros Hnext n env out trace. unfold oembedTier. cbn [runFrom].
  destruct (onFetch env n endpoint headers) as [|resp|].
  - destruct (runFrom (S n) env next) as [a t] eqn:Hr.
    intros [= <- <-] args e. cbn [spawns]. now apply (Hnext _ _ _ _ Hr).
  - destruct (ok resp); [destruct (json resp)|].
    + cbn [runFrom]. intros [= <- <-] args e. cbn [spawns]. intros [].
    + destruct (runFrom (S n) env next) as [a t] eqn:Hr.
      intros [= <- <-] args e. cbn [spawns]. now apply (Hnext _ _ _ _ Hr).
    + destruct (runFrom (S n) env next) as [a t] eqn:Hr.
      intros [= <- <-] args e. cbn [spawns]. now apply (Hnext _ _ _ _ Hr).
  - cbn [runFrom]. intros [= <- <-] args e. cbn [spawns]. intros [].
Qed.

Lemma scrapeTier_settles platformName url next :
  settlesByClose platformName url next ->
  settlesByClose platformName url (scrapeTier rt platformName url next).
Proof.
  intros Hnext n env out trace. unfold scrapeTier. cbn [runFrom].
  destruct (onFetch env n url (scrapeHeaders platformName)) as [|resp|].
  - destruct (runFrom (S n) env next) as [a t] eqn:Hr.
    intros [= <- <-] args e. cbn [spawns]. now apply (Hnext _ _ _ _ Hr).
  - destruct (ok resp); [destruct (text resp)|].
    + cbn [runFrom]. intros [= <- <-] args e. cbn [spawns]. intros [].
    + destruct (runFrom (S n) env next) as [a t] eqn:Hr.
      intros [= <- <-] args e. cbn [spawns]. now apply (Hnext _ _ _ _ Hr).
    + destruct (runFrom (S n) env next) as [a t] eqn:Hr.
      intros [= <- <-] args e. cbn [spawns]. now apply (Hnext _ _ _ _ Hr).
  - cbn [runFrom]. intros [= <- <-] args e. cbn [spawns]. intros [].
Qed.

Lemma extractVideoInfo_settles url platformName :
  Platform.detectPlatform url = Platform.Returns platformName ->
  settlesByClose platformName url (extractVideoInfo penv rt url).
Proof.
  intros Hp. unfold extractVideoInfo. rewrite Hp.
  repeat match goal with
         | |- settlesByClose _ _ (if ?b then _ else _) => destruct b
         | |- settlesByClose _ _ (oembedTier _ _ _ _) =>
             apply oembedTier_settles
         | |- settlesByClose _ _ (scrapeTier _ _ _ _) =>
             apply scrapeTier_settles
         | |- settlesByClose _ _ (toolTier _ _ _ _) => apply toolTier_settles
         end.
Qed.
End Tiers.


End ExtractFacts.

(** ** The classified fallback of [extractVideoInfo] *)
Module FallbackFacts.
Import World Quality Extractor ExtractFacts.

(** On a TikTok URL a diagnostic that says 'not available', a keyword the
    document does not list, is answered with demo content, not with a
    rejection. *)
Lemma not_available_is_answered_with_demo : ~ claimedFallbackPolicy.
Proof.
  intros H.
  pose (url := "https://www.tiktok.com/@user/video/1").
  pose (err := "ERROR: [TikTok] 7123456789: Video not available").
  specialize (H noEnvironment plainRuntime (failingWith err) url
                (Resolved (cookieDemo "TikTok" url))
                (snd (run (failingWith err)
                          (extractVideoInfo noEnvironment plainRuntime url)))
                (dumpArgs noEnvironment plainRuntime url)
                (mkExit (Some 1%Z) "" err)).
  assert (Hrun : run (failingWith err)
                     (extractVideoInfo noEnvironment plainRuntime url)
                 = (Resolved (cookieDemo "TikTok" url),
                    snd (run (failingWith err)
                           (extractVideoInfo noEnvironment plainRuntime url))))
    by (vm_compute; reflexivity).
  specialize (H Hrun).
  assert (Hin : In (dumpArgs noEnvironment plainRuntime url,
                    Closed (mkExit (Some 1%Z) "" err))
                   (spawns (snd (run (failingWith err)
                      (extractVideoInfo noEnvironment plainRuntime url)))))
    by (vm_compute; left; reflexivity).
  specialize (H Hin eq_refl).
  vm_compute in H. destruct H as [message H]. discriminate.
Qed.

Section Fallback.
Variable penv : ProcessEnv.
Variable rt : Runtime.

(** C5, as the code has it.  For every call to [extractVideoInfo] whose
    tool invocation exits non-zero: (1) when stderr contains 'Sign in to
    confirm' or 'ERROR: [youtube]' the promise resolves with the demo
    metadata 'Sample Video (Demo Mode)' of 'Demo Channel', with the sized
    ladder of seven entries; (2) otherwise, when the URL contains
    tiktok.com, instagram.com, pinterest.com or pin.it and stderr contains
    'HTTP Error 403' or 'HTTP Error 401' or, in any letter case, one of
    login, forbidden, private, unavailable, not available, blocked, it
    resolves with the record '<name> Sample (Demo Mode)' of '<name> Creator',
    [name] being TikTok, Instagram or Pinterest by the URL, with the generic
    ladder of four entries; (3) in every other case it rejects with 'Video
    extraction failed: ' followed by stderr.  In (1) and (2) the platform of
    the record is the detected one. *)
Theorem classified_fallback_on_tool_failure
        (env : Env) (url : string)
        (out : Settled ExtractedVideoInfo) (trace : list Event)
        (args : list string) (e : Exit) :
  run env (extractVideoInfo penv rt url) = (out, trace) ->
  In (args, Closed e) (spawns trace) ->
  exitedZero e = false ->
  exists platformName,
    Platform.detectPlatform url = Platform.Returns platformName /\
    (authSignature (stderr e) = true ->
     out = Resolved
             {| title := "Sample Video (Demo Mode)";
                description := "This is a demo video since YouTube requires authentication. In production, proper authentication would be needed.";
                thumbnail := "https://images.unsplash.com/photo-1611162617474-5b21e879e113?ixlib=rb-4.0.3&auto=format&fit=crop&w=800&h=450";
                duration := "3:45";
                uploader := "Demo Channel";
                viewCount := 123456;
                platform := platformName;
                availableQualities :=
                  [ mkOption "4K (2160p)" "mp4" "245 MB";
                    mkOption "2K (1440p)" "mp4" "156 MB";
                    mkOption "1080p HD" "mp4" "89 MB";
                    mkOption "720p HD" "mp4" "45 MB";
                    mkOption "480p" "mp4" "28 MB";
                    mkOption "360p" "mp4" "18 MB";
                    mkOption "Audio Only" "mp3" "4.2 MB" ] |}) /\
    (authSignature (stderr e) = false ->
     cookiePlatformUrl url = true -> blockedSignature (stderr e) = true ->
     let name := if JS.includes url "tiktok.com" then "TikTok"
                 else if JS.includes url "instagram.com" then "Instagram"
                 else "Pinterest" in
     out = Resolved
             {| title := name ++ " Sample (Demo Mode)";
                description := name ++ " content may require login/cookies or be private. Configure COOKIES_BROWSER environment variable for better extraction.";
                thumbnail := "https://images.unsplash.com/photo-1524255684952-d7185b509571?q=80&w=1200&auto=format&fit=crop";
                duration := "00:30";
                uploader := name ++ " Creator";
                viewCount := 98765;
                platform := platformName;
                availableQualities :=
                  [ mkOption "1080p HD" "mp4" "Unknown";
                    mkOption "720p HD" "mp4" "Unknown";
                    mkOption "480p" "mp4" "Unknown";
                    mkOption "Audio Only" "mp3" "Variable" ] |}) /\
    (authSignature (stderr e) = false ->
     cookiePlatformUrl url && blockedSignature (stderr e) = false ->
     out = Rejected ("Video extraction failed: "
                     ++ JS.or_else (stderr e) "Unknown error")).
Proof.
  intros Hrun Hin Hnz.
  destruct (Platform.detectPlatform url) as [platformName|message] eqn:Hp.
  - exists platformName. split; [reflexivity|].
    pose proof (extractVideoInfo_settles penv rt url platformName Hp
                  0 env out trace Hrun args e Hin) as Hout.
    unfold onDumpClose in Hout. rewrite Hnz in Hout. cbn [negb] in Hout.
    repeat split.
    + intros Ha. now rewrite Ha in Hout.
    + intros Ha Hc Hb. now rewrite Ha, Hc, Hb in Hout.
    + intros Ha Hcb. now rewrite Ha, Hcb in Hout.
  - unfold run, extractVideoInfo in Hrun. rewrite Hp in Hrun.
    cbn [runFrom] in Hrun. injection Hrun as <- <-. destruct Hin.
Qed.
End Fallback.

(** A blocked Instagram post. *)
Lemma classified_fallback_witness :
  exists info,
    fst (run (failingWith "HTTP Error 403: Forbidden")
             (extractVideoInfo noEnvironment plainRuntime
                "https://www.instagram.com/p/abc/"))
    = Resolved info /\
    title info = "Instagram Sample (Demo Mode)" /\
    uploader info = "Instagram Creator" /\
    map quality (availableQualities info)
    = [ "1080p HD"; "720p HD"; "480p"; "Audio Only" ].
Proof.
  pose (url := "https://www.instagram.com/p/abc/").
  pose (err := "HTTP Error 403: Forbidden").
  pose (r := run (failingWith err)
                 (extractVideoInfo noEnvironment plainRuntime url)).
  assert (Hrun : run (failingWith err)
                     (extractVideoInfo noEnvironment plainRuntime url)
                 = (fst r, snd r)) by (vm_compute; reflexivity).
  assert (Hin : In (dumpArgs noEnvironment plainRuntime url,
                    Closed (mkExit (Some 1%Z) "" err)) (spawns (snd r)))
    by (vm_compute; left; reflexivity).
  destruct (classified_fallback_on_tool_failure
              noEnvironment plainRuntime (failingWith err) url
              (fst r) (snd r) _ _ Hrun Hin eq_refl)
    as (platformName & _ & _ & Hblocked & _).
  specialize (Hblocked eq_refl eq_refl eq_refl).
  eexists. split; [exact Hblocked|]. repeat split.
Defined.
End FallbackFacts.

(** ** The retry ladder of [generateDownloadLink] *)
Module LinkFacts.
Import World Extractor.

(** A Pinterest URL whose metadata the tool cannot parse, and whose
    fallback fails as well, is answered with the sample URL. *)
Lemma pinterest_failure_resolves_sample : ~ claimedLinkFailurePolicy.
Proof.
  intros H.
  pose (url := "https://www.pinterest.com/pin/1/").
  pose (err := "ERROR: Failed to parse JSON").
  pose (r := run (alwaysFailing err)
                 (generateDownloadLink noEnvironment
                    plainRuntime url "720p HD" "mp4")).
  specialize (H noEnvironment plainRuntime
                (alwaysFailing err) url "720p HD" "mp4" (fst r) (snd r)
                (linkArgs noEnvironment
                          plainRuntime url "720p HD" "mp4")
                (mkExit (Some 1%Z) "" err)).
  assert (Hrun : run (alwaysFailing err)
                   (generateDownloadLink noEnvironment
                      plainRuntime url "720p HD" "mp4")
                 = (fst r, snd r)) by (vm_compute; reflexivity).
  specialize (H Hrun).
  assert (Hhd : hd_error (spawns (snd r))
                = Some (linkArgs noEnvironment
                          plainRuntime url "720p HD" "mp4",
                        Closed (mkExit (Some 1%Z) "" err)))
    by (vm_compute; reflexivity).
  specialize (H Hhd).
  assert (Hall : Forall (fun ar => exists e, snd ar = Closed e /\
                                             exitedZero e = false)
                        (spawns (snd r))).
  { vm_compute. repeat constructor; eexists; split; reflexivity. }
  specialize (H Hall).
  vm_compute in H. destruct H as [message H]. discriminate.
Qed.

Section Ladder.
Variable penv : ProcessEnv.
Variable rt : Runtime.

(** The runs of [generateDownloadLink], branch by branch. *)
Lemma generateDownloadLink_run (env : Env) (url quality format : string) :
  run env (generateDownloadLink penv rt url quality format)
  = let first := linkArgs penv rt url quality format in
    let r1 := onSpawn env 0 (ytdlpCmd penv) first in
    match r1 with
    | SpawnFailed message =>
        (Rejected ("yt-dlp execution failed: " ++ message),
         [Spawned (ytdlpCmd penv) first r1])
    | Closed e =>
        if negb (exitedZero e) then
          if isPinterestUrl url && jsonParseSignature (stderr e) then
            let r2 := onSpawn env 1 (ytdlpCmd penv) (fallbackArgs url) in
            (onFallbackClose r2,
             [Spawned (ytdlpCmd penv) first r1;
              Spawned (ytdlpCmd penv) (fallbackArgs url) r2])
          else if formatUnavailableSignature (stderr e) then
            let r2 := onSpawn env 1 (ytdlpCmd penv) (retryArgs penv rt url) in
            (onRetryClose url (stderr e) r2,
             [Spawned (ytdlpCmd penv) first r1;
              Spawned (ytdlpCmd penv) (retryArgs penv rt url) r2])
          else
            (if isTikTokUrl url || isInstagramUrl url
             then Resolved sampleMediaUrl
             else if authSignature (stderr e) then Resolved sampleMediaUrl
             else Rejected ("Download link generation failed: " ++ stderr e),
             [Spawned (ytdlpCmd penv) first r1])
        else
          (if negb (JS.truthy (JS.firstLine (JS.trim (stdout e))))
           then Rejected "No download URL returned from yt-dlp"
           else Resolved (JS.firstLine (JS.trim (stdout e))),
           [Spawned (ytdlpCmd penv) first r1])
    | NeverCloses => (Pending, [Spawned (ytdlpCmd penv) first r1])
    end.
Proof.
  unfold run, generateDownloadLink. cbn [runFrom].
  destruct (onSpawn env 0 (ytdlpCmd penv) (linkArgs penv rt url quality format))
    as [message|e|]; [reflexivity| |reflexivity].
  repeat match goal with
         | |- context [if ?b then _ else _] => destruct b
         end; reflexivity.
Qed.

Lemma fallback_has_no_format_selector (url sel : string) :
  hasSelector sel (fallbackArgs url) = false.
Proof. reflexivity. Qed.

Lemma hasSelector_found (sel : string) (before after : list string) :
  hasSelector sel (before ++ "--format" :: sel :: after) = true.
Proof.
  induction before as [|a before IH].
  - change ([] ++ "--format" :: sel :: after)
      with ("--format" :: sel :: after).
    simpl. now rewrite String.eqb_refl.
  - rewrite <- List.app_comm_cons.
    destruct (before ++ "--format" :: sel :: after) as [|b rest] eqn:Hl;
      [now destruct before|].
    simpl. simpl in IH. rewrite IH. apply orb_true_r.
Qed.


(** C4, as the code has it.  For every call to [generateDownloadLink] in
    which every invocation of the tool exits non-zero, with [errorOutput]
    the stderr of the first: (1) for a Pinterest URL (pinterest.com or
    pin.it) with 'Failed to parse JSON' or 'JSONDecodeError' in
    [errorOutput], the promise resolves with the sample media URL;
    (2) otherwise, with 'Requested format is not available' in
    [errorOutput], the retry is the second and last invocation and the
    promise resolves with the sample media URL for a TikTok or Instagram
    URL and rejects with 'Download link generation failed after retry: '
    followed by the stderr of the retry (that of the first invocation when
    empty) for any other; (3) otherwise there is no further invocation and
    the promise resolves with the sample media URL when the URL is a TikTok
    or Instagram one or [errorOutput] contains 'Sign in to confirm' or
    'ERROR: [youtube]', and rejects with 'Download link generation failed: '
    followed by [errorOutput] in every other case. *)
Theorem link_failure_policy
        (env : Env) (url quality format : string)
        (out : Settled string) (trace : list Event)
        (args1 : list string) (e1 : Exit) :
  run env (generateDownloadLink penv rt url quality format) = (out, trace) ->
  hd_error (spawns trace) = Some (args1, Closed e1) ->
  Forall (fun ar => exists e, snd ar = Closed e /\ exitedZero e = false)
         (spawns trace) ->
  (isPinterestUrl url && jsonParseSignature (stderr e1) = true ->
     out = Resolved sampleMediaUrl) /\
  (isPinterestUrl url && jsonParseSignature (stderr e1) = false ->
   formatUnavailableSignature (stderr e1) = true ->
     exists e2,
       spawns trace = [(args1, Closed e1); (retryArgs penv rt url, Closed e2)] /\
       out = if isTikTokUrl url || isInstagramUrl url
             then Resolved sampleMediaUrl
             else Rejected ("Download link generation failed after retry: "
                            ++ JS.or_else (stderr e2) (stderr e1))) /\
  (isPinterestUrl url && jsonParseSignature (stderr e1) = false ->
   formatUnavailableSignature (stderr e1) = false ->
     spawns trace = [(args1, Closed e1)] /\
     out = if isTikTokUrl url || isInstagramUrl url || authSignature (stderr e1)
           then Resolved sampleMediaUrl
           else Rejected ("Download link generation failed: " ++ stderr e1)).
Proof.
  intros Hrun Hhd Hall.
  rewrite generateDownloadLink_run in Hrun. cbv zeta in Hrun.
  destruct (onSpawn env 0 (ytdlpCmd penv) (linkArgs penv rt url quality format))
    as [message|e|];
    [injection Hrun as <- <-; discriminate Hhd | |
     injection Hrun as <- <-; discriminate Hhd].
  assert (He : exitedZero e = false /\ e = e1 /\
               args1 = linkArgs penv rt url quality format).
  { destruct (negb (exitedZero e)) eqn:Hn;
      repeat match type of Hrun with
             | context [if ?b then _ else _] => destruct b
             end;
      injection Hrun as <- <-; cbn [spawns hd_error] in Hhd;
      injection Hhd as <- <-;
      inversion Hall as [|? ? [e0 [H0 Hz]] _]; subst;
      cbn [snd] in H0; injection H0 as <-; auto. }
  destruct He as (Hz & -> & ->). rewrite Hz in Hrun. cbn [negb] in Hrun.
  destruct (isPinterestUrl url && jsonParseSignature (stderr e1)) eqn:Hpj.
  - injection Hrun as <- <-. repeat split; try discriminate.
    intros _. cbn [spawns] in Hall.
    inversion Hall as [|? ? _ Hall']; subst.
    inversion Hall' as [|? ? [e2 [H2 Hz2]] _]; subst.
    cbn [snd] in H2. rewrite H2. unfold onFallbackClose. now rewrite Hz2.
  - destruct (formatUnavailableSignature (stderr e1)) eqn:Hf.
    + injection Hrun as <- <-. repeat split; try discriminate.
      intros _ _. cbn [spawns] in Hall |- *.
      inversion Hall as [|? ? _ Hall']; subst.
      inversion Hall' as [|? ? [e2 [H2 Hz2]] _]; subst.
      cbn [snd] in H2. rewrite H2. exists e2. split; [reflexivity|].
      unfold onRetryClose. now rewrite Hz2.
    + injection Hrun as <- <-. repeat split; try discriminate.
      destruct (isTikTokUrl url || isInstagramUrl url); reflexivity.
Qed.
End Ladder.



Lemma link_failure_policy_witness :
  fst (run (alwaysFailing "ERROR: Sign in to confirm your age")
           (generateDownloadLink noEnvironment
              plainRuntime
              "https://vimeo.com/123" "720p HD" "mp4"))
  = Resolved sampleMediaUrl.
Proof.
  pose (r := run (alwaysFailing "ERROR: Sign in to confirm your age")
                 (generateDownloadLink noEnvironment
                    plainRuntime
                    "https://vimeo.com/123" "720p HD" "mp4")).
  assert (Hrun : run (alwaysFailing "ERROR: Sign in to confirm your age")
                     (generateDownloadLink noEnvironment
                        plainRuntime
                        "https://vimeo.com/123" "720p HD" "mp4")
                 = (fst r, snd r)) by (vm_compute; reflexivity).
  assert (Hall : Forall (fun ar => exists e, snd ar = Closed e /\
                                             exitedZero e = false)
                        (spawns (snd r))).
  { vm_compute. repeat constructor; eexists; split; reflexivity. }
  exact (proj2 (proj2 (proj2 (link_failure_policy
           noEnvironment plainRuntime
           _ _ _ _ (fst r) (snd r)
           (linkArgs noEnvironment plainRuntime
                     "https://vimeo.com/123" "720p HD" "mp4")
           (mkExit (Some 1%Z) "" "ERROR: Sign in to confirm your age")
           Hrun eq_refl Hall)) eq_refl eq_refl)).
Defined.
End LinkFacts.

(** ** The error guards and the temporary file of the streaming handler *)
Module StreamFacts.
Import Stream.

Lemma setHeader_unsent (name : string) (r : Res) :
  headersSent r = false ->
  headersSent (setHeader name r) = false /\
  refused (setHeader name r) = refused r /\
  statusCode (setHeader name r) = statusCode r /\
  errorBody (setHeader name r) = errorBody r.
Proof. intros H. unfold setHeader. now rewrite H. Qed.

Lemma setHeaders_unsent (names : list string) (r : Res) :
  headersSent r = false ->
  headersSent (setHeaders names r) = false /\
  refused (setHeaders names r) = refused r.
Proof.
  revert r. induction names as [|n names IH]; intros r H; [now split|].
  cbn [setHeaders fold_left].
  destruct (setHeader_unsent n r H) as (H1 & H2 & _).
  destruct (IH _ H1) as [H3 H4]. unfold setHeaders in *.
  split; [exact H3 | congruence].
Qed.

Lemma sendJson_unsent (code : nat) (message : string) (r : Res) :
  headersSent r = false -> refused (sendJson code message r) = refused r.
Proof. intros H. unfold sendJson. now rewrite H. Qed.

Lemma errorIfUnsent_refused (message : string) (r : Res) :
  refused (errorIfUnsent message r) = refused r.
Proof.
  unfold errorIfUnsent. destruct (headersSent r) eqn:H; [reflexivity|].
  now apply sendJson_unsent.
Qed.

Lemma errorIfUnsent_sent (message : string) (r : Res) :
  headersSent r = true -> errorIfUnsent message r = r.
Proof. intros H. unfold errorIfUnsent. now rewrite H. Qed.

Lemma caught_refused (message : string) (h : Handler) :
  refused (res (caught message h)) = refused (res h).
Proof.
  unfold caught. cbn [res]. destruct (headersSent (res h)) eqn:H;
    [reflexivity|]. now apply sendJson_unsent.
Qed.

Lemma optional_header_unsent (b : bool) (name : string) (r : Res) :
  headersSent r = false ->
  headersSent (if b then setHeader name r else r) = false /\
  refused (if b then setHeader name r else r) = refused r.
Proof.
  intros H. destruct b; [|now split].
  destruct (setHeader_unsent name r H) as (H1 & H2 & _). now split.
Qed.

(** The body of the handler never writes to a response that has left. *)
Lemma startStream_not_refused (req : Request) (aw : Awaited) :
  refused (res (startStream req aw)) = false.
Proof.
  unfold startStream.
  destruct (negb (JS.truthy (q_url req)) || negb (JS.truthy (q_quality req))
            || negb (JS.truthy (q_format req))); [reflexivity|].
  destruct (link aw) as [u|m|m|]; try reflexivity.
  destruct (cached aw) as [m|t]; [reflexivity|].
  destruct (optional_header_unsent (JS.truthy (q_token req)) "Set-Cookie"
              freshRes eq_refl) as [U1 R1].
  destruct (setHeaders_unsent
              [ "Access-Control-Allow-Origin"; "Access-Control-Allow-Headers";
                "Cache-Control" ] _ U1) as [U2 R2].
  destruct (transcodes req).
  - destruct (setHeaders_unsent
                [ "Content-Disposition"; "Content-Type"; "Cache-Control";
                  "Access-Control-Allow-Origin" ] _ U2) as [U3 R3].
    destruct (optional_header_unsent (JS.truthy (q_token req)) "Set-Cookie"
                _ U3) as [U4 R4].
    cbn [res]. chain_refused.
  - destruct (firstFetch aw) as [m|v1];
      [rewrite caught_refused; cbn [res]; chain_refused|].
    match goal with
    | |- context [match ?f with FetchFailed _ => _ | Answered _ => _ end] =>
        destruct f as [m|v]
    end; [rewrite caught_refused; cbn [res]; chain_refused|].
    destruct (negb (up_ok v));
      [rewrite caught_refused; cbn [res]; chain_refused|].
    destruct (setHeader_unsent "Content-Type" _ U2) as (U3 & R3 & _).
    destruct (negb (urlParses aw));
      [rewrite caught_refused; cbn [res]; chain_refused|].
    destruct (setHeader_unsent "Content-Disposition" _ U3) as (U4 & R4 & _).
    destruct (optional_header_unsent (JS.truthy (up_contentLength v))
                "Content-Length" _ U4) as [U5 R5].
    destruct (optional_header_unsent (JS.truthy (h_range req))
                "Accept-Ranges" _ U5) as [U6 R6].
    destruct (up_hasBody v);
      [|rewrite caught_refused]; cbn [res]; chain_refused.
Qed.

Lemma react_refused (ev : Event) (h : Handler) :
  refused (res h) = false -> refused (res (react ev h)) = false.
Proof.
  intros H. unfold react.
  destruct ev, (phase h); cbn [res]; try exact H;
    try (rewrite errorIfUnsent_refused; exact H);
    try (unfold pipeWrite, pipeEnd; destruct (ended (res h)); exact H).
  destruct (nonZero code); cbn [res].
  - now rewrite errorIfUnsent_refused.
  - destruct (tmpFile h) as [size|]; [|exact H].
    destruct (negb (size =? 0)%N && negb (headersSent (res h))) eqn:Hc;
      [|exact H].
    apply andb_true_iff in Hc. destruct Hc as [_ Hu].
    apply negb_true_iff in Hu.
    now rewrite (proj1 (proj2 (setHeader_unsent _ _ Hu))).
Qed.

Lemma after_refused (events : list Event) (h : Handler) :
  refused (res h) = false -> refused (res (after events h)) = false.
Proof.
  revert h. induction events as [|ev events IH]; intros h H; [exact H|].
  cbn [after fold_left]. apply IH. now apply react_refused.
Qed.

(** Once the headers have left, no event changes the status or the error
    body, and the headers stay sent. *)
Lemma react_committed (ev : Event) (h : Handler) :
  headersSent (res h) = true ->
  headersSent (res (react ev h)) = true /\
  statusCode (res (react ev h)) = statusCode (res h) /\
  errorBody (res (react ev h)) = errorBody (res h).
Proof.
  intros H. unfold react.
  destruct ev, (phase h); cbn [res];
    rewrite ?(errorIfUnsent_sent _ _ H);
    try (now repeat split);
    try (unfold pipeWrite, pipeEnd; destruct (ended (res h));
         now repeat split).
  destruct (nonZero code); cbn [res].
  - rewrite ?(errorIfUnsent_sent _ _ H). now repeat split.
  - destruct (tmpFile h) as [size|]; [|now repeat split].
    rewrite H. cbn [negb]. rewrite andb_false_r. now repeat split.
Qed.

(** A failure after the headers have left is logged and nothing else
    happens to the response. *)
Lemma failure_after_headers_only_logged (ev : Event) (h : Handler) :
  headersSent (res h) = true -> isFailure ev = true ->
  res (react ev h) = res h /\
  (react ev h = h \/ exists line, errors (react ev h) = errors h ++ [line]).
Proof.
  intros H Hf. unfold react.
  destruct ev; try discriminate Hf; destruct (phase h); cbn [res errors];
    try (rewrite (errorIfUnsent_sent _ _ H));
    try (split; [reflexivity | now left]);
    try (split; [reflexivity | right; eexists; reflexivity]).
  all: cbn [isFailure] in Hf; rewrite Hf; cbn [res errors];
    rewrite ?(errorIfUnsent_sent _ _ H);
    split; [reflexivity | right; eexists; reflexivity].
Qed.

(** C9. For every execution of the streaming handler (every request, every
    outcome of the calls it awaits, every sequence of events): no error
    status or error body is ever written to a response whose headers have
    left; and from the moment the headers have left, whatever happens next
    leaves the status and the error body as they are, a failure (tool
    error, non-zero exit, read error, upstream error) leaving the whole
    response untouched and at most adding a line to the error log. *)
Theorem errors_only_before_headers
        (req : Request) (aw : Awaited) (events : list Event) (ev : Event) :
  let h := after events (startStream req aw) in
  refused (res (react ev h)) = false /\
  (errorBody (res (react ev h)) <> errorBody (res h) ->
     headersSent (res h) = false) /\
  (headersSent (res h) = true ->
     headersSent (res (react ev h)) = true /\
     statusCode (res (react ev h)) = statusCode (res h) /\
     errorBody (res (react ev h)) = errorBody (res h) /\
     (isFailure ev = true ->
        res (react ev h) = res h /\
        (react ev h = h \/
         exists line, errors (react ev h) = errors h ++ [line]))).
Proof.
  intros h. split; [|split].
  - apply react_refused, after_refused, startStream_not_refused.
  - intros Hne. destruct (headersSent (res h)) eqn:Hs; [|reflexivity].
    destruct (react_committed ev h Hs) as (_ & _ & He). now elim Hne.
  - intros Hs. destruct (react_committed ev h Hs) as (H1 & H2 & H3).
    repeat split; try assumption;
      now apply failure_after_headers_only_logged.
Qed.

(** *** The temporary file *)

(** The two listeners of the read stream remove the file. *)
Lemma read_listeners_unlink (h : Handler) (message : string) :
  phase h = ReadingFile ->
  tmpFile (react ReadClose h) = None /\
  tmpFile (react (ReadError message) h) = None.
Proof. intros Hp. unfold react. rewrite Hp. now split. Qed.

(** The ['close'] listener of the process does not: after a non-zero exit
    nothing is left to run, and the file is where the tool left it. *)
Lemma nonzero_exit_keeps_file (h : Handler) (code : option Z) :
  phase h = Transcoding -> nonZero code = true ->
  tmpFile (react (ProcClose code) h) = tmpFile h /\
  phase (react (ProcClose code) h) = Finished.
Proof. intros Hp Hc. unfold react. rewrite Hp, Hc. now split. Qed.

(** Nobody listens for the client going away. *)
Lemma client_gone_keeps_file (h : Handler) :
  tmpFile (react ClientGone h) = tmpFile h /\
  phase (react ClientGone h) = phase h.
Proof. unfold react. now split. Qed.

(** C1 fails on the code.  On the transcode path, when the tool has written
    its output and exits with a non-zero code, the handler answers 500 and
    is done, and the temporary file is still there. *)
Theorem tool_failure_leaves_temp_file :
  let h := after [ToolWrites 4096; ProcClose (Some 1%Z)]
                 (startStream audioRequest resolvedLink) in
  transcodes audioRequest = true /\
  phase (startStream audioRequest resolvedLink) = Transcoding /\
  phase h = Finished /\
  statusCode (res h) = 500 /\
  tmpFile h = Some 4096%N.
Proof. repeat split. Qed.

(** The same run with exit code 0, the file read to its end and the stream
    closed: the file is gone. *)
Example tool_success_removes_temp_file :
  let h := after [ToolWrites 4096; ProcClose (Some 0%Z); ReadChunk; ReadEnd;
                  ReadClose]
                 (startStream audioRequest resolvedLink) in
  phase h = Finished /\ statusCode (res h) = 200 /\ tmpFile h = None.
Proof. repeat split. Qed.
End StreamFacts.

(** ** The client's platform table against the server's *)
Module ClientFacts.
Import Platform ClientUtils PlatformFacts.

Lemma detectPlatformFromUrl_unfold (url : string) :
  detectPlatformFromUrl url
  = match detectPlatform url with
    | Returns name => name
    | Throws _ => "Unknown"
    end.
Proof.
  unfold detectPlatformFromUrl, detectPlatform.
  change getSupportedPlatforms with supportedPlatforms.
  destruct (find (fun platform => JS.includes url platform) supportedPlatforms)
    as [d|]; [|reflexivity].
  destruct (negb (JS.truthy d)); reflexivity.
Qed.

(** X1. The client's [detectPlatformFromUrl] and the server's
    [detectPlatform] agree on every URL: whenever the server returns a
    platform name the client computes the same name, and the client answers
    'Unknown' exactly for the URLs on which the server throws 'Unsupported
    platform'. *)
Theorem client_and_server_detect_alike (url : string) :
  (forall name, detectPlatform url = Returns name ->
                detectPlatformFromUrl url = name) /\
  (detectPlatformFromUrl url = "Unknown" <->
   detectPlatform url = Throws "Unsupported platform").
Proof.
  rewrite detectPlatformFromUrl_unfold. split.
  - intros name ->. reflexivity.
  - destruct (find (JS.includes url) supportedPlatforms) as [d|] eqn:Hf.
    + destruct (detectPlatform_found url d Hf) as [p [_ Hp]]. rewrite Hp.
      split; [|discriminate].
      intros H. now apply platformName_not_Unknown in H.
    + unfold detectPlatform.
      change (fun platform => JS.includes url platform) with (JS.includes url).
      rewrite Hf. now split.
Qed.
End ClientFacts.

(** ** The first version of the platform table against the current one *)
Module LegacyFacts.
Import Platform.

(** Both versions, spelled out over the tests they make on the URL. *)
Lemma both_versions (url : string) :
  (Legacy.detectPlatform url, detectPlatform url)
  = if JS.includes url "youtube.com" then (Returns "YouTube", Returns "YouTube")
    else if JS.includes url "youtu.be" then (Returns "YouTube", Returns "YouTube")
    else if JS.includes url "tiktok.com" then (Returns "TikTok", Returns "TikTok")
    else if JS.includes url "instagram.com"
    then (Returns "Instagram", Returns "Instagram")
    else if JS.includes url "facebook.com"
    then (Returns "Facebook", Returns "Facebook")
    else if JS.includes url "twitter.com"
    then (Returns "Twitter/X", Returns "Twitter/X")
    else if JS.includes url "x.com" then (Returns "Twitter/X", Returns "Twitter/X")
    else if JS.includes url "vimeo.com" then (Returns "Vimeo", Returns "Vimeo")
    else if JS.includes url "reddit.com" then (Returns "Reddit", Returns "Reddit")
    else if JS.includes url "linkedin.com"
    then (Returns "LinkedIn", Returns "LinkedIn")
    else if JS.includes url "pinterest.com"
    then (Returns "Pinterest", Returns "Pinterest")
    else if JS.includes url "pin.it"
    then (if JS.includes url "dailymotion.com"
          then Returns "Dailymotion" else Throws "Unsupported platform",
          Returns "Pinterest")
    else if JS.includes url "dailymotion.com"
    then (Returns "Dailymotion", Returns "Dailymotion")
    else if JS.includes url "dai.ly"
    then (Throws "Unsupported platform", Returns "Dailymotion")
    else (Throws "Unsupported platform", Throws "Unsupported platform").
Proof.
  unfold Legacy.detectPlatform, detectPlatform,
    Legacy.supportedPlatforms, supportedPlatforms.
  cbn [find].
  repeat match goal with
         | |- context [JS.includes url ?d] =>
             destruct (JS.includes url d); try reflexivity
         end.
Qed.

(** X2. Going from the first version of [detectPlatform] (twelve domains)
    to the current one (with pin.it and dai.ly): on a URL that contains
    neither of the two new domains both versions behave alike; every URL the
    first version accepted is still accepted; and the platform changes only
    for a URL that the first version took for Dailymotion and that contains
    pin.it, which is now Pinterest. *)
Theorem current_platforms_extend_first_version (url : string) :
  (JS.includes url "pin.it" = false -> JS.includes url "dai.ly" = false ->
   Legacy.detectPlatform url = detectPlatform url) /\
  (forall name,
      Legacy.detectPlatform url = Returns name ->
      detectPlatform url = Returns name \/
      (JS.includes url "pin.it" = true /\ name = "Dailymotion" /\
       detectPlatform url = Returns "Pinterest")).
Proof.
  pose proof (both_versions url) as H.
  split.
  - intros Hp Hd. rewrite Hp, Hd in H.
    repeat match type of H with
           | context [if ?b then _ else _] => destruct b
           end; now injection H as -> ->.
  - intros name Hl. rewrite Hl in H.
    repeat match type of H with
           | context [if JS.includes url ?d then _ else _] =>
               destruct (JS.includes url d) eqn:?
           end;
      try discriminate H; injection H as H1 H2; subst name;
      try (now left).
    right. now repeat split.
Qed.
End LegacyFacts.

(** ** What the background merge does to the order and to the sizes *)
Module MergeOrderFacts.
Import JsMap JsMapFacts Quality MergeFacts.

Lemma existsb_eqb_in (l : string) (ks : list string) :
  existsb (String.eqb l) ks = true <-> In l ks.
Proof.
  rewrite existsb_exists. split.
  - intros [x [Hin Heq]]. apply String.eqb_eq in Heq. now subst.
  - intros Hin. exists l. split; [exact Hin | apply String.eqb_refl].
Qed.

Lemma existsb_eqb_notin (l : string) (ks : list string) :
  existsb (String.eqb l) ks = false <-> ~ In l ks.
Proof.
  rewrite <- existsb_eqb_in. now destruct (existsb (String.eqb l) ks).
Qed.

Lemma probedMap_from (probed : list QualityOption) (m : JsMap.t QualityOption) :
  NoDup (keys m ++ map quality probed) ->
  fold_left (fun m p => set (quality p) p m) probed m
  = m ++ map (fun p => (quality p, p)) probed.
Proof.
  revert m. induction probed as [|p ps IH]; intros m Hnd; simpl.
  - now rewrite List.app_nil_r.
  - assert (Hk : ~ In (quality p) (keys m)).
    { simpl in Hnd. apply NoDup_remove_2 in Hnd. intros Hin. apply Hnd.
      apply in_or_app. now left. }
    rewrite (set_notin _ _ _ Hk), IH.
    + now rewrite <- List.app_assoc.
    + unfold keys in *. rewrite map_app, <- List.app_assoc. exact Hnd.
Qed.

Lemma probedMap_pairs (probed : list QualityOption) :
  NoDup (map quality probed) ->
  probedMap probed = map (fun p => (quality p, p)) probed.
Proof. intros Hnd. unfold probedMap. now rewrite probedMap_from. Qed.

Lemma keys_probedMap (probed : list QualityOption) :
  NoDup (map quality probed) -> keys (probedMap probed) = map quality probed.
Proof.
  intros Hnd. rewrite (probedMap_pairs _ Hnd). unfold keys.
  rewrite map_map. reflexivity.
Qed.

Lemma keys_overlay (m : JsMap.t QualityOption) (q : QualityOption) :
  keys (overlay m q)
  = if existsb (String.eqb (quality q)) (keys m) then keys m
    else keys m ++ [quality q].
Proof.
  unfold overlay. destruct (get (quality q) m) as [c|] eqn:Hg.
  - pose proof (get_some_key _ _ _ Hg) as Hin.
    rewrite (proj2 (existsb_eqb_in _ _) Hin). now apply keys_set_in.
  - pose proof (get_none_notin _ _ Hg) as Hn.
    rewrite (proj2 (existsb_eqb_notin _ _) Hn), (set_notin _ _ _ Hn).
    unfold keys. now rewrite map_app.
Qed.

Lemma keys_fold_overlay (orig : list QualityOption) (m : JsMap.t QualityOption) :
  NoDup (map quality orig) ->
  keys (fold_left overlay orig m)
  = keys m ++ filter (fun l => negb (existsb (String.eqb l) (keys m)))
                     (map quality orig).
Proof.
  revert m. induction orig as [|q qs IH]; intros m Hnd; simpl.
  - now rewrite List.app_nil_r.
  - inversion Hnd as [|? ? Hq Hnd']; subst.
    rewrite (IH _ Hnd'), keys_overlay.
    destruct (existsb (String.eqb (quality q)) (keys m)) eqn:He; simpl.
    + reflexivity.
    + rewrite <- List.app_assoc. simpl. do 2 f_equal.
      apply filter_ext_in. intros l Hl.
      rewrite existsb_app. simpl. rewrite orb_false_r.
      destruct (String.eqb_spec l (quality q)) as [->|_];
        [contradiction | now rewrite orb_false_r].
Qed.

Lemma labels_of_values (m : JsMap.t QualityOption) :
  wfMap m -> map quality (values m) = keys m.
Proof.
  intros [_ Hall]. induction Hall as [|[k v] m Hq _ IH]; simpl; [reflexivity|].
  simpl in Hq. now rewrite Hq, IH.
Qed.

Lemma mergeQualities_labels_nodup (probed orig : list QualityOption) :
  NoDup (map quality (mergeQualities probed orig)).
Proof.
  unfold mergeQualities.
  pose proof (wfMap_fold_overlay orig _ (wfMap_probedMap probed)) as Hwf.
  rewrite (labels_of_values _ Hwf). exact (proj1 Hwf).
Qed.

Lemma mergeQualities_labels (probed orig : list QualityOption) :
  NoDup (map quality probed) ->
  NoDup (map quality orig) ->
  map quality (mergeQualities probed orig)
  = map quality probed
    ++ filter (fun l => negb (existsb (String.eqb l) (map quality probed)))
              (map quality orig).
Proof.
  intros Hp Ho. unfold mergeQualities.
  rewrite (labels_of_values _
             (wfMap_fold_overlay orig _ (wfMap_probedMap probed))).
  rewrite (keys_fold_overlay _ _ Ho), (keys_probedMap _ Hp). reflexivity.
Qed.

(** X3. The merge of the background probe puts the probed options first,
    in the order of the probe, and after them the cached options whose
    label the probe does not have, in their order; no label occurs twice.
    (Both lists without repeated labels, as [extractQualities] and the
    generic ladders give them.) *)
Theorem merge_lists_probed_first (probed orig : list QualityOption) :
  NoDup (map quality probed) ->
  NoDup (map quality orig) ->
  map quality (mergeQualities probed orig)
  = map quality probed
    ++ filter (fun l => negb (existsb (String.eqb l) (map quality probed)))
              (map quality orig).
Proof. apply mergeQualities_labels. Qed.

Lemma merge_lists_probed_first_witness :
  map quality
    (mergeQualities
       [ mkOption "720p HD" "mp4" "12.0 MB"; mkOption "Audio Only" "mp3" "Variable" ]
       [ mkOption "1080p HD" "mp4" "Unknown"; mkOption "720p HD" "mp4" "Unknown";
         mkOption "Audio Only" "mp3" "Variable" ])
  = [ "720p HD"; "Audio Only"; "1080p HD" ].
Proof.
  apply (merge_lists_probed_first
           [ mkOption "720p HD" "mp4" "12.0 MB";
             mkOption "Audio Only" "mp3" "Variable" ]
           [ mkOption "1080p HD" "mp4" "Unknown";
             mkOption "720p HD" "mp4" "Unknown";
             mkOption "Audio Only" "mp3" "Variable" ]).
  - repeat constructor; simpl; intuition discriminate.
  - repeat constructor; simpl; intuition discriminate.
Defined.

Lemma get_set_other {V : Type} (k k' : string) (v : V) (m : JsMap.t V) :
  k' <> k -> get k (set k' v m) = get k m.
Proof.
  intros Hne. induction m as [|[k0 v0] m IH]; simpl.
  - destruct (String.eqb_spec k' k); [contradiction | reflexivity].
  - destruct (String.eqb_spec k0 k') as [->|Hn0]; simpl.
    + destruct (String.eqb_spec k' k); [contradiction | reflexivity].
    + destruct (String.eqb_spec k0 k); [reflexivity | exact IH].
Qed.

Lemma get_overlay_same (m : JsMap.t QualityOption) (q c : QualityOption) :
  get (quality q) m = Some c ->
  get (quality q) (overlay m q) = Some (overlayOnto c q).
Proof. intros Hg. unfold overlay. rewrite Hg. apply get_set_same. Qed.

Lemma get_overlay_other (m : JsMap.t QualityOption) (q : QualityOption) k :
  quality q <> k -> get k (overlay m q) = get k m.
Proof.
  intros Hne. unfold overlay.
  destruct (get (quality q) m); now apply get_set_other.
Qed.

Lemma get_fold_overlay_others (qs : list QualityOption)
      (m : JsMap.t QualityOption) k :
  ~ In k (map quality qs) -> get k (fold_left overlay qs m) = get k m.
Proof.
  revert m. induction qs as [|q qs IH]; intros m Hn; simpl; [reflexivity|].
  simpl in Hn. rewrite IH by tauto. apply get_overlay_other. tauto.
Qed.

(** Under the overlay an entry only ever refines. *)
Lemma get_fold_overlay_refines (qs : list QualityOption)
      (m : JsMap.t QualityOption) k (p c : QualityOption) :
  get k m = Some c -> refines p c ->
  exists v, get k (fold_left overlay qs m) = Some v /\ refines p v.
Proof.
  revert m c. induction qs as [|q qs IH]; intros m c Hg Hr; simpl.
  - now exists c.
  - destruct (String.eqb_spec (quality q) k) as [<-|Hne].
    + apply (IH _ (overlayOnto c q)).
      * now apply get_overlay_same.
      * now apply refines_overlay.
    + apply (IH _ c); [|exact Hr].
      now rewrite get_overlay_other.
Qed.

(** With one cached entry of the label, the result is the probed entry laid
    over with that one. *)
Lemma get_fold_overlay_one (qs : list QualityOption)
      (m : JsMap.t QualityOption) (c o : QualityOption) :
  NoDup (map quality qs) -> In o qs ->
  get (quality o) m = Some c ->
  get (quality o) (fold_left overlay qs m) = Some (overlayOnto c o).
Proof.
  revert m. induction qs as [|q qs IH]; intros m Hnd Hin Hg; [destruct Hin|].
  inversion Hnd as [|? ? Hq Hnd']; subst. simpl.
  destruct Hin as [->|Hin].
  - rewrite get_fold_overlay_others by exact Hq.
    now apply get_overlay_same.
  - apply IH; [exact Hnd' | exact Hin |].
    rewrite get_overlay_other; [exact Hg|].
    intros Heq. apply Hq. rewrite Heq. now apply in_map.
Qed.

Lemma get_probedMap (probed : list QualityOption) (p : QualityOption) :
  NoDup (map quality probed) -> In p probed ->
  get (quality p) (probedMap probed) = Some p.
Proof.
  intros Hnd Hin. apply in_get.
  - now rewrite keys_probedMap.
  - rewrite (probedMap_pairs _ Hnd).
    now apply (in_map (fun p => (quality p, p))).
Qed.

(** X4. The merge keeps what the probe knows: for every probed option
    there is exactly one merged option of its label; it has the probed size
    unless that is missing or 'Unknown', and the probed container unless
    that is missing; and where the probed size is missing or 'Unknown' and
    the cached list has an option of the label, the merged option takes the
    cached size. *)
Theorem merge_keeps_probed_sizes
        (probed orig : list QualityOption) (p : QualityOption) :
  NoDup (map quality probed) ->
  In p probed ->
  exists v,
    In v (mergeQualities probed orig) /\
    quality v = quality p /\
    (forall v', In v' (mergeQualities probed orig) ->
                quality v' = quality p -> v' = v) /\
    (sizeUnknown (fileSize p) = false -> fileSize v = fileSize p) /\
    (JS.truthy (format p) = true -> format v = format p) /\
    (forall o, NoDup (map quality orig) -> In o orig ->
               quality o = quality p ->
               sizeUnknown (fileSize p) = true ->
               fileSize v = fileSize o).
Proof.
  intros Hnd Hin.
  pose proof (get_probedMap _ _ Hnd Hin) as Hg.
  destruct (get_fold_overlay_refines orig _ _ p p Hg (refines_refl p))
    as [v [Hv (Hq & Hs & Hf)]].
  assert (Hinv : In v (mergeQualities probed orig)).
  { unfold mergeQualities. apply get_some_in in Hv.
    change v with (snd (quality p, v)). now apply in_map. }
  exists v. repeat split; try assumption.
  - intros v' Hin' Hq'.
    apply (QualityFacts.nodup_map_inj quality _ _ _
             (mergeQualities_labels_nodup probed orig) Hin' Hinv).
    congruence.
  - intros o Ho Hino Hqo Hu.
    rewrite <- Hqo in Hg, Hv.
    rewrite (get_fold_overlay_one orig _ p o Ho Hino Hg) in Hv.
    injection Hv as <-. unfold overlayOnto. rewrite Hu. cbn [format].
    destruct (negb (JS.truthy (format p)) && JS.truthy (format o));
      reflexivity.
Qed.

Lemma merge_keeps_probed_sizes_witness :
  exists v,
    In v (mergeQualities
            [ mkOption "720p HD" "mp4" "Unknown" ]
            [ mkOption "720p HD" "webm" "45 MB" ]) /\
    quality v = "720p HD" /\ fileSize v = "45 MB" /\ format v = "mp4".
Proof.
  destruct (merge_keeps_probed_sizes
              [ mkOption "720p HD" "mp4" "Unknown" ]
              [ mkOption "720p HD" "webm" "45 MB" ]
              (mkOption "720p HD" "mp4" "Unknown"))
    as (v & Hin & Hq & _ & _ & Hf & Ho).
  - repeat constructor. intros [].
  - now left.
  - exists v. repeat split; try assumption.
    + apply (Ho (mkOption "720p HD" "webm" "45 MB")).
      * repeat constructor. intros [].
      * now left.
      * reflexivity.
      * reflexivity.
    + now apply Hf.
Defined.
End MergeOrderFacts.

(** ** The background probe *)
Module ProbeFacts.
Import World Quality Extractor Probe LadderFacts OrderFacts MergeOrderFacts.

Section Probing.
Variable penv : ProcessEnv.
Variable rt : Runtime.

(** What the ['close'] handler can give: nothing, or a ladder. *)
Lemma onProbeClose_cases (output : string) :
  onProbeClose rt output = [] \/
  exists formats,
    onProbeClose rt output
    = extractQualities (toFixed1 rt) (unitOf rt) formats.
Proof.
  unfold onProbeClose.
  match goal with
  | |- context [match ?x with Some _ => _ | None => [] end] => destruct x as [d|]
  end; [right; now exists (vd_formats d) | now left].
Qed.


(** X6. The background enrichment of a cached list without repeated
    labels: whenever a list is handed to [storage.updateVideoInfo], that
    list starts with the probed ladder, its video options in
    strictly descending order and then 'Audio Only', and goes on with the
    cached options the probe did not find, in their cached order, so that
    'Audio Only' is last only when the probe found every cached label. *)
Theorem enrichment_appends_unprobed
        (env : Env) (url : string) (orig : list QualityOption) :
  NoDup (map quality orig) ->
  match fst (run env (backgroundMerge penv rt url orig)) with
  | None => True
  | Some merged =>
      exists videos,
        StronglySorted above videos /\
        map quality merged
        = map quality videos ++ "Audio Only"
          :: filter (fun l => negb (existsb (String.eqb l)
                                      (map quality videos ++ ["Audio Only"])))
                    (map quality orig)
  end.
Proof.
  intros Ho. unfold run, backgroundMerge. cbn [runFrom].
  destruct (onSpawn env 0 (ytdlpCmd penv) (probeArgs penv rt url))
    as [message|e|]; [exact I| |exact I].
  destruct (onProbeClose_cases (stdout e)) as [->|[formats ->]]; [exact I|].
  rewrite extractQualities_shape.
  destruct (videoLadder (toFixed1 rt) (unitOf rt) formats ++ [audioOnly])
    as [|q qs] eqn:Hl; [exact I|].
  cbn [runFrom fst]. rewrite <- Hl.
  exists (videoLadder (toFixed1 rt) (unitOf rt) formats).
  split; [apply videoLadder_descending|].
  rewrite mergeQualities_labels.
  - rewrite map_app. cbn [map quality audioOnly].
    rewrite <- List.app_assoc. reflexivity.
  - rewrite <- extractQualities_shape. apply extractQualities_nodup.
  - exact Ho.
Qed.
End Probing.

Lemma enrichment_appends_unprobed_witness :
  NoDup (map quality genericLadder7) /\
  match fst (run printingFormats
               (backgroundMerge noEnvironment oneStreamRuntime
                  "https://youtu.be/abc123" genericLadder7)) with
  | None => True
  | Some merged =>
      exists videos,
        StronglySorted above videos /\
        map quality merged
        = map quality videos ++ "Audio Only"
          :: filter (fun l => negb (existsb (String.eqb l)
                                      (map quality videos ++ ["Audio Only"])))
                    (map quality genericLadder7)
  end.
Proof.
  assert (Hnd : NoDup (map quality genericLadder7)).
  { repeat constructor; simpl; intuition discriminate. }
  split; [exact Hnd|].
  exact (enrichment_appends_unprobed noEnvironment oneStreamRuntime
           printingFormats "https://youtu.be/abc123" genericLadder7 Hnd).
Defined.

Example enrichment_breaks_audio_last :
  option_map (map quality)
    (fst (run printingFormats
            (backgroundMerge noEnvironment oneStreamRuntime
               "https://youtu.be/abc123" genericLadder7)))
  = Some [ "720p HD"; "Audio Only"; "4K (2160p)"; "2K (1440p)"; "1080p HD";
           "480p"; "360p" ].
Proof. reflexivity. Qed.
End ProbeFacts.

(** ** The in-memory store *)
Module StorageFacts.
Import JsMap JsMapFacts Storage.

Section Keyed.
Context {V : Type} (key : V -> string).

Lemma keyedBy_set (m : JsMap.t V) (v : V) :
  keyedBy key m -> keyedBy key (set (key v) v m).
Proof.
  intros [Hnd Hall]. split; [now apply nodup_keys_set|].
  apply Forall_forall. intros [k x] Hin.
  apply in_set in Hin. destruct Hin as [[-> ->]|Hin]; [reflexivity|].
  rewrite Forall_forall in Hall. now apply Hall.
Qed.

Lemma in_mapDelete (k : string) (m : JsMap.t V) (kv : string * V) :
  In kv (mapDelete k m) <-> In kv m /\ fst kv <> k.
Proof.
  induction m as [|[k0 v0] m IH]; simpl; [tauto|].
  destruct (String.eqb_spec k0 k) as [->|Hne].
  - rewrite IH. split; [tauto|].
    intros [[<-|H] Hk]; [now elim Hk | tauto].
  - simpl. rewrite IH. split.
    + intros [<-|[H Hk]]; [split; [now left | exact Hne] | tauto].
    + tauto.
Qed.

Lemma keys_mapDelete (k : string) (m : JsMap.t V) :
  keys (mapDelete k m) = filter (fun k' => negb (k' =? k)) (keys m).
Proof.
  induction m as [|[k0 v0] m IH]; simpl; [reflexivity|].
  destruct (String.eqb_spec k0 k); simpl; now rewrite IH.
Qed.

Lemma keyedBy_mapDelete (k : string) (m : JsMap.t V) :
  keyedBy key m -> keyedBy key (mapDelete k m).
Proof.
  intros [Hnd Hall]. split.
  - rewrite keys_mapDelete. now apply NoDup_filter.
  - apply Forall_forall. intros kv Hin. apply in_mapDelete in Hin.
    rewrite Forall_forall in Hall. now apply Hall.
Qed.

Lemma keyedBy_values_nodup (m : JsMap.t V) :
  keyedBy key m -> NoDup (map key (values m)).
Proof.
  intros [Hnd Hall].
  assert (H : map key (values m) = keys m).
  { clear Hnd. induction Hall as [|[k v] m Hk _ IH]; simpl; [reflexivity|].
    simpl in Hk. now rewrite Hk, IH. }
  now rewrite H.
Qed.

(** After [set], the first value with the key of the new one is the new
    one, provided no other value bore that key. *)
Lemma find_after_set (m : JsMap.t V) (v : V) :
  Forall (fun kv => key (snd kv) = fst kv) m ->
  find (fun x => key x =? key v) (values (set (key v) v m)) = Some v.
Proof.
  induction 1 as [|[k0 v0] m Hk _ IH]; simpl.
  - now rewrite String.eqb_refl.
  - simpl in Hk. destruct (String.eqb_spec k0 (key v)) as [->|Hne]; simpl.
    + now rewrite String.eqb_refl.
    + rewrite Hk. destruct (String.eqb_spec k0 (key v)); [contradiction|].
      exact IH.
Qed.

Lemma find_other_after_set (m : JsMap.t V) (v : V) (k : string) :
  Forall (fun kv => key (snd kv) = fst kv) m ->
  k <> key v ->
  find (fun x => key x =? k) (values (set (key v) v m))
  = find (fun x => key x =? k) (values m).
Proof.
  intros Hall Hne. induction Hall as [|[k0 v0] m Hk _ IH]; simpl.
  - destruct (String.eqb_spec (key v) k); [congruence | reflexivity].
  - simpl in Hk. destruct (String.eqb_spec k0 (key v)) as [->|Hn0]; simpl.
    + rewrite Hk.
      destruct (String.eqb_spec (key v) k); [congruence | reflexivity].
    + rewrite Hk. destruct (String.eqb_spec k0 k); [reflexivity | exact IH].
Qed.
End Keyed.

Lemma wfStore_perform (s : Store) (c : Call) : wfStore s -> wfStore (perform s c).
Proof.
  intros [Hh Hc].
  destruct c as [d id now|id| |v id now];
    unfold perform, addDownloadHistory, deleteDownloadHistory,
      clearDownloadHistory, saveVideoInfo, wfStore;
    cbn [snd downloadHistory videoInfoCache]; split; try assumption.
  - match goal with
    | |- keyedBy _ (set _ ?item _) => exact (keyedBy_set dh_id _ item Hh)
    end.
  - now apply keyedBy_mapDelete.
  - split; constructor.
  - match goal with
    | |- keyedBy _ (set _ ?info _) => exact (keyedBy_set vi_url _ info Hc)
    end.
Qed.

Lemma wfStore_after_from (calls : list Call) (s : Store) :
  wfStore s -> wfStore (fold_left perform calls s).
Proof.
  revert s. induction calls as [|c calls IH]; intros s H; [exact H|].
  simpl. apply IH. now apply wfStore_perform.
Qed.

Lemma wfStore_storeAfter (calls : list Call) : wfStore (storeAfter calls).
Proof.
  apply wfStore_after_from. repeat split; constructor.
Qed.

(** X7. The cache of the store, in any state the store can reach: a saved
    record is what a lookup of its URL finds next, lookups of every other
    URL find what they found before, the history is untouched, and the
    cache never holds two records of one URL. *)
Theorem saved_info_is_found (calls : list Call) (videoInfo : InsertVideoInfo)
        (id : string) (now : Z) :
  let s := storeAfter calls in
  let saved := fst (saveVideoInfo videoInfo id now s) in
  let s' := snd (saveVideoInfo videoInfo id now s) in
  vi_url saved = iv_url videoInfo /\
  getVideoInfo (iv_url videoInfo) s' = Some saved /\
  (forall url, url <> iv_url videoInfo ->
               getVideoInfo url s' = getVideoInfo url s) /\
  downloadHistory s' = downloadHistory s /\
  NoDup (map vi_url (values (videoInfoCache s'))).
Proof.
  intros s saved s'.
  destruct (wfStore_storeAfter calls) as [Hh [Hnd Hall]]. fold s in Hnd, Hall.
  split; [reflexivity|]. split; [|split; [|split]].
  - unfold getVideoInfo, s'. cbn [saveVideoInfo snd videoInfoCache].
    change (iv_url videoInfo) with (vi_url saved).
    now apply (find_after_set vi_url).
  - intros url Hne. unfold getVideoInfo, s'.
    cbn [saveVideoInfo snd videoInfoCache].
    change (iv_url videoInfo) with (vi_url saved).
    now apply (find_other_after_set vi_url).
  - reflexivity.
  - apply (keyedBy_values_nodup vi_url).
    apply (wfStore_perform s (SaveInfo videoInfo id now)).
    split; [exact Hh | now split].
Qed.

Lemma getVideoInfo_perform_other (s : Store) (c : Call) (url : string) :
  wfStore s -> savesUrl url c = false ->
  getVideoInfo url (perform s c) = getVideoInfo url s.
Proof.
  intros [_ [_ Hall]] Hc.
  destruct c as [d id now|id| |v id now]; try reflexivity.
  unfold getVideoInfo, perform, saveVideoInfo.
  cbn [snd videoInfoCache].
  cbn [savesUrl] in Hc. apply String.eqb_neq in Hc.
  match goal with
  | |- find _ (values (set _ ?info _)) = _ =>
      apply (find_other_after_set vi_url _ info url Hall)
  end.
  cbn [vi_url]. congruence.
Qed.

Lemma getVideoInfo_after_others (calls : list Call) (s : Store) (url : string) :
  wfStore s -> forallb (fun c => negb (savesUrl url c)) calls = true ->
  getVideoInfo url (fold_left perform calls s) = getVideoInfo url s.
Proof.
  revert s. induction calls as [|c calls IH]; intros s Hwf Hall;
    [reflexivity|].
  cbn [forallb] in Hall. apply andb_true_iff in Hall. destruct Hall as [Hc Hr].
  apply negb_true_iff in Hc. cbn [fold_left].
  rewrite IH; [| now apply wfStore_perform | exact Hr].
  now apply getVideoInfo_perform_other.
Qed.

(** X8. The last save wins: after any calls, a save of a URL, and any
    further calls none of which saves that URL again, a lookup of the URL
    finds the record of that save, whatever the cache held for the URL
    before and whatever was added to or deleted from the history since. *)
Theorem last_saved_info_is_found
        (before after : list Call) (videoInfo : InsertVideoInfo)
        (id : string) (now : Z) :
  forallb (fun c => negb (savesUrl (iv_url videoInfo) c)) after = true ->
  getVideoInfo (iv_url videoInfo)
    (storeAfter (before ++ SaveInfo videoInfo id now :: after))
  = Some (fst (saveVideoInfo videoInfo id now (storeAfter before))).
Proof.
  intros Hafter. unfold storeAfter. rewrite fold_left_app. cbn [fold_left].
  fold (storeAfter before).
  rewrite getVideoInfo_after_others;
    [| apply wfStore_perform, wfStore_storeAfter | exact Hafter].
  destruct (wfStore_storeAfter before) as [_ [_ Hall]].
  unfold getVideoInfo, perform, saveVideoInfo. cbn [snd fst videoInfoCache].
  match goal with
  | |- find _ (values (set _ ?info _)) = _ =>
      exact (find_after_set vi_url _ info Hall)
  end.
Qed.

Lemma last_saved_info_is_found_witness :
  option_map vi_title
    (getVideoInfo "https://youtu.be/a"
       (storeAfter
          [ SaveInfo (mkInsertInfo "https://youtu.be/a" "YouTube" "first"
                        None None None None None []) "id1" 1%Z;
            SaveInfo (mkInsertInfo "https://youtu.be/a" "YouTube" "second"
                        None None None None None []) "id2" 2%Z;
            SaveInfo (mkInsertInfo "https://vimeo.com/1" "Vimeo" "other"
                        None None None None None []) "id3" 3%Z;
            ClearHistory ]))
  = Some "second".
Proof.
  exact (f_equal (option_map vi_title)
           (last_saved_info_is_found
              [ SaveInfo (mkInsertInfo "https://youtu.be/a" "YouTube" "first"
                            None None None None None []) "id1" 1%Z ]
              [ SaveInfo (mkInsertInfo "https://vimeo.com/1" "Vimeo" "other"
                            None None None None None []) "id3" 3%Z;
                ClearHistory ]
              (mkInsertInfo "https://youtu.be/a" "YouTube" "second"
                 None None None None None []) "id2" 2%Z eq_refl)).
Defined.

(** *** The download history *)

Lemma in_set_iff {V : Type} (k k' : string) (v v' : V) (m : JsMap.t V) :
  NoDup (keys m) ->
  (In (k', v') (set k v m) <->
   (k' = k /\ v' = v) \/ (In (k', v') m /\ k' <> k)).
Proof.
  induction m as [|[k0 v0] m IH]; simpl; intros Hnd.
  - split; [intros [[= <- <-]|[]]; now left | intros [[-> ->]|[[] _]]; now left].
  - inversion Hnd as [|? ? Hk0 Hnd']; subst. specialize (IH Hnd').
    destruct (String.eqb_spec k0 k) as [->|Hne]; simpl.
    + split.
      * intros [[= <- <-]|Hin]; [now left|].
        right. split; [now right|].
        intros ->. apply Hk0. change k with (fst (k, v')). now apply in_map.
      * intros [[-> ->]|[[[= <- <-]|Hin] Hn]];
          [now left | now elim Hn | now right].
    + rewrite IH. split.
      * intros [[= <- <-]|[H|[H Hn]]];
          [right; split; [now left | exact Hne] | now left | right; tauto].
      * intros [H|[[[= <- <-]|H] Hn]];
          [right; now left | now left | right; right; tauto].
Qed.

Lemma in_values_keyed {V : Type} (key : V -> string) (m : JsMap.t V) (v : V) :
  keyedBy key m -> (In v (values m) <-> In (key v, v) m).
Proof.
  intros [_ Hall]. rewrite Forall_forall in Hall. split.
  - intros Hin. apply in_map_iff in Hin. destruct Hin as [[k x] [Hx Hin]].
    simpl in Hx. subst x. pose proof (Hall _ Hin) as Hk. simpl in Hk.
    now rewrite Hk.
  - intros Hin. change v with (snd (key v, v)). now apply in_map.
Qed.

Lemma in_getDownloadHistory (s : Store) (item : DownloadHistory) :
  wfStore s ->
  (In item (getDownloadHistory s) <-> In (dh_id item, item) (downloadHistory s)).
Proof.
  intros [Hh _]. unfold getDownloadHistory.
  rewrite <- (in_values_keyed dh_id _ _ Hh). split.
  - apply Permutation_in, sort_perm.
  - apply Permutation_in, Permutation_sym, sort_perm.
Qed.

(** X9. The download history, in any state the store can reach: after an
    item is added the list holds that item and the earlier items of a
    different id; after an id is deleted it holds the earlier items of a
    different id and no other; after a clear it is empty.  None of the three
    touches the cache. *)
Theorem history_membership (calls : list Call) :
  let s := storeAfter calls in
  (forall download id now item,
      In item (getDownloadHistory
                 (snd (addDownloadHistory download id now s))) <->
      item = fst (addDownloadHistory download id now s) \/
      (In item (getDownloadHistory s) /\ dh_id item <> id)) /\
  (forall id item,
      In item (getDownloadHistory (deleteDownloadHistory id s)) <->
      In item (getDownloadHistory s) /\ dh_id item <> id) /\
  getDownloadHistory (clearDownloadHistory s) = [] /\
  (forall download id now,
      videoInfoCache (snd (addDownloadHistory download id now s))
      = videoInfoCache s) /\
  (forall id, videoInfoCache (deleteDownloadHistory id s) = videoInfoCache s) /\
  videoInfoCache (clearDownloadHistory s) = videoInfoCache s.
Proof.
  intros s. pose proof (wfStore_storeAfter calls) as Hwf. fold s in Hwf.
  split; [|split; [|repeat split]].
  - intros download id now item.
    rewrite (in_getDownloadHistory _ _
               (wfStore_perform s (AddHistory download id now) Hwf)).
    cbn [perform addDownloadHistory snd fst downloadHistory].
    rewrite (in_set_iff _ _ _ _ _ (proj1 (proj1 Hwf))).
    rewrite (in_getDownloadHistory _ _ Hwf).
    split; (intros [H|H]; [left|now right]).
    + now destruct H as [_ ->].
    + now subst item.
  - intros id item.
    rewrite (in_getDownloadHistory _ _
               (wfStore_perform s (DeleteHistory id) Hwf)).
    cbn [perform deleteDownloadHistory downloadHistory].
    rewrite (in_mapDelete dh_id id (downloadHistory s) (dh_id item, item)).
    now rewrite (in_getDownloadHistory _ _ Hwf).
Qed.

Lemma newestFirst_hdrel (x y : DownloadHistory) (l : list DownloadHistory) :
  (dh_createdAt x <= dh_createdAt y)%Z ->
  HdRel (fun a b => (dh_createdAt b <= dh_createdAt a)%Z) y l ->
  HdRel (fun a b => (dh_createdAt b <= dh_createdAt a)%Z) y
        (insert newestFirst x l).
Proof.
  intros Hxy Hl. destruct l as [|z l]; simpl.
  - now constructor.
  - destruct (newestFirst x z <=? 0)%Z.
    + now constructor.
    + inversion Hl; subst. now constructor.
Qed.

Lemma newestFirst_insert_sorted (x : DownloadHistory) (l : list DownloadHistory) :
  Sorted (fun a b => (dh_createdAt b <= dh_createdAt a)%Z) l ->
  Sorted (fun a b => (dh_createdAt b <= dh_createdAt a)%Z)
         (insert newestFirst x l).
Proof.
  induction l as [|y l IH]; simpl; intros Hs.
  - repeat constructor.
  - inversion Hs as [|? ? Hs' Hhd]; subst.
    destruct (Z.leb_spec (newestFirst x y) 0) as [Hle|Hgt];
      unfold newestFirst in *.
    + constructor; [exact Hs|]. constructor. lia.
    + constructor; [now apply IH|].
      apply newestFirst_hdrel; [lia | exact Hhd].
Qed.

(** X10. [getDownloadHistory] lists the stored items newest first: in any
    state the store can reach the list is in descending order of creation
    time (every item at least as recent as all the items after it), it holds
    exactly the stored items, and no id twice. *)
Theorem history_is_newest_first (calls : list Call) :
  let s := storeAfter calls in
  StronglySorted (fun a b => (dh_createdAt b <= dh_createdAt a)%Z)
                 (getDownloadHistory s) /\
  Permutation (getDownloadHistory s) (values (downloadHistory s)) /\
  NoDup (map dh_id (getDownloadHistory s)).
Proof.
  intros s. destruct (wfStore_storeAfter calls) as [Hh _]. fold s in Hh.
  assert (Hperm : Permutation (getDownloadHistory s)
                              (values (downloadHistory s)))
    by apply sort_perm.
  split; [|split; [exact Hperm|]].
  - apply Sorted_StronglySorted; [intros a b c; lia|].
    unfold getDownloadHistory. clear Hperm Hh.
    generalize (values (downloadHistory s)) as l.
    induction l as [|x l IH]; simpl;
      [constructor | now apply newestFirst_insert_sorted].
  - apply (Permutation_NoDup (l := map dh_id (values (downloadHistory s)))).
    + apply Permutation_map. now symmetry.
    + now apply (keyedBy_values_nodup dh_id).
Qed.
End StorageFacts.

(** ** The runs of the service: what is asked, and what comes back *)
Module ServiceFacts.
Import World Quality Extractor LadderFacts.

Lemma truthy_or_else (a b : string) :
  JS.truthy b = true -> JS.truthy (JS.or_else a b) = true.
Proof. unfold JS.or_else. now destruct (JS.truthy a) eqn:E. Qed.

Lemma truthy_app_r (a b : string) :
  JS.truthy b = true -> JS.truthy (a ++ b) = true.
Proof. destruct a; [now simpl | reflexivity]. Qed.

Section Runs.
Variable penv : ProcessEnv.
Variable rt : Runtime.

Lemma oembedInfo_presentable (name titleDefault uploaderDefault : string)
      (ladder : list QualityOption) (data : OEmbed) :
  JS.truthy titleDefault = true -> audioLast ladder = true ->
  presentable name (oembedInfo name titleDefault uploaderDefault ladder data).
Proof.
  intros Ht Hl. repeat split; [|exact Hl]. now apply truthy_or_else.
Qed.

Lemma scrapedInfo_presentable (name html : string) :
  presentable name (scrapedInfo rt name html).
Proof.
  repeat split. unfold scrapedInfo. cbn [title].
  apply truthy_or_else. now apply truthy_app_r.
Qed.

Lemma infoOfRecord_presentable (name : string) (videoData : VideoData) :
  presentable name (infoOfRecord rt name videoData).
Proof.
  repeat split; cbn [title availableQualities infoOfRecord].
  - now apply truthy_or_else.
  - rewrite extractQualities_shape. unfold audioLast. now rewrite List.rev_unit.
Qed.

Lemma onDumpClose_presentable (name url : string) (e : Exit)
      (info : ExtractedVideoInfo) :
  onDumpClose rt name url e = Resolved info -> presentable name info.
Proof.
  unfold onDumpClose.
  destruct (negb (exitedZero e)).
  - destruct (authSignature (stderr e)).
    + intros [= <-]. now repeat split.
    + destruct (cookiePlatformUrl url && blockedSignature (stderr e));
        [|discriminate].
      intros [= <-]. repeat split. unfold cookieDemo. cbn [title].
      now apply truthy_app_r.
  - destruct (negb (JS.truthy (JS.trim (stdout e)))); [discriminate|].
    destruct (firstRecord rt (splitLines (JS.trim (stdout e))));
      [|discriminate].
    intros [= <-]. apply infoOfRecord_presentable.
Qed.

Local Abbreviation well url :=
  (settledWell (ytdlpCmd penv) (dumpArgs penv rt url)).

Lemma onDumpClose_settles (name url : string) (e : Exit) :
  match onDumpClose rt name url e with
  | Resolved _ | Rejected _ => True
  | Uncaught _ | Pending => False
  end.
Proof.
  unfold onDumpClose.
  repeat match goal with
         | |- context [if ?b then _ else _] => destruct b
         | |- context [match ?o with Some _ => _ | None => _ end] =>
             destruct o
         end; exact I.
Qed.

Lemma toolTier_well (n : nat) (env : Env) (name url : string) :
  let (out, trace) := runFrom n env (toolTier penv rt name url) in
  well url name out trace /\
  exists r, trace = [Spawned (ytdlpCmd penv) (dumpArgs penv rt url) r].
Proof.
  unfold toolTier. cbn [runFrom].
  destruct (onSpawn env n (ytdlpCmd penv) (dumpArgs penv rt url))
    as [message|e|] eqn:Hr; cbn [runFrom].
  - split; [|now eexists]. split; [right; left; now eexists|].
    split; [|reflexivity]. now exists [], (SpawnFailed message).
  - split; [|now eexists]. split; [right; left; now eexists|].
    pose proof (onDumpClose_settles name url e) as Hs.
    destruct (onDumpClose rt name url e) as [info|message|message|] eqn:Hc;
      try contradiction.
    + split; [|reflexivity]. now apply (onDumpClose_presentable name url e).
    + split; [|reflexivity]. now exists [], (Closed e).
  - split; [|now eexists]. split; [right; left; now eexists|]. reflexivity.
Qed.

Lemma after_probe_well (n : nat) (env : Env) (name url u : string)
      (h : list (string * string)) (r : Fetched) :
  let (out, trace) := runFrom (S n) env (toolTier penv rt name url) in
  well url name out (Requested u h r :: trace).
Proof.
  pose proof (toolTier_well (S n) env name url) as H.
  destruct (runFrom (S n) env (toolTier penv rt name url)) as [out trace].
  destruct H as [[_ Hout] [r' ->]]. split.
  - right; right. now exists u, h, r, r'.
  - destruct out as [info|message|message|]; try exact Hout.
    destruct Hout as [_ Hst]. split; [|exact Hst].
    now exists [Requested u h r], r'.
Qed.

Lemma oembedTier_well (n : nat) (env : Env) (name url endpoint : string)
      (headers : list (string * string)) (mk : OEmbed -> ExtractedVideoInfo) :
  (forall data, presentable name (mk data)) ->
  let (out, trace) :=
    runFrom n env (oembedTier endpoint headers mk (toolTier penv rt name url)) in
  well url name out trace.
Proof.
  intros Hmk. unfold oembedTier. cbn [runFrom].
  pose proof (after_probe_well n env name url endpoint headers
                (onFetch env n endpoint headers)) as Hnext.
  destruct (onFetch env n endpoint headers) as [|resp|] eqn:Hf.
  - destruct (runFrom (S n) env (toolTier penv rt name url)). exact Hnext.
  - destruct (ok resp).
    + destruct (json resp) as [data|].
      * cbn [runFrom]. split; [left; now do 3 eexists|].
        split; [apply Hmk | reflexivity].
      * destruct (runFrom (S n) env (toolTier penv rt name url)). exact Hnext.
    + destruct (runFrom (S n) env (toolTier penv rt name url)). exact Hnext.
  - cbn [runFrom]. split; [left; now do 3 eexists | reflexivity].
Qed.

Lemma scrapeTier_well (n : nat) (env : Env) (name url : string) :
  let (out, trace) :=
    runFrom n env (scrapeTier rt name url (toolTier penv rt name url)) in
  well url name out trace.
Proof.
  unfold scrapeTier. cbn [runFrom].
  pose proof (after_probe_well n env name url url (scrapeHeaders name)
                (onFetch env n url (scrapeHeaders name))) as Hnext.
  destruct (onFetch env n url (scrapeHeaders name)) as [|resp|] eqn:Hf.
  - destruct (runFrom (S n) env (toolTier penv rt name url)). exact Hnext.
  - destruct (ok resp).
    + destruct (text resp) as [html|].
      * cbn [runFrom]. split; [left; now do 3 eexists|].
        split; [apply scrapedInfo_presentable | reflexivity].
      * destruct (runFrom (S n) env (toolTier penv rt name url)). exact Hnext.
    + destruct (runFrom (S n) env (toolTier penv rt name url)). exact Hnext.
  - cbn [runFrom]. split; [left; now do 3 eexists | reflexivity].
Qed.

Lemma extractVideoInfo_runsFrom (n : nat) (env : Env) (url : string) :
  let (out, trace) := runFrom n env (extractVideoInfo penv rt url) in
  match Platform.detectPlatform url with
  | Platform.Throws message => out = Uncaught message /\ trace = []
  | Platform.Returns platformName =>
      settledWell (ytdlpCmd penv) (dumpArgs penv rt url) platformName
                  out trace /\
      (existsb (String.eqb platformName) probedPlatforms = false ->
       exists r, trace = [Spawned (ytdlpCmd penv) (dumpArgs penv rt url) r])
  end.
Proof.
  unfold extractVideoInfo.
  destruct (Platform.detectPlatform url) as [name|message];
    [|now cbn [runFrom]].
  assert (Hgeneric : forall a b l,
             JS.truthy a = true -> audioLast l = true ->
             forall data, presentable name (oembedInfo name a b l data)).
  { intros a b l Ha Hl data. now apply oembedInfo_presentable. }
  cbv zeta.
  destruct (String.eqb_spec name "YouTube") as [->|H1].
  { cbn [String.eqb Ascii.eqb Bool.eqb orb andb].
    pose proof (oembedTier_well n env "YouTube" url (youtubeOEmbedUrl url)
                  [("User-Agent", userAgent)]
                  (oembedInfo "YouTube" "YouTube Video" "YouTube"
                              genericLadder7)
                  (Hgeneric "YouTube Video" "YouTube" genericLadder7
                            eq_refl eq_refl)) as H.
    destruct (runFrom n env _) as [out trace]. split; [exact H|].
    discriminate. }
  destruct (String.eqb_spec name "Vimeo") as [->|H2].
  { cbn [String.eqb Ascii.eqb Bool.eqb orb andb].
    pose proof (oembedTier_well n env "Vimeo" url
                  ("https://vimeo.com/api/oembed.json?url="
                   ++ encodeURIComponent url) []
                  (oembedInfo "Vimeo" "Vimeo Video" "Vimeo" genericLadder4)
                  (Hgeneric "Vimeo Video" "Vimeo" genericLadder4
                            eq_refl eq_refl)) as H.
    destruct (runFrom n env _) as [out trace]. split; [exact H|].
    discriminate. }
  destruct (String.eqb_spec name "Dailymotion") as [->|H3].
  { cbn [String.eqb Ascii.eqb Bool.eqb orb andb].
    pose proof (oembedTier_well n env "Dailymotion" url
                  ("https://www.dailymotion.com/services/oembed?url="
                   ++ encodeURIComponent url) []
                  (oembedInfo "Dailymotion" "Dailymotion Video" "Dailymotion"
                              genericLadder4)
                  (Hgeneric "Dailymotion Video" "Dailymotion" genericLadder4
                            eq_refl eq_refl)) as H.
    destruct (runFrom n env _) as [out trace]. split; [exact H|].
    discriminate. }
  destruct ((name =? "TikTok") || (name =? "Instagram")
            || (name =? "Pinterest"))%string eqn:Hs.
  { pose proof (scrapeTier_well n env name url) as H.
    destruct (runFrom n env _) as [out trace]. split; [exact H|].
    unfold probedPlatforms. cbn [existsb].
    apply orb_true_iff in Hs. destruct Hs as [Hs|Hs];
      [apply orb_true_iff in Hs; destruct Hs as [Hs|Hs]|];
      apply String.eqb_eq in Hs; subst name; discriminate. }
  pose proof (toolTier_well n env name url) as H.
  destruct (runFrom n env _) as [out trace].
  destruct H as [Hw Hex]. split; [exact Hw | intros _; exact Hex].
Qed.


(** X12. Every call of [generateDownloadLink] runs the tool once or twice
    and asks nothing else; the second run is the generic-extractor fallback
    or the permissive retry and follows a first run that exited non-zero.
    The promise is never resolved with an empty URL.  It is left with an
    exception nobody handles only when the second run could not be started,
    and it stays pending for ever exactly when the last run never ends: the
    method sets no timer on the tool. *)
Theorem generateDownloadLink_run_shape
        (env : Env) (url quality format : string) :
  let (out, trace) :=
    run env (generateDownloadLink penv rt url quality format) in
  let first := linkArgs penv rt url quality format in
  ((exists r1, trace = [Spawned (ytdlpCmd penv) first r1]) \/
   (exists e1 args2 r2,
       trace = [Spawned (ytdlpCmd penv) first (Closed e1);
                Spawned (ytdlpCmd penv) args2 r2] /\
       exitedZero e1 = false /\
       (args2 = fallbackArgs url \/ args2 = retryArgs penv rt url))) /\
  (out = Pending <-> stalled trace = true) /\
  match out with
  | Resolved link => JS.truthy link = true
  | Rejected _ => True
  | Uncaught _ =>
      exists e1 args2 message,
        trace = [Spawned (ytdlpCmd penv) first (Closed e1);
                 Spawned (ytdlpCmd penv) args2 (SpawnFailed message)]
  | Pending => True
  end.
Proof.
  rewrite LinkFacts.generateDownloadLink_run. cbv zeta.
  destruct (onSpawn env 0 (ytdlpCmd penv) (linkArgs penv rt url quality format))
    as [message|e1|];
    [split; [left; now eexists | split; [now split | exact I]] |
     | split; [left; now eexists | split; [now split | exact I]]].
  destruct (exitedZero e1) eqn:Hz; cbn [negb].
  - split; [left; now eexists|].
    destruct (JS.truthy (JS.firstLine (JS.trim (stdout e1)))) eqn:Ht;
      cbn [negb]; (split; [now split|]); [exact Ht | exact I].
  - destruct (isPinterestUrl url && jsonParseSignature (stderr e1)).
    + split; [right; exists e1, (fallbackArgs url); eexists;
              split; [reflexivity | split; [exact Hz | now left]]|].
      destruct (onSpawn env 1 (ytdlpCmd penv) (fallbackArgs url))
        as [message|e2|]; cbn [onFallbackClose];
        [split; [now split | now do 3 eexists] | | now repeat split].
      destruct (exitedZero e2 && JS.truthy (JS.trim (stdout e2))) eqn:Hb;
        (split; [now split|]); [|reflexivity].
      now apply andb_true_iff in Hb.
    + destruct (formatUnavailableSignature (stderr e1)).
      * split; [right; exists e1, (retryArgs penv rt url); eexists;
                split; [reflexivity | split; [exact Hz | now right]]|].
        destruct (onSpawn env 1 (ytdlpCmd penv) (retryArgs penv rt url))
          as [message|e2|]; cbn [onRetryClose];
          [split; [now split | now do 3 eexists] | | now repeat split].
        destruct (exitedZero e2).
        -- destruct (JS.truthy (JS.firstLine (JS.trim (stdout e2)))) eqn:Ht;
             (split; [now split|]); [exact Ht | exact I].
        -- destruct (isTikTokUrl url || isInstagramUrl url);
             (split; [now split|]); [reflexivity | exact I].
      * split; [left; now eexists|].
        destruct (isTikTokUrl url || isInstagramUrl url);
          [split; [now split | reflexivity]|].
        destruct (authSignature (stderr e1));
          (split; [now split|]); [reflexivity | exact I].
Qed.
End Runs.
End ServiceFacts.

(** ** The request layer *)
Module RouteFacts.
Import World Quality Extractor Storage Routes JsMapFacts StorageFacts
       ServiceFacts.

Lemma runFrom_bind {A B : Type} (p : Proc A) (f : A -> Proc B)
      (n : nat) (env : Env) :
  runFrom n env (bind p f)
  = let (a, t) := runFrom n env p in
    let (b, t') := runFrom (n + length t) env (f a) in
    (b, t ++ t').
Proof.
  revert n. induction p as [a|cmd args k IH|u h k IH]; intros n;
    cbn [bind runFrom].
  - cbn [length]. rewrite Nat.add_0_r. now destruct (runFrom n env (f a)).
  - rewrite IH. destruct (runFrom (S n) env (k _)) as [a t].
    cbn [length]. rewrite Nat.add_succ_r.
    change (S n + length t) with (S (n + length t)).
    now destruct (runFrom (S (n + length t)) env (f a)).
  - rewrite IH. destruct (runFrom (S n) env (k _)) as [a t].
    cbn [length]. rewrite Nat.add_succ_r.
    change (S n + length t) with (S (n + length t)).
    now destruct (runFrom (S (n + length t)) env (f a)).
Qed.

Section Handlers.
Variable penv : ProcessEnv.
Variable rt : Runtime.

(** The run of the handler on a URL the cache does not hold. *)
Lemma extractInfoRoute_miss (env : Env) (url id : string) (now : Z)
      (s : Store) :
  getVideoInfo url s = None ->
  run env (extractInfoRoute penv rt (Platform.Returns url) id now s)
  = let (settled, trace) := run env (extractVideoInfo penv rt url) in
    (match settled with
     | Resolved videoInfo =>
         (Some (200, InfoBody
                       (fst (saveVideoInfo (insertOf url videoInfo) id now s))),
          snd (saveVideoInfo (insertOf url videoInfo) id now s))
     | Rejected message =>
         (Some (500, ErrorBody
                       (JS.or_else message
                          "Failed to extract video information")), s)
     | Uncaught _ | Pending => (None, s)
     end, trace).
Proof.
  intros Hmiss. unfold run, extractInfoRoute. rewrite Hmiss, runFrom_bind.
  destruct (runFrom 0 env (extractVideoInfo penv rt url)) as [settled trace].
  destruct settled as [videoInfo|message|message|];
    unfold saveVideoInfo; cbn [runFrom fst snd];
    now rewrite List.app_nil_r.
Qed.

Lemma saved_then_found (calls : list Call) (videoInfo : InsertVideoInfo)
      (id : string) (now : Z) :
  getVideoInfo (iv_url videoInfo)
               (snd (saveVideoInfo videoInfo id now (storeAfter calls)))
  = Some (fst (saveVideoInfo videoInfo id now (storeAfter calls))).
Proof.
  destruct (wfStore_storeAfter calls) as [_ [_ Hall]].
  unfold getVideoInfo, saveVideoInfo. cbn [snd fst videoInfoCache].
  match goal with
  | |- find _ (JsMap.values (JsMap.set _ ?info _)) = _ =>
      exact (find_after_set vi_url _ info Hall)
  end.
Qed.

(** X13. The cache of [/api/extract-video-info]: once a request for a URL
    has been answered with metadata, every later request for that URL, as
    long as the store is the one the first request left, is answered with
    the same metadata, and neither the tool nor any remote server is asked
    again; the store stays as it is. *)
Theorem answered_request_is_cached
        (env env' : Env) (calls : list Call) (url id id' : string)
        (now now' : Z) (info : VideoInfo) (s' : Store) (trace : list Event) :
  run env (extractInfoRoute penv rt (Platform.Returns url) id now
                            (storeAfter calls))
  = (Some (200, InfoBody info), s', trace) ->
  run env' (extractInfoRoute penv rt (Platform.Returns url) id' now' s')
  = (Some (200, InfoBody info), s', []).
Proof.
  destruct (getVideoInfo url (storeAfter calls)) as [cachedInfo|] eqn:Hg.
  - unfold run, extractInfoRoute. rewrite Hg. cbn [runFrom].
    intros [= <- <- <-]. now rewrite Hg.
  - rewrite (extractInfoRoute_miss env url id now _ Hg).
    destruct (run env (extractVideoInfo penv rt url)) as [settled t].
    destruct settled as [videoInfo|message|message|]; try discriminate.
    intros H.
    pose proof (saved_then_found calls (insertOf url videoInfo) id now) as Hf.
    change (iv_url (insertOf url videoInfo)) with url in Hf.
    assert (Hi : fst (saveVideoInfo (insertOf url videoInfo) id now
                                    (storeAfter calls)) = info)
      by congruence.
    assert (Hs : snd (saveVideoInfo (insertOf url videoInfo) id now
                                    (storeAfter calls)) = s')
      by congruence.
    rewrite Hi, Hs in Hf. unfold run, extractInfoRoute. now rewrite Hf.
Qed.

(** The outcome of the extraction by what was asked. *)
Lemma extractVideoInfo_outcome (env : Env) (url : string) :
  let (out, trace) := run env (extractVideoInfo penv rt url) in
  match Platform.detectPlatform url with
  | Platform.Throws message => out = Uncaught message /\ trace = []
  | Platform.Returns _ =>
      match out with
      | Resolved _ | Rejected _ => stalled trace = false
      | Pending => stalled trace = true
      | Uncaught _ => False
      end
  end.
Proof.
  pose proof (extractVideoInfo_runsFrom penv rt 0 env url) as H. unfold run.
  destruct (runFrom 0 env (extractVideoInfo penv rt url)) as [out trace].
  destruct (Platform.detectPlatform url) as [name|message]; [|exact H].
  destruct H as [[_ Hout] _].
  destruct out as [info|message|message|]; try exact Hout;
    now destruct Hout.
Qed.

End Handlers.

Lemma answered_request_is_cached_witness :
  let first :=
    run answeringOEmbed
        (extractInfoRoute noEnvironment plainRuntime
           (Platform.Returns "https://youtu.be/abc") "id1" 1%Z
           (storeAfter [])) in
  option_map fst (fst (fst first)) = Some 200 /\
  run (failingWith "")
      (extractInfoRoute noEnvironment plainRuntime
         (Platform.Returns "https://youtu.be/abc") "id2" 2%Z
         (snd (fst first)))
  = (fst (fst first), snd (fst first), []).
Proof.
  intros first. split; [reflexivity|].
  refine (answered_request_is_cached noEnvironment plainRuntime
            answeringOEmbed (failingWith "") [] "https://youtu.be/abc"
            "id1" "id2" 1%Z 2%Z _ (snd (fst first)) (snd first) _).
  reflexivity.
Defined.
End RouteFacts.

(** ** The streaming handler: the temporary file and the status *)
Module StreamStateFacts.
Import Stream StreamFacts.

Lemma after_snoc (events : list Event) (ev : Event) (h : Handler) :
  after (events ++ [ev]) h = react ev (after events h).
Proof. unfold after. now rewrite fold_left_app. Qed.

Lemma pristine_setHeader (name : string) (r : Res) :
  pristine r -> pristine (setHeader name r).
Proof.
  intros (H1 & H2 & H3). destruct (setHeader_unsent name r H1) as (U & _ & S & E).
  repeat split; congruence.
Qed.

Lemma pristine_setHeaders (names : list string) (r : Res) :
  pristine r -> pristine (setHeaders names r).
Proof.
  revert r. induction names as [|n names IH]; intros r H; [exact H|].
  cbn [setHeaders fold_left]. apply IH. now apply pristine_setHeader.
Qed.

Lemma pristine_optional (b : bool) (name : string) (r : Res) :
  pristine r -> pristine (if b then setHeader name r else r).
Proof. destruct b; [apply pristine_setHeader | trivial]. Qed.

Lemma caught_shape (message : string) (h : Handler) :
  phase (caught message h) = Finished /\
  tmpFile (caught message h) = tmpFile h.
Proof. now split. Qed.

Lemma caught_pristine (message : string) (h : Handler) :
  pristine (res h) -> answered 500 (res (caught message h)).
Proof.
  intros (H1 & H2 & H3). unfold caught. cbn [res]. rewrite H1. cbn [negb].
  unfold sendJson. rewrite H1. repeat split. eexists. split; [reflexivity|].
  now apply ServiceFacts.truthy_or_else.
Qed.

(** The handler up to its first callback: no temporary file yet; when the
    tool was started nothing has left; and the response is the 400 answer
    for a request that lacks a parameter, sound otherwise. *)
Lemma startStream_start (req : Request) (aw : Awaited) :
  let h := startStream req aw in
  tmpFile h = None /\
  phase h <> ReadingFile /\
  (phase h = Transcoding ->
   transcodes req = true /\ headersSent (res h) = false) /\
  (if incomplete req then answered 400 (res h) /\ phase h = Finished
   else sound (res h)).
Proof.
  unfold startStream. fold (incomplete req).
  destruct (incomplete req).
  { cbn [tmpFile phase res]. repeat split; try discriminate.
    eexists. now split. }
  assert (P0 : pristine freshRes) by now repeat split.
  assert (Hc : forall message r,
             pristine r ->
             let h := caught message
                        {| res := r; tmpFile := None; errors := [];
                           phase := Finished |} in
             tmpFile h = None /\ phase h <> ReadingFile /\
             (phase h = Transcoding ->
              transcodes req = true /\ headersSent (res h) = false) /\
             sound (res h)).
  { intros message r Hr h. repeat split; try discriminate.
    right. now apply caught_pristine. }
  destruct (link aw) as [u|m|m|];
    try (now repeat split; try discriminate; left).
  - destruct (cached aw) as [m|t]; [now apply Hc|].
    pose proof (pristine_optional (JS.truthy (q_token req)) "Set-Cookie"
                  freshRes P0) as P1.
    pose proof (pristine_setHeaders
                  [ "Access-Control-Allow-Origin";
                    "Access-Control-Allow-Headers"; "Cache-Control" ] _ P1)
      as P2.
    destruct (transcodes req) eqn:Ht.
    + pose proof (pristine_setHeaders
                    [ "Content-Disposition"; "Content-Type"; "Cache-Control";
                      "Access-Control-Allow-Origin" ] _ P2) as P3.
      pose proof (pristine_optional (JS.truthy (q_token req)) "Set-Cookie"
                    _ P3) as P4.
      cbn [tmpFile phase res]. destruct P4 as (H1 & H2 & H3).
      split; [reflexivity|]. split; [discriminate|].
      split; [intros _; split; [reflexivity | exact H1]|].
      left. split; assumption.
    + destruct (firstFetch aw) as [m|v1]; [now apply Hc|].
      match goal with
      | |- context [match ?f with FetchFailed _ => _ | Answered _ => _ end] =>
          destruct f as [m|v]
      end; [now apply Hc|].
      destruct (negb (up_ok v)); [now apply Hc|].
      pose proof (pristine_setHeader "Content-Type" _ P2) as P3.
      destruct (negb (urlParses aw)); [now apply Hc|].
      pose proof (pristine_setHeader "Content-Disposition" _ P3) as P4.
      pose proof (pristine_optional (JS.truthy (up_contentLength v))
                    "Content-Length" _ P4) as P5.
      pose proof (pristine_optional (JS.truthy (h_range req))
                    "Accept-Ranges" _ P5) as P6.
      destruct (up_hasBody v); [|now apply Hc].
      cbn [tmpFile phase res]. destruct P6 as (H1 & H2 & H3).
      split; [reflexivity|]. split; [discriminate|].
      split; [discriminate|]. left. split; assumption.
  - now apply Hc.
Qed.

Lemma errorIfUnsent_status (message : string) (r : Res) :
  headersSent r = false \/ statusCode r = 500 ->
  statusCode (errorIfUnsent message r) = 500.
Proof.
  unfold errorIfUnsent, sendJson.
  destruct (headersSent r); cbn [negb statusCode]; [|reflexivity].
  now intros [H|H].
Qed.

Lemma react_accounted (req : Request) (events : list Event) (ev : Event)
      (h : Handler) :
  accounted req events h -> accounted req (events ++ [ev]) (react ev h).
Proof.
  unfold accounted, react. intros H.
  destruct (phase h) eqn:Hp.
  - (* nothing is listening *)
    assert (Hkeep : tmpFile h = None \/
                    transcodes req = true /\ statusCode (res h) = 500 /\
                    exists code, In (ProcClose code) (events ++ [ev]) /\
                                 nonZero code = true).
    { destruct H as [H|(H1 & H2 & code & Hin & Hnz)]; [now left|].
      right. repeat split; try assumption.
      exists code. split; [apply in_or_app; now left | exact Hnz]. }
    destruct ev; cbn [phase tmpFile res]; rewrite ?Hp; exact Hkeep.
  - destruct H as [Ht Hs].
    destruct ev; cbn [phase tmpFile res]; rewrite ?Hp;
      try (split; [exact Ht | exact Hs]).
    + split; [exact Ht|]. right. now apply errorIfUnsent_status.
    + destruct (nonZero code) eqn:Hnz; cbn [phase tmpFile res];
        [|exact Ht].
      right. split; [exact Ht|]. split; [now apply errorIfUnsent_status|].
      exists code. split; [apply in_or_app; right; now left | exact Hnz].
  - destruct ev; cbn [phase tmpFile res]; rewrite ?Hp; try exact H.
    now left.
  - destruct ev; cbn [phase tmpFile res]; rewrite ?Hp; try exact H.
    now left.
Qed.

Lemma after_accounted (req : Request) (aw : Awaited) (events : list Event) :
  accounted req events (after events (startStream req aw)).
Proof.
  induction events as [|ev events IH] using rev_ind.
  - destruct (startStream_start req aw) as (Hf & Hr & Ht & _).
    unfold accounted. cbn [after fold_left].
    destruct (phase (startStream req aw)) eqn:Hp.
    + now left.
    + destruct (Ht eq_refl) as [H1 H2]. split; [exact H1 | now left].
    + now elim Hr.
    + exact Hf.
  - rewrite after_snoc. now apply react_accounted.
Qed.

(** Whatever the state of the handler, an event that makes the file go is
    the ['close'] or the ['error'] of the read stream. *)
Lemma only_read_stream_unlinks (ev : Event) (h : Handler) :
  tmpFile h <> None -> tmpFile (react ev h) = None ->
  phase h = ReadingFile /\
  (ev = ReadClose \/ exists message, ev = ReadError message).
Proof.
  intros Hfile. unfold react.
  destruct ev, (phase h); cbn [tmpFile]; intros Hgone;
    try (now elim Hfile); try discriminate Hgone;
    try (split; [reflexivity|]; first [now left | right; now eexists]).
  all: destruct (nonZero code); cbn [tmpFile] in Hgone; now elim Hfile.
Qed.

(** X15. The temporary file of a request, over every request, every outcome
    of the awaited calls and every sequence of events.  On the direct path
    (no audio, no compatible output) there is never a temporary file.  Once
    the file is there, the only events that remove it are the ['close'] and
    the ['error'] of the read stream: a non-zero exit of the tool does not,
    nor does the client going away, which leaves the file and the listeners
    as they are.  So a request that has no listener left and still has its
    file is one whose tool closed with a non-zero exit code, answered 500;
    and while the file is being read it stays on disk until the read stream
    closes or fails, if it ever does. *)
Theorem temp_file_removed_only_by_read_stream
        (req : Request) (aw : Awaited) (events : list Event) :
  let h := after events (startStream req aw) in
  (transcodes req = false -> tmpFile h = None) /\
  (forall ev,
      tmpFile h <> None -> tmpFile (react ev h) = None ->
      phase h = ReadingFile /\
      (ev = ReadClose \/ exists message, ev = ReadError message)) /\
  (tmpFile (react ClientGone h) = tmpFile h /\
   phase (react ClientGone h) = phase h) /\
  (tmpFile h <> None ->
   transcodes req = true /\
   match phase h with
   | Transcoding | ReadingFile => True
   | Finished =>
       statusCode (res h) = 500 /\
       exists code, In (ProcClose code) events /\ nonZero code = true
   | Relaying => False
   end).
Proof.
  intros h. pose proof (after_accounted req aw events) as H.
  fold h in H. unfold accounted in H.
  split; [|split; [|split]].
  - intros Hd.
    assert (Hnone : forall evs, transcodes req = false ->
                                tmpFile (after evs (startStream req aw)) = None
                                /\ phase (after evs (startStream req aw))
                                   <> Transcoding).
    { clear. intros evs Hd.
      induction evs as [|ev evs [IH1 IH2]] using rev_ind.
      - destruct (startStream_start req aw) as (Hf & _ & Ht & _).
        split; [exact Hf|]. intros Hp. destruct (Ht Hp). congruence.
      - rewrite after_snoc. unfold react.
        destruct (phase (after evs (startStream req aw))) eqn:Hp;
          [| now elim IH2 | |];
          destruct ev; cbn [tmpFile phase]; rewrite ?Hp;
          split; try exact IH1; try discriminate; reflexivity. }
    now apply Hnone.
  - intros ev. apply only_read_stream_unlinks.
  - now split.
  - intros Hfile. destruct (phase h) eqn:Hp.
    + destruct H as [H|(Ht & Hs & Hc)]; [now elim Hfile|]. now split.
    + now destruct H.
    + now split.
    + now elim Hfile.
Qed.

Lemma react_answered (code : nat) (ev : Event) (h : Handler) :
  answered code (res h) -> answered code (res (react ev h)).
Proof.
  intros (H1 & H2 & H3 & H4). unfold react.
  destruct ev, (phase h); cbn [res];
    rewrite ?(errorIfUnsent_sent _ _ H2);
    unfold pipeWrite, pipeEnd; rewrite ?H3;
    try (now repeat split).
  destruct (nonZero code0); cbn [res];
    rewrite ?(errorIfUnsent_sent _ _ H2); [now repeat split|].
  destruct (tmpFile h) as [size|]; [|now repeat split].
  rewrite H2. cbn [negb]. rewrite andb_false_r. now repeat split.
Qed.

Lemma errorIfUnsent_sound (message : string) (r : Res) :
  JS.truthy message = true -> sound r -> sound (errorIfUnsent message r).
Proof.
  intros Hm Hs. unfold errorIfUnsent.
  destruct (headersSent r) eqn:Hh; cbn [negb]; [exact Hs|].
  right. unfold sendJson. rewrite Hh. repeat split. now exists message.
Qed.

Lemma react_sound (ev : Event) (h : Handler) :
  sound (res h) -> sound (res (react ev h)).
Proof.
  intros [[He Hs]|Ha]; [|right; now apply react_answered].
  assert (Hsound : sound (res h)) by (now left).
  unfold react.
  destruct ev, (phase h); cbn [res]; try exact Hsound;
    try (apply errorIfUnsent_sound; [reflexivity | exact Hsound]);
    try (unfold pipeWrite, pipeEnd; destruct (ended (res h));
         cbn [errorBody statusCode]; now left).
  - destruct (nonZero code); cbn [res].
    + apply errorIfUnsent_sound; [reflexivity | exact Hsound].
    + destruct (tmpFile h) as [size|]; [|exact Hsound].
      destruct (negb (size =? 0)%N && negb (headersSent (res h))) eqn:Hc;
        [|exact Hsound].
      apply andb_true_iff in Hc. destruct Hc as [_ Hu].
      apply negb_true_iff in Hu.
      destruct (setHeader_unsent "Content-Length" _ Hu) as (_ & _ & S & E).
      left. split; congruence.
Qed.

Lemma after_answered (code : nat) (events : list Event) (h : Handler) :
  answered code (res h) -> answered code (res (after events h)).
Proof.
  revert h. induction events as [|ev events IH]; intros h H; [exact H|].
  cbn [after fold_left]. apply IH. now apply react_answered.
Qed.

Lemma after_sound (events : list Event) (h : Handler) :
  sound (res h) -> sound (res (after events h)).
Proof.
  revert h. induction events as [|ev events IH]; intros h H; [exact H|].
  cbn [after fold_left]. apply IH. now apply react_sound.
Qed.

(** X16. The status of the response, over every request, every outcome of
    the awaited calls and every sequence of events: it is 400 exactly for a
    request that lacks a parameter; a response without an error body has
    status 200; and an error body goes with status 400 or 500, is a
    non-empty message, and the response has left and is over. *)
Theorem response_status_accounting
        (req : Request) (aw : Awaited) (events : list Event) :
  let r := res (after events (startStream req aw)) in
  (statusCode r = 400 <-> incomplete req = true) /\
  match errorBody r with
  | None => statusCode r = 200
  | Some message =>
      (statusCode r = 400 \/ statusCode r = 500) /\
      JS.truthy message = true /\
      headersSent r = true /\ ended r = true
  end.
Proof.
  intros r. destruct (startStream_start req aw) as (_ & _ & _ & Hstart).
  destruct (incomplete req) eqn:Hi.
  - destruct Hstart as [Ha _].
    apply (after_answered 400 events) in Ha. fold r in Ha.
    destruct Ha as (H1 & H2 & H3 & message & H4 & H5).
    split; [now split|]. rewrite H4. repeat split; try assumption. now left.
  - apply (after_sound events) in Hstart. fold r in Hstart.
    destruct Hstart as [[He Hs]|(H1 & H2 & H3 & message & H4 & H5)].
    + split; [split; [congruence | discriminate]|]. now rewrite He.
    + split; [split; [congruence | discriminate]|].
      rewrite H4. repeat split; try assumption. now right.
Qed.
End StreamStateFacts.

(** ** Labels, selectors and durations *)
Module SelectorFacts.
Import Quality Extractor.

(** Only whether the URL is of TikTok, Instagram or Pinterest matters. *)
Lemma getFormatSelector_by_kind (quality url : string) :
  getFormatSelector quality url
  = if cookiePlatformUrl url
    then getFormatSelector quality "tiktok.com"
    else getFormatSelector quality "".
Proof.
  unfold cookiePlatformUrl, isTikTokUrl, isInstagramUrl, getFormatSelector.
  destruct (JS.includes url "tiktok.com"); [reflexivity|].
  destruct (JS.includes url "instagram.com"); [reflexivity|].
  destruct (JS.includes url "pinterest.com"); [reflexivity|].
  destruct (JS.includes url "pin.it"); reflexivity.
Qed.

Lemma low_labels_elsewhere :
  forallb (fun n => getFormatSelector (qualityLabel (N.of_nat n)) ""
                    =? cappedSelector (ceilingOf (N.of_nat n)))%string
          (seq 0 720) = true.
Proof. vm_compute. reflexivity. Qed.

Lemma low_labels_cookie :
  forallb (fun n => getFormatSelector (qualityLabel (N.of_nat n)) "tiktok.com"
                    =? cookieSelector (cookieCeilingOf (N.of_nat n)))%string
          (seq 0 720) = true.
Proof. vm_compute. reflexivity. Qed.

Lemma below_720 (P : N -> bool) (h : N) :
  forallb (fun n => P (N.of_nat n)) (seq 0 720) = true ->
  (h < 720)%N -> P h = true.
Proof.
  intros Hall Hh. rewrite forallb_forall in Hall.
  rewrite <- (N2Nat.id h). apply Hall. apply in_seq. lia.
Qed.

(** X17. The selector the resolver builds for a label of the ladder.  For a
    stream of height [h] the label caps the download at 2160, 1440, 1080 or
    720 for heights from 720 up, and at [h] itself for 480, 360 and 240;
    the label of every other height below 720 (144p, 540p, ...) gives a
    selector with no cap at all, so the best stream is taken.  On TikTok,
    Instagram and Pinterest only 1080, 720 and 480 cap, and the labels
    of 2K and 4K give no cap. *)
Theorem selector_of_ladder_label (h : N) (url : string) :
  getFormatSelector (qualityLabel h) url
  = if cookiePlatformUrl url
    then cookieSelector (cookieCeilingOf h)
    else cappedSelector (ceilingOf h).
Proof.
  rewrite getFormatSelector_by_kind.
  destruct (N.ltb_spec h 720) as [Hlow|Hhigh].
  - destruct (cookiePlatformUrl url); apply String.eqb_eq.
    + exact (below_720
               (fun h => getFormatSelector (qualityLabel h) "tiktok.com"
                         =? cookieSelector (cookieCeilingOf h))%string
               h low_labels_cookie Hlow).
    + exact (below_720
               (fun h => getFormatSelector (qualityLabel h) ""
                         =? cappedSelector (ceilingOf h))%string
               h low_labels_elsewhere Hlow).
  - unfold qualityLabel, ceilingOf, cookieCeilingOf.
    destruct (N.leb_spec 2160 h) as [H1|H1].
    + replace (1440 <=? h)%N with true by (symmetry; apply N.leb_le; lia).
      now destruct (cookiePlatformUrl url).
    + destruct (N.leb_spec 1440 h) as [H2|H2];
        [now destruct (cookiePlatformUrl url)|].
      destruct (N.leb_spec 1080 h) as [H3|H3];
        [now destruct (cookiePlatformUrl url)|].
      destruct (N.leb_spec 720 h) as [H4|H4];
        [now destruct (cookiePlatformUrl url) | lia].
Qed.

(** X18. Whatever the label and the URL, the selector ends with the
    alternative [best] without any condition: the tool is never handed a
    selector that can match nothing while the video has a stream. *)
Theorem selector_always_falls_back (quality url : string) :
  JS.endsWith (getFormatSelector quality url) "/best" = true.
Proof.
  rewrite getFormatSelector_by_kind.
  destruct (cookiePlatformUrl url); unfold getFormatSelector;
    cbn [JS.includes JS.startsWith orb];
    repeat match goal with
           | |- context [if ?b then _ else _] =>
               destruct b; cbn [orb]; try reflexivity
           end.
Qed.

Lemma length_app (a b : string) :
  String.length (a ++ b) = String.length a + String.length b.
Proof. induction a as [|c a IH]; simpl; [reflexivity | now rewrite IH]. Qed.

Lemma pad2_length (n : N) : (n < 100)%N -> String.length (pad2 n) = 2.
Proof.
  intros Hn. rewrite <- (N2Nat.id n).
  assert (Hall : forallb (fun k => String.length (pad2 (N.of_nat k)) =? 2)%nat
                         (seq 0 100) = true) by (vm_compute; reflexivity).
  rewrite forallb_forall in Hall. apply Nat.eqb_eq, Hall, in_seq. lia.
Qed.

(** X19. The rendering of a duration: below one hour it is the five
    characters of [MM:SS], from one hour up to a hundred hours the eight
    characters of [HH:MM:SS]; a duration of zero (or none) reads 00:00. *)
Theorem formatDuration_length (seconds : N) :
  (seconds < 360000)%N ->
  String.length (formatDuration seconds)
  = if (seconds <? 3600)%N then 5 else 8.
Proof.
  intros Hs. unfold formatDuration.
  destruct (N.eqb_spec seconds 0) as [->|Hnz]; [reflexivity|].
  assert (Hm : ((seconds mod 3600) / 60 < 100)%N).
  { apply N.Div0.div_lt_upper_bound.
    pose proof (N.mod_lt seconds 3600). lia. }
  assert (Hr : (seconds mod 60 < 100)%N).
  { pose proof (N.mod_lt seconds 60). lia. }
  destruct (N.ltb_spec seconds 3600) as [Hlt|Hge].
  - rewrite (N.div_small seconds 3600 Hlt). cbn [N.ltb N.compare].
    rewrite !length_app, !pad2_length by assumption. reflexivity.
  - assert (Hh : (0 < seconds / 3600 < 100)%N).
    { split; [apply N.div_str_pos; lia|].
      apply N.Div0.div_lt_upper_bound. lia. }
    replace (0 <? seconds / 3600)%N with true
      by (symmetry; apply N.ltb_lt; lia).
    rewrite !length_app, !pad2_length by (assumption || lia). reflexivity.
Qed.

Lemma formatDuration_length_witness :
  String.length (formatDuration 3725) = 8.
Proof. exact (formatDuration_length 3725 eq_refl). Defined.
End SelectorFacts.

(** ** What the ladder lists *)
Module LadderContentFacts.
Import JsMap JsMapFacts Quality LadderFacts QualityFacts.

Section Content.
Variables toFixed1 unitOf : N -> string.

Local Abbreviation videoMap := (Quality.videoMap toFixed1 unitOf).
Local Abbreviation optionOf := (Quality.optionOf toFixed1 unitOf).

(** X20. What [extractQualities] lists.  Every option of the ladder other
    than 'Audio Only' is the option of a declared format that has a height
    and a video stream: label, container and size are those of that one
    format, and no resolution is listed that the video does not have.
    Conversely every such format finds the label of its height in the
    ladder. *)
Theorem ladder_lists_the_declared_streams (formats : list StreamFormat) :
  (forall q,
      In q (extractQualities toFixed1 unitOf formats) ->
      q = audioOnly \/
      exists f, In f formats /\ skipped f = false /\ q = optionOf f) /\
  (forall f,
      In f formats -> skipped f = false ->
      exists q, In q (extractQualities toFixed1 unitOf formats) /\
                quality q = qualityLabel (height f)).
Proof.
  split.
  - intros q Hq. rewrite extractQualities_shape in Hq.
    apply in_app_or in Hq. destruct Hq as [Hq|[<-|[]]]; [|now left].
    right. apply (Permutation_in _ (videoLadder_perm toFixed1 unitOf formats))
      in Hq.
    apply in_map_iff in Hq. destruct Hq as [[k e] [He Hin]].
    simpl in He. subst e. now apply (videoMap_sound toFixed1 unitOf formats k).
  - intros f Hin Hs.
    pose proof (videoMap_complete toFixed1 unitOf formats f Hin Hs) as Hk.
    apply in_map_iff in Hk. destruct Hk as [[k e] [Hk Hke]].
    simpl in Hk. subst k. exists e.
    split; [exact (in_videoMap_ladder toFixed1 unitOf formats _ e Hke)|].
    destruct (wfVideo_videoMap toFixed1 unitOf formats) as [_ Hall].
    rewrite Forall_forall in Hall. now destruct (Hall _ Hke) as [Hq _].
Qed.
End Content.
End LadderContentFacts.
